(** * bookaboo: the natural-language reservation parser (nlp_parser.py)

    A shallow embedding of [nlp_parser.py] and of the parts of Python's
    [str], [re] and [datetime] it relies on ([PyStr], [Re], [Datetime],
    [NlpParser]), followed by the properties of the parser ([ReFacts],
    [DatetimeFacts], [DateFacts], [ParserFacts]).

    Around the parser: the methods of [ParsedRequest]
    ([ParsedRequestMethods]), the choice of a slot in [ontopo_client.py]
    ([OntopoClient]) and the first stage of [reserve] in [bookaboo.py]
    ([Bookaboo]), with their properties ([FormatFacts], [MoreDateFacts],
    [KeywordFacts], [NeedFacts], [NameFacts], [SlotFacts],
    [ReserveFacts]).

    Exceptions are values: a computation that can raise returns a
    [result], and [try ... except ValueError] is a match on it.  The wall
    clock that [datetime.now()] reads is an explicit argument, [clock].

    Scope of the model.  A Python [str] is modelled by a [string]: a finite
    sequence of 8-bit characters, read as the code points U+0000..U+00FF.
    The character classes ([\d], [\s], [\w], [str.lower], [str.isspace],
    [str.isupper]) are Python's on that range.  [int] is arbitrary
    precision, with the interpreter's cap on the length of a numeral at
    its default of 4300 digits ([PyStrMore.int_literal]); [PyStr.int]
    stands for it on the captures of at most four digits. *)

From Stdlib Require Import ZArith List Bool Ascii String Lia.
From Stdlib Require Import DecimalString.
Import ListNotations.

Local Open Scope Z_scope.

Set Implicit Arguments.

(* ------------------------------------------------------------------ *)
(** * Characters and strings, as Python's [str] has them *)
(* ------------------------------------------------------------------ *)

Module PyStr.

Definition code (c : ascii) : Z := Z.of_N (N_of_ascii c).
Definition chr (n : Z) : ascii := ascii_of_N (Z.to_N n).

Definition between (lo hi : Z) (c : ascii) : bool :=
  (lo <=? code c) && (code c <=? hi).

(** [\d] : the decimal digits. *)
Definition is_digit (c : ascii) : bool := between 48 57 c.

(** [str.isspace] and [\s]:  TAB..CR, FS..US, space, NEL, NBSP. *)
Definition is_space (c : ascii) : bool :=
  between 9 13 c || between 28 32 c || (code c =? 133) || (code c =? 160).

Definition is_ascii_upper (c : ascii) : bool := between 65 90 c.
Definition is_ascii_lower (c : ascii) : bool := between 97 122 c.

(** Upper-case letters that have a lower-case partner 32 places on:
    A..Z and the Latin-1 capitals (U+00C0..U+00DE without the sign U+00D7). *)
Definition is_upper (c : ascii) : bool :=
  is_ascii_upper c || (between 192 222 c && negb (code c =? 215)).

(** Lower-case letters whose capital lies in the range: a..z and
    U+00E0..U+00FE without U+00F7. *)
Definition has_upper (c : ascii) : bool :=
  is_ascii_lower c || (between 224 254 c && negb (code c =? 247)).

Definition lower_char (c : ascii) : ascii :=
  if is_upper c then chr (code c + 32) else c.

Definition upper_char (c : ascii) : ascii :=
  if has_upper c then chr (code c - 32) else c.

(** [\w]: alphanumeric characters and the underscore. *)
Definition is_word (c : ascii) : bool :=
  is_digit c || is_ascii_upper c || is_ascii_lower c || (code c =? 95)
  || (code c =? 170) || (code c =? 178) || (code c =? 179) || (code c =? 181)
  || (code c =? 185) || (code c =? 186) || between 188 190 c
  || between 192 214 c || between 216 246 c || between 248 255 c.

Definition chars : Type := list ascii.

Definition lower_chars (s : chars) : chars := map lower_char s.

(** [str.lower] *)
Definition lower (s : string) : string :=
  string_of_list_ascii (lower_chars (list_ascii_of_string s)).

(** [str.strip] with no argument. *)
Fixpoint lstrip_chars (s : chars) : chars :=
  match s with
  | c :: s' => if is_space c then lstrip_chars s' else s
  | [] => []
  end.

Definition strip_chars (s : chars) : chars :=
  rev (lstrip_chars (rev (lstrip_chars s))).

Definition strip (s : string) : string :=
  string_of_list_ascii (strip_chars (list_ascii_of_string s)).

(** [str.split] with no argument: the maximal runs of non-space
    characters.  [cur] is the run under construction, reversed. *)
Fixpoint split_chars (cur : chars) (s : chars) : list string :=
  match s with
  | [] =>
      match cur with
      | [] => []
      | _ => [string_of_list_ascii (rev cur)]
      end
  | c :: s' =>
      if is_space c then
        match cur with
        | [] => split_chars [] s'
        | _ => string_of_list_ascii (rev cur) :: split_chars [] s'
        end
      else split_chars (c :: cur) s'
  end.

Definition split (s : string) : list string :=
  split_chars [] (list_ascii_of_string s).

(** [sep.join(words)] *)
Fixpoint join (sep : string) (ws : list string) : string :=
  match ws with
  | [] => EmptyString
  | [w] => w
  | w :: ws' => (w ++ sep ++ join sep ws')%string
  end.

(** [int(s)] on a run of decimal digits that [int] accepts: the parser
    uses it on captures of one to four digits.  [PyStrMore.int_literal]
    is [int] on any string, with its [ValueError]. *)
Definition int_chars (s : chars) : Z :=
  fold_left (fun acc c => 10 * acc + (code c - 48)) s 0.

Definition int (s : string) : Z := int_chars (list_ascii_of_string s).

(** The decimal numeral of a natural number, and [f"{n:02d}"]. *)
Definition dec (n : Z) : string :=
  NilZero.string_of_uint (N.to_uint (Z.to_N n)).

Definition fmt02 (n : Z) : string :=
  if n <? 10 then ("0" ++ dec n)%string else dec n.

(** [s[0].isupper()] for a non-empty string (false on the empty one, where
    Python would raise; the parser never asks). *)
Definition first_isupper (s : string) : bool :=
  match s with
  | String c _ => is_upper c
  | EmptyString => false
  end.

End PyStr.

(* ------------------------------------------------------------------ *)
(** * More of Python's [str]: slices, [replace], [in], [int] of any string *)
(* ------------------------------------------------------------------ *)

Module PyStrMore.
Import PyStr.

(** [s[:n]] *)
Definition slice_to (n : nat) (s : string) : string :=
  string_of_list_ascii (firstn n (list_ascii_of_string s)).

(** [s[n:]] *)
Definition slice_from (n : nat) (s : string) : string :=
  string_of_list_ascii (skipn n (list_ascii_of_string s)).

(** [s[a:b]] for [a <= b] *)
Definition slice_mid (a b : nat) (s : string) : string :=
  slice_to (b - a) (slice_from a s).

Definition remove_chars (c : ascii) (s : chars) : chars :=
  filter (fun x => negb (Ascii.eqb x c)) s.

(** [s.replace(c, "")] for a one-character [c]. *)
Definition remove_char (c : ascii) (s : string) : string :=
  string_of_list_ascii (remove_chars c (list_ascii_of_string s)).

(** [c in s] for a one-character [c]. *)
Definition contains_char (c : ascii) (s : string) : bool :=
  existsb (Ascii.eqb c) (list_ascii_of_string s).

(** White space that [int] skips around a numeral: TAB..CR, the space,
    NEL and NBSP (the separators FS..US are not skipped). *)
Definition is_int_space (c : ascii) : bool :=
  between 9 13 c || (code c =? 32)%Z || (code c =? 133)%Z || (code c =? 160)%Z.

Fixpoint skip_int_space (s : chars) : chars :=
  match s with
  | c :: s' => if is_int_space c then skip_int_space s' else s
  | [] => []
  end.

(** The digits of a numeral after its first digit: digits, each possibly
    preceded by one underscore; [None] where the numeral is malformed,
    otherwise its value continued from [acc] and what follows it. *)
Fixpoint int_digits (acc : Z) (s : chars) {struct s} : option (Z * chars) :=
  match s with
  | c :: s1 =>
      if is_digit c then int_digits (10 * acc + (code c - 48))%Z s1
      else if (code c =? 95)%Z then
        match s1 with
        | d :: s2 =>
            if is_digit d then int_digits (10 * acc + (code d - 48))%Z s2
            else None
        | [] => None
        end
      else Some (acc, s)
  | [] => Some (acc, s)
  end.

(** The longest numeral [int] converts, counted in digits
    ([sys.get_int_max_str_digits()] as the interpreter starts). *)
Definition max_str_digits : Z := 4300.

(** [int(s)]: optional white space, an optional sign, a decimal numeral,
    optional white space; [None] stands for [ValueError], which a
    numeral of more than [max_str_digits] digits raises as well. *)
Definition int_literal (s : string) : option Z :=
  if (max_str_digits
      <? Z.of_nat (List.length (filter is_digit (list_ascii_of_string s))))%Z
  then None else
  let s0 := skip_int_space (list_ascii_of_string s) in
  let '(neg, s1) :=
    match s0 with
    | c :: s' =>
        if (code c =? 45)%Z then (true, s')
        else if (code c =? 43)%Z then (false, s')
        else (false, s0)
    | [] => (false, s0)
    end in
  match s1 with
  | c :: s2 =>
      if is_digit c then
        match int_digits (code c - 48)%Z s2 with
        | Some (v, rest) =>
            match skip_int_space rest with
            | [] => Some (if neg then (- v)%Z else v)
            | _ => None
            end
        | None => None
        end
      else None
  | [] => None
  end.

End PyStrMore.

(* ------------------------------------------------------------------ *)
(** * Regular expressions, as Python's [re] module matches them *)
(* ------------------------------------------------------------------ *)

Module Re.
Import PyStr.

Local Open Scope char_scope.

(** ** Abstract syntax *)

Inductive item : Type :=
| IChar (c : ascii)
| IRange (lo hi : ascii)
| IDigit
| ISpace
| IWord.

Inductive regex : Type :=
| Eps
| Lit (c : ascii)
| Cls (neg : bool) (items : list item)
| Bow
| Eos
| Seq (r1 r2 : regex)
| Alt (r1 r2 : regex)
| Rep (lo : nat) (hi : option nat) (greedy : bool) (r : regex)
| Group (n : nat) (r : regex)
| NotAhead (r : regex)
| NotBehind (r : regex).

(** The width of a pattern that always matches the same number of
    characters (look-behind requires one). *)
Fixpoint width (r : regex) : option nat :=
  match r with
  | Eps | Bow | Eos | NotAhead _ | NotBehind _ => Some 0%nat
  | Lit _ | Cls _ _ => Some 1%nat
  | Seq r1 r2 =>
      match width r1, width r2 with
      | Some a, Some b => Some (a + b)%nat
      | _, _ => None
      end
  | Alt r1 r2 =>
      match width r1, width r2 with
      | Some a, Some b => if Nat.eqb a b then Some a else None
      | _, _ => None
      end
  | Rep lo (Some hi) _ r1 =>
      match width r1 with
      | Some a => if Nat.eqb lo hi then Some (lo * a)%nat else None
      | None => None
      end
  | Rep _ None _ _ => None
  | Group _ r1 => width r1
  end.

(** ** Concrete syntax: the subset of pattern strings the parser uses *)

Fixpoint starts (p : chars) (s : chars) : option chars :=
  match p, s with
  | [], _ => Some s
  | a :: p', b :: s' => if Ascii.eqb a b then starts p' s' else None
  | _ :: _, [] => None
  end.

Definition is_alnum_ascii (c : ascii) : bool :=
  is_digit c || is_ascii_upper c || is_ascii_lower c.

(** An escape [\e] inside or outside a set. *)
Definition esc_item (e : ascii) : option item :=
  if e =? "d" then Some IDigit
  else if e =? "s" then Some ISpace
  else if e =? "w" then Some IWord
  else if is_alnum_ascii e then None
  else Some (IChar e).

Fixpoint p_items (acc : list item) (s : chars) {struct s}
  : option (list item * chars) :=
  match s with
  | [] => None
  | c :: s1 =>
      if c =? "]" then Some (rev acc, s1)
      else if c =? "\" then
        match s1 with
        | e :: s2 =>
            match esc_item e with
            | Some i => p_items (i :: acc) s2
            | None => None
            end
        | [] => None
        end
      else
        match s1 with
        | d :: e :: s3 =>
            if (d =? "-") && negb (e =? "]")
            then p_items (IRange c e :: acc) s3
            else p_items (IChar c :: acc) s1
        | _ => p_items (IChar c :: acc) s1
        end
  end.

Fixpoint p_nat (acc : nat) (s : chars) {struct s} : nat * chars :=
  match s with
  | c :: s1 =>
      if is_digit c then p_nat (10 * acc + Z.to_nat (code c - 48))%nat s1
      else (acc, s)
  | [] => (acc, s)
  end.

Definition p_lazy (lo : nat) (hi : option nat) (a : regex) (s : chars)
  : option (regex * chars) :=
  match s with
  | c :: s1 =>
      if c =? "?" then Some (Rep lo hi false a, s1)
      else Some (Rep lo hi true a, s)
  | [] => Some (Rep lo hi true a, s)
  end.

(** A quantifier after the atom [a], if there is one. *)
Definition p_quant (a : regex) (s : chars) : option (regex * chars) :=
  match s with
  | c :: s1 =>
      if c =? "?" then p_lazy 0 (Some 1%nat) a s1
      else if c =? "*" then p_lazy 0 None a s1
      else if c =? "+" then p_lazy 1 None a s1
      else if c =? "{" then
        let '(lo, s2) := p_nat 0 s1 in
        match s2 with
        | d :: s3 =>
            if d =? "}" then p_lazy lo (Some lo) a s3
            else if d =? "," then
              match s3 with
              | e :: s4 =>
                  if e =? "}" then p_lazy lo None a s4
                  else
                    let '(hi, s5) := p_nat 0 s3 in
                    match s5 with
                    | f :: s6 =>
                        if f =? "}" then p_lazy lo (Some hi) a s6 else None
                    | [] => None
                    end
              | [] => None
              end
            else None
        | [] => None
        end
      else Some (a, s)
  | [] => Some (a, s)
  end.

Definition close (x : option (regex * nat * chars)) (wrap : regex -> regex)
  : option (regex * nat * chars) :=
  match x with
  | Some (r, n, c :: s) => if c =? ")" then Some (wrap r, n, s) else None
  | _ => None
  end.

(** Recursive descent; [n] is the number of capturing groups opened so
    far (groups are numbered by their opening parenthesis). *)
Fixpoint p_alt (fuel : nat) (n : nat) (s : chars) {struct fuel}
  : option (regex * nat * chars) :=
  match fuel with
  | O => None
  | S f =>
      match p_seq f n s with
      | Some (r1, n1, c :: s1) =>
          if c =? "|" then
            match p_alt f n1 s1 with
            | Some (r2, n2, s2) => Some (Alt r1 r2, n2, s2)
            | None => None
            end
          else Some (r1, n1, c :: s1)
      | x => x
      end
  end
with p_seq (fuel : nat) (n : nat) (s : chars) {struct fuel}
  : option (regex * nat * chars) :=
  match fuel with
  | O => None
  | S f =>
      match s with
      | [] => Some (Eps, n, s)
      | c :: _ =>
          if (c =? "|") || (c =? ")") then Some (Eps, n, s)
          else
            match p_atom f n s with
            | Some (a, n1, s1) =>
                match p_quant a s1 with
                | Some (q, s2) =>
                    match p_seq f n1 s2 with
                    | Some (Eps, n2, s3) => Some (q, n2, s3)
                    | Some (r, n2, s3) => Some (Seq q r, n2, s3)
                    | None => None
                    end
                | None => None
                end
            | None => None
            end
      end
  end
with p_atom (fuel : nat) (n : nat) (s : chars) {struct fuel}
  : option (regex * nat * chars) :=
  match fuel with
  | O => None
  | S f =>
      match starts ["("; "?"; ":"] s with
      | Some s1 => close (p_alt f n s1) (fun r => r)
      | None =>
      match starts ["("; "?"; "<"; "!"] s with
      | Some s1 =>
          match close (p_alt f n s1) NotBehind with
          | Some (NotBehind r, n1, s2) =>
              match width r with
              | Some _ => Some (NotBehind r, n1, s2)
              | None => None
              end
          | _ => None
          end
      | None =>
      match starts ["("; "?"; "!"] s with
      | Some s1 => close (p_alt f n s1) NotAhead
      | None =>
      match s with
      | [] => None
      | c :: s1 =>
          if c =? "(" then close (p_alt f (S n) s1) (Group (S n))
          else if c =? "[" then
            match s1 with
            | d :: s2 =>
                if d =? "^" then
                  match p_items [] s2 with
                  | Some (its, s3) => Some (Cls true its, n, s3)
                  | None => None
                  end
                else
                  match p_items [] s1 with
                  | Some (its, s3) => Some (Cls false its, n, s3)
                  | None => None
                  end
            | [] => None
            end
          else if c =? "\" then
            match s1 with
            | e :: s2 =>
                if e =? "b" then Some (Bow, n, s2)
                else
                  match esc_item e with
                  | Some (IChar x) => Some (Lit x, n, s2)
                  | Some i => Some (Cls false [i], n, s2)
                  | None => None
                  end
            | [] => None
            end
          else if c =? "$" then Some (Eos, n, s1)
          else if (c =? "?") || (c =? "*") || (c =? "+") || (c =? "{")
                  || (c =? "]") || (c =? "}") || (c =? ".") || (c =? "^")
          then None
          else Some (Lit c, n, s1)
      end end end end
  end.

(** [re.compile]: [None] where the pattern is outside the subset. *)
Definition parse (p : string) : option regex :=
  let s := list_ascii_of_string p in
  match p_alt (3 * List.length s + 3) 0 s with
  | Some (r, _, []) => Some r
  | _ => None
  end.

(** A pattern that matches nothing stands for a pattern that does not
    compile; every pattern of the program compiles (see [patterns_compile]
    below). *)
Definition compile (p : string) : regex :=
  match parse p with
  | Some r => r
  | None => Cls false []
  end.

(** ** Matching

    A backtracking matcher in continuation-passing style: alternatives are
    tried left to right, greedy repetitions take as many iterations as they
    can before giving them back, lazy ones as few as they can.  The cursor
    splits the subject at the current position; [before] is reversed. *)

Record cursor : Type := mkcursor { before : chars; after : chars }.

Definition pos (c : cursor) : nat := List.length (before c).

(** Spans recorded for the capturing groups, the latest first. *)
Definition caps : Type := list (nat * (nat * nat)).

Definition item_has (i : item) (x : ascii) : bool :=
  match i with
  | IChar c => Ascii.eqb c x
  | IRange lo hi => between (code lo) (code hi) x
  | IDigit => is_digit x
  | ISpace => is_space x
  | IWord => is_word x
  end.

(** Under IGNORECASE a character is also tried in its other case. *)
Definition item_match (ic : bool) (i : item) (x : ascii) : bool :=
  item_has i x
  || (ic && (item_has i (lower_char x) || item_has i (upper_char x))).

Definition cls_match (ic : bool) (neg : bool) (its : list item) (x : ascii)
  : bool :=
  xorb neg (existsb (fun i => item_match ic i x) its).

Definition lit_match (ic : bool) (c x : ascii) : bool :=
  if ic then Ascii.eqb (lower_char c) (lower_char x) else Ascii.eqb c x.

Definition word_at (s : chars) : bool :=
  match s with
  | x :: _ => is_word x
  | [] => false
  end.

(** [\b]: exactly one side of the position is a word character. *)
Definition at_boundary (c : cursor) : bool :=
  xorb (word_at (before c)) (word_at (after c)).

(** [$]: the end of the subject, or just before a final newline. *)
Definition at_end (c : cursor) : bool :=
  match after c with
  | [] => true
  | [x] => Ascii.eqb x (chr 10)
  | _ => false
  end.

Definition step (c : cursor) : option (ascii * cursor) :=
  match after c with
  | x :: rest => Some (x, mkcursor (x :: before c) rest)
  | [] => None
  end.

(** The cursor [w] characters back, when there are that many. *)
Definition back (w : nat) (c : cursor) : option cursor :=
  if (w <=? pos c)%nat
  then Some (mkcursor (skipn w (before c))
                      (rev (firstn w (before c)) ++ after c))
  else None.

Definition K : Type := cursor -> caps -> option (cursor * caps).

Definition accept : K := fun c g => Some (c, g).

Definition matcher : Type := K -> cursor -> caps -> option (cursor * caps).

(** Repetition of [body], [count] iterations done: a greedy repetition
    first tries one more iteration and leaves the loop when that fails, a
    lazy one first tries to leave.  Every iteration has to consume
    input, so [fuel] (the remaining input and one) never runs out. *)
Fixpoint rep_loop (body : matcher) (lo : nat) (hi : option nat)
  (greedy : bool) (k : K) (fuel : nat) (count : nat) (c : cursor) (g : caps)
  {struct fuel} : option (cursor * caps) :=
  match fuel with
  | O => None
  | S fuel' =>
      let again (_ : unit) :=
        let room :=
          match hi with
          | Some h => (count <? h)%nat
          | None => true
          end in
        if room then
          body
            (fun c' g' =>
               if (pos c <? pos c')%nat
               then rep_loop body lo hi greedy k fuel' (S count) c' g'
               else None)
            c g
        else None in
      let leave (_ : unit) :=
        if (lo <=? count)%nat then k c g else None in
      if greedy then
        match again tt with
        | Some res => Some res
        | None => leave tt
        end
      else
        match leave tt with
        | Some res => Some res
        | None => again tt
        end
  end.

Fixpoint m (ic : bool) (r : regex) (k : K) (c : cursor) (g : caps)
  {struct r} : option (cursor * caps) :=
  match r with
  | Eps => k c g
  | Lit ch =>
      match step c with
      | Some (x, c') => if lit_match ic ch x then k c' g else None
      | None => None
      end
  | Cls neg its =>
      match step c with
      | Some (x, c') => if cls_match ic neg its x then k c' g else None
      | None => None
      end
  | Bow => if at_boundary c then k c g else None
  | Eos => if at_end c then k c g else None
  | Seq r1 r2 => m ic r1 (fun c' g' => m ic r2 k c' g') c g
  | Alt r1 r2 =>
      match m ic r1 k c g with
      | Some res => Some res
      | None => m ic r2 k c g
      end
  | Rep lo hi greedy r1 =>
      rep_loop (m ic r1) lo hi greedy k (S (List.length (after c))) O c g
  | Group n r1 =>
      m ic r1 (fun c' g' => k c' ((n, (pos c, pos c')) :: g')) c g
  | NotAhead r1 =>
      match m ic r1 accept c g with
      | Some _ => None
      | None => k c g
      end
  | NotBehind r1 =>
      match width r1 with
      | Some w =>
          match back w c with
          | Some c0 =>
              match m ic r1 accept c0 g with
              | Some _ => None
              | None => k c g
              end
          | None => k c g
          end
      | None => None
      end
  end.

(** ** Match objects, [re.search], [re.sub] and [re.findall] *)

Record rmatch : Type := mkmatch {
  m_subject : chars;
  m_start : nat;
  m_end : nat;
  m_caps : caps
}.

Definition slice (s : chars) (a b : nat) : string :=
  string_of_list_ascii (firstn (b - a) (skipn a s)).

Fixpoint span_of (n : nat) (g : caps) : option (nat * nat) :=
  match g with
  | (i, ab) :: g' => if Nat.eqb i n then Some ab else span_of n g'
  | [] => None
  end.

(** [m.group(n)]: [None] for a group that took no part in the match. *)
Definition group (mt : rmatch) (n : nat) : option string :=
  match n with
  | O => Some (slice (m_subject mt) (m_start mt) (m_end mt))
  | _ =>
      match span_of n (m_caps mt) with
      | Some (a, b) => Some (slice (m_subject mt) a b)
      | None => None
      end
  end.

(** The leftmost match at or after the cursor. *)
Fixpoint scan (ic : bool) (r : regex) (bef aft : chars) {struct aft}
  : option (nat * cursor * caps) :=
  match m ic r accept (mkcursor bef aft) [] with
  | Some (c, g) => Some (List.length bef, c, g)
  | None =>
      match aft with
      | x :: aft' => scan ic r (x :: bef) aft'
      | [] => None
      end
  end.

Definition search_re (ic : bool) (r : regex) (s : string) : option rmatch :=
  let subj := list_ascii_of_string s in
  match scan ic r [] subj with
  | Some (a, c, g) => Some (mkmatch subj a (pos c) g)
  | None => None
  end.

(** Successive non-overlapping matches, left to right; an empty match
    advances the scan by one character (no pattern the parser passes to
    [re.sub] or [re.findall] can match the empty string). *)
Fixpoint matches_from (fuel : nat) (ic : bool) (r : regex) (c : cursor)
  {struct fuel} : list (nat * nat) :=
  match fuel with
  | O => []
  | S fuel' =>
      match scan ic r (before c) (after c) with
      | None => []
      | Some (a, c', _) =>
          if (a <? pos c')%nat
          then (a, pos c') :: matches_from fuel' ic r c'
          else
            (a, a) ::
            match step c' with
            | Some (_, c1) => matches_from fuel' ic r c1
            | None => []
            end
      end
  end.

Definition spans (ic : bool) (r : regex) (subj : chars) : list (nat * nat) :=
  matches_from (S (List.length subj)) ic r (mkcursor [] subj).

(** The subject with the spans cut out; [at_] is the index of the first
    character of [s]. *)
Fixpoint cut (at_ : nat) (sp : list (nat * nat)) (s : chars) : chars :=
  match sp with
  | [] => s
  | (a, b) :: sp' =>
      firstn (a - at_) s ++ cut b sp' (skipn (b - at_) s)
  end.

(** [re.sub(pattern, "", s)] *)
Definition sub_empty_re (ic : bool) (r : regex) (s : string) : string :=
  let subj := list_ascii_of_string s in
  string_of_list_ascii (cut 0 (spans ic r subj) subj).

(** [re.findall(pattern, s)] for a pattern without groups. *)
Definition findall_re (ic : bool) (r : regex) (s : string) : list string :=
  let subj := list_ascii_of_string s in
  map (fun ab => slice subj (fst ab) (snd ab)) (spans ic r subj).

Definition search (p : string) (s : string) : option rmatch :=
  search_re false (compile p) s.

Definition search_i (p : string) (s : string) : option rmatch :=
  search_re true (compile p) s.

Definition sub_empty (p : string) (s : string) : string :=
  sub_empty_re false (compile p) s.

Definition sub_empty_i (p : string) (s : string) : string :=
  sub_empty_re true (compile p) s.

Definition findall (p : string) (s : string) : list string :=
  findall_re false (compile p) s.

End Re.

(* ------------------------------------------------------------------ *)
(** * Dates, as Python's [datetime] module has them *)
(* ------------------------------------------------------------------ *)

(** Exceptions the parser's library calls can raise. *)
Inductive exn : Type := ValueError | OverflowError.

Inductive result (A : Type) : Type :=
| Ok (a : A)
| Raise (e : exn).

Arguments Ok {A} a.
Arguments Raise {A} e.

Module Datetime.

Record date : Type := mkdate { year : Z; month : Z; day : Z }.

Record datetime : Type := mkdatetime {
  dt_year : Z; dt_month : Z; dt_day : Z;
  dt_hour : Z; dt_minute : Z; dt_second : Z; dt_microsecond : Z
}.

Definition MINYEAR : Z := 1.
Definition MAXYEAR : Z := 9999.
Definition _MAXORDINAL : Z := 3652059.

Definition _is_leap (y : Z) : bool :=
  (y mod 4 =? 0) && (negb (y mod 100 =? 0) || (y mod 400 =? 0)).

Definition _DAYS_IN_MONTH : list Z :=
  [-1; 31; 28; 31; 30; 31; 30; 31; 31; 30; 31; 30; 31].

Definition _DAYS_BEFORE_MONTH : list Z :=
  [-1; 0; 31; 59; 90; 120; 151; 181; 212; 243; 273; 304; 334].

Definition _days_before_year (y : Z) : Z :=
  let y := y - 1 in
  y * 365 + y / 4 - y / 100 + y / 400.

Definition _days_in_month (y m : Z) : Z :=
  if (m =? 2) && _is_leap y then 29
  else nth (Z.to_nat m) _DAYS_IN_MONTH 0.

Definition _days_before_month (y m : Z) : Z :=
  nth (Z.to_nat m) _DAYS_BEFORE_MONTH 0
  + (if (2 <? m) && _is_leap y then 1 else 0).

Definition _ymd2ord (y m d : Z) : Z :=
  _days_before_year y + _days_before_month y m + d.

Definition _DI400Y : Z := 146097.
Definition _DI100Y : Z := 36524.
Definition _DI4Y : Z := 1461.

Definition _ord2ymd (n : Z) : Z * Z * Z :=
  let n := n - 1 in
  let n400 := n / _DI400Y in
  let n := n mod _DI400Y in
  let y := n400 * 400 + 1 in
  let n100 := n / _DI100Y in
  let n := n mod _DI100Y in
  let n4 := n / _DI4Y in
  let n := n mod _DI4Y in
  let n1 := n / 365 in
  let n := n mod 365 in
  let y := y + n100 * 100 + n4 * 4 + n1 in
  if (n1 =? 4) || (n100 =? 4) then (y - 1, 12, 31)
  else
    let leapyear := (n1 =? 3) && (negb (n4 =? 24) || (n100 =? 3)) in
    let m := Z.shiftr (n + 50) 5 in
    let preceding :=
      nth (Z.to_nat m) _DAYS_BEFORE_MONTH 0
      + (if (2 <? m) && leapyear then 1 else 0) in
    if n <? preceding then
      let m := m - 1 in
      let preceding :=
        preceding
        - (nth (Z.to_nat m) _DAYS_IN_MONTH 0
           + (if (m =? 2) && leapyear then 1 else 0)) in
      (y, m, n - preceding + 1)
    else (y, m, n - preceding + 1).

(** The check every [date] goes through when it is built. *)
Definition valid_ymd (y m d : Z) : bool :=
  (MINYEAR <=? y) && (y <=? MAXYEAR)
  && (1 <=? m) && (m <=? 12)
  && (1 <=? d) && (d <=? _days_in_month y m).

Definition valid_date (d : date) : bool :=
  valid_ymd (year d) (month d) (day d).

(** [date(y, m, d)] *)
Definition new_date (y m d : Z) : result date :=
  if valid_ymd y m d then Ok (mkdate y m d) else Raise ValueError.

Definition toordinal (d : date) : Z := _ymd2ord (year d) (month d) (day d).

Definition fromordinal (n : Z) : date :=
  let '(y, m, d) := _ord2ymd n in mkdate y m d.

(** [d.weekday()]: Monday is 0. *)
Definition weekday (d : date) : Z := (toordinal d + 6) mod 7.

(** [d + timedelta(days=n)] *)
Definition add_days (d : date) (n : Z) : result date :=
  let o := toordinal d + n in
  if (0 <? o) && (o <=? _MAXORDINAL) then Ok (fromordinal o)
  else Raise OverflowError.

(** [d1 < d2]: the order of the triples (year, month, day). *)
Definition date_lt (d1 d2 : date) : bool :=
  (year d1 <? year d2)
  || ((year d1 =? year d2)
      && ((month d1 <? month d2)
          || ((month d1 =? month d2) && (day d1 <? day d2)))).

Definition date_le (d1 d2 : date) : bool := negb (date_lt d2 d1).

(** A [datetime] object is well formed when its fields passed the
    constructor's checks. *)
Definition valid_datetime (t : datetime) : bool :=
  valid_ymd (dt_year t) (dt_month t) (dt_day t)
  && (0 <=? dt_hour t) && (dt_hour t <=? 23)
  && (0 <=? dt_minute t) && (dt_minute t <=? 59)
  && (0 <=? dt_second t) && (dt_second t <=? 59)
  && (0 <=? dt_microsecond t) && (dt_microsecond t <=? 999999).

(** [t.date()] *)
Definition date_of (t : datetime) : date :=
  mkdate (dt_year t) (dt_month t) (dt_day t).

End Datetime.

(* ------------------------------------------------------------------ *)
(** * nlp_parser.py *)
(* ------------------------------------------------------------------ *)

Module NlpParser.
Import Datetime.

Local Open Scope string_scope.

Record ParsedRequest : Type := mkParsedRequest {
  restaurant_name : string;
  date : option Datetime.date;
  time_str : string;
  party_size : Z;
  raw : string
}.

Definition _WEEKDAY_MAP : list (string * Z) :=
  [ ("monday", 0); ("mon", 0);
    ("tuesday", 1); ("tue", 1); ("tues", 1);
    ("wednesday", 2); ("wed", 2);
    ("thursday", 3); ("thu", 3); ("thur", 3); ("thurs", 3);
    ("friday", 4); ("fri", 4);
    ("saturday", 5); ("sat", 5);
    ("sunday", 6); ("sun", 6) ].

Definition _MONTH_MAP : list (string * Z) :=
  [ ("january", 1); ("jan", 1);
    ("february", 2); ("feb", 2);
    ("march", 3); ("mar", 3);
    ("april", 4); ("apr", 4);
    ("may", 5);
    ("june", 6); ("jun", 6);
    ("july", 7); ("jul", 7);
    ("august", 8); ("aug", 8);
    ("september", 9); ("sep", 9); ("sept", 9);
    ("october", 10); ("oct", 10);
    ("november", 11); ("nov", 11);
    ("december", 12); ("dec", 12) ].

Definition _NOISE_WORDS : list string :=
  [ "book"; "reserve"; "make"; "a"; "table"; "reservation"; "for"; "at"; "in";
    "the"; "restaurant"; "tonight"; "today"; "tomorrow"; "next"; "people";
    "person"; "guests"; "guest"; "pax"; "dinner"; "lunch"; "breakfast";
    "brunch"; "seats"; "seat"; "please"; "me"; "us"; "want"; "need"; "get";
    "find"; "search"; "check"; "monday"; "tuesday"; "wednesday"; "thursday";
    "friday"; "saturday"; "sunday"; "mon"; "tue"; "wed"; "thu"; "fri"; "sat";
    "sun"; "am"; "pm" ].

(** [w in _NOISE_WORDS] *)
Definition in_noise (w : string) : bool :=
  existsb (String.eqb w) _NOISE_WORDS.

(** The text of group [n]; empty for a group that took no part in the
    match, which the parser reads only as [m.group(3) or ""]. *)
Definition group_str (mt : Re.rmatch) (n : nat) : string :=
  match Re.group mt n with
  | Some s => s
  | None => ""
  end.

Definition found (o : option Re.rmatch) : bool :=
  match o with
  | Some _ => true
  | None => false
  end.

(** [(now or datetime.now()).date()]; [clock] is what [datetime.now()]
    would read. *)
Definition _today (clock : datetime) (now : option datetime) : Datetime.date :=
  date_of (match now with Some t => t | None => clock end).

(** ** _parse_date *)

(** The loop over [_WEEKDAY_MAP]: [None] when it ends without returning. *)
Fixpoint weekday_rule (today : Datetime.date) (lower : string)
  (entries : list (string * Z)) : option (result Datetime.date) :=
  match entries with
  | [] => None
  | (name, weekday_num) :: rest =>
      if found (Re.search ("\b" ++ name ++ "\b") lower) then
        let days_ahead := (weekday_num - weekday today) mod 7 in
        let days_ahead :=
          if found (Re.search ("\bnext\s+" ++ name ++ "\b") lower) then
            if (days_ahead =? 0)%Z then 7
            else if (days_ahead <? 7)%Z then days_ahead
            else days_ahead
          else
            if (days_ahead =? 0)%Z then 7
            else days_ahead in
        Some (add_days today days_ahead)
      else weekday_rule today lower rest
  end.

(** [d = date(y, m, day); if d < today: d = date(y + 1, m, day)] *)
Definition this_or_next_year (today : Datetime.date) (y m d : Z)
  : result Datetime.date :=
  match new_date y m d with
  | Ok d0 => if date_lt d0 today then new_date (y + 1) m d else Ok d0
  | Raise e => Raise e
  end.

(** The loop over [_MONTH_MAP]; a [ValueError] moves on to the next
    entry. *)
Fixpoint month_rule (today : Datetime.date) (lower : string)
  (entries : list (string * Z)) : result (option Datetime.date) :=
  match entries with
  | [] => Ok None
  | (month_name, month_num) :: rest =>
      let mo :=
        match Re.search ("\b" ++ month_name ++ "\s+(\d{1,2})\b") lower with
        | Some mt => Some mt
        | None => Re.search ("\b(\d{1,2})\s+" ++ month_name ++ "\b") lower
        end in
      match mo with
      | Some mt =>
          let day := PyStr.int (group_str mt 1) in
          let year := year today in
          match this_or_next_year today year month_num day with
          | Ok d => Ok (Some d)
          | Raise ValueError => month_rule today lower rest
          | Raise e => Raise e
          end
      | None => month_rule today lower rest
      end
  end.

(** The ISO form, read literally; [Ok None] when there is none or it is
    not a calendar date. *)
Definition iso_rule (text : string) : result (option Datetime.date) :=
  match Re.search "\b(\d{4})-(\d{2})-(\d{2})\b" text with
  | Some mt =>
      match new_date (PyStr.int (group_str mt 1))
                     (PyStr.int (group_str mt 2))
                     (PyStr.int (group_str mt 3)) with
      | Ok d => Ok (Some d)
      | Raise ValueError => Ok None
      | Raise e => Raise e
      end
  | None => Ok None
  end.

(** The loop over the two readings [(month, day)] of a numeric pair. *)
Fixpoint slash_guess (today : Datetime.date) (guesses : list (Z * Z))
  : result (option Datetime.date) :=
  match guesses with
  | [] => Ok None
  | (month, day) :: rest =>
      if ((1 <=? month) && (month <=? 12)
          && (1 <=? day) && (day <=? 31))%Z then
        match this_or_next_year today (year today) month day with
        | Ok d => Ok (Some d)
        | Raise ValueError => slash_guess today rest
        | Raise e => Raise e
        end
      else slash_guess today rest
  end.

Definition slash_rule (today : Datetime.date) (text : string)
  : result (option Datetime.date) :=
  match Re.search "\b(\d{1,2})[/\-](\d{1,2})\b" text with
  | Some mt =>
      let a := PyStr.int (group_str mt 1) in
      let b := PyStr.int (group_str mt 2) in
      slash_guess today [(b, a); (a, b)]
  | None => Ok None
  end.

Definition _parse_date (clock : datetime) (text : string)
  (now : option datetime) : result (option Datetime.date) :=
  let today := _today clock now in
  let lower := PyStr.lower text in
  if found (Re.search "\btonight\b|\btoday\b" lower) then Ok (Some today)
  else if found (Re.search "\btomorrow\b" lower) then
    match add_days today 1 with
    | Ok d => Ok (Some d)
    | Raise e => Raise e
    end
  else
    match weekday_rule today lower _WEEKDAY_MAP with
    | Some (Ok d) => Ok (Some d)
    | Some (Raise e) => Raise e
    | None =>
        match month_rule today lower _MONTH_MAP with
        | Ok (Some d) => Ok (Some d)
        | Raise e => Raise e
        | Ok None =>
            match iso_rule text with
            | Ok (Some d) => Ok (Some d)
            | Raise e => Raise e
            | Ok None => slash_rule today text
            end
        end
    end.

(** ** _parse_time *)

(** [pm] adds twelve hours except at 12; [am] turns 12 into 0. *)
Definition to_24h (hour : Z) (meridiem : string) : Z :=
  if (meridiem =? "pm") && negb (hour =? 12)%Z then hour + 12
  else if (meridiem =? "am") && (hour =? 12)%Z then 0
  else hour.

Definition colon_time (lower : string) : option string :=
  match Re.search_i "\b(\d{1,2}):(\d{2})(?::\d{2})?\s*(am|pm)?\b" lower with
  | Some mt =>
      let hour := PyStr.int (group_str mt 1) in
      let minute := PyStr.int (group_str mt 2) in
      let meridiem := PyStr.lower (group_str mt 3) in
      let hour := to_24h hour meridiem in
      if ((0 <=? hour) && (hour <=? 23) && (0 <=? minute) && (minute <=? 59))%Z
      then Some (PyStr.fmt02 hour ++ ":" ++ PyStr.fmt02 minute)
      else None
  | None => None
  end.

Definition bare_hour_time (lower : string) : option string :=
  match Re.search_i "\b(\d{1,2})\s*(am|pm)\b" lower with
  | Some mt =>
      let hour := PyStr.int (group_str mt 1) in
      let meridiem := PyStr.lower (group_str mt 2) in
      let hour := to_24h hour meridiem in
      if ((0 <=? hour) && (hour <=? 23))%Z
      then Some (PyStr.fmt02 hour ++ ":00")
      else None
  | None => None
  end.

Definition _parse_time (text : string) : string :=
  let cleaned := Re.sub_empty "\b\d{4}-\d{2}-\d{2}\b" text in
  let cleaned := Re.sub_empty "\b\d{1,2}[/\-]\d{1,2}\b" cleaned in
  let lower := PyStr.lower cleaned in
  match colon_time lower with
  | Some t => t
  | None =>
      match bare_hour_time lower with
      | Some t => t
      | None => ""
      end
  end.

(** ** _parse_party_size *)

Definition party_patterns : list string :=
  [ "for\s+(\d+)\s*(?:people|person|guests?|pax|seats?)?";
    "(\d+)\s+(?:people|persons?|guests?|pax|seats?|diners?)";
    "party\s+of\s+(\d+)";
    "table\s+for\s+(\d+)" ].

(** The loop over the patterns: the first whose leftmost match carries a
    number from 1 to 20.  [int(m.group(1))] is not guarded: the
    [ValueError] it raises on a numeral too long for [int] leaves the
    loop. *)
Fixpoint party_loop (lower : string) (pats : list string)
  : result (option Z) :=
  match pats with
  | [] => Ok None
  | pat :: rest =>
      match Re.search pat lower with
      | Some mt =>
          match PyStrMore.int_literal (group_str mt 1) with
          | Some n =>
              if ((1 <=? n) && (n <=? 20))%Z then Ok (Some n)
              else party_loop lower rest
          | None => Raise ValueError
          end
      | None => party_loop lower rest
      end
  end.

Definition lone_digit (lower : string) : option Z :=
  let stripped :=
    Re.sub_empty_i "\b\d{1,2}(?::\d{2})?\s*(?:am|pm)\b" lower in
  match Re.search "(?<![:\d])(\b[2-9]\b)(?![\d:])" stripped with
  | Some mt => Some (PyStr.int (group_str mt 1))
  | None => None
  end.

Definition _parse_party_size (text : string) : result Z :=
  let lower := PyStr.lower text in
  match party_loop lower party_patterns with
  | Raise e => Raise e
  | Ok (Some n) => Ok n
  | Ok None =>
      match lone_digit lower with
      | Some n => Ok n
      | None => Ok 2
      end
  end.

(** ** _clean_restaurant_name and _parse_restaurant_name *)

(** [while parts and parts[-1].lower() in _NOISE_WORDS: parts.pop()],
    on the list of parts read from its end. *)
Fixpoint pop_noise (rev_parts : list string) : list string :=
  match rev_parts with
  | w :: rest => if in_noise (PyStr.lower w) then pop_noise rest else rev_parts
  | [] => []
  end.

Definition _clean_restaurant_name (name : string) : string :=
  let parts := PyStr.split name in
  let parts := rev (pop_noise (rev parts)) in
  PyStr.join " " parts.

Definition at_pattern : string :=
  "\bat\s+([A-Za-z][A-Za-z '\-]+?)(?:\s*$|[,.\!?]|\s+(?:on|this|next|tonight|tomorrow|\d))".

Definition in_pattern : string :=
  "\bin\s+([A-Za-z][A-Za-z '\-]+?)(?:\s*$|[,.\!?])".

(** The name captured after "at", unless it is a noise word. *)
Definition at_name (text : string) : option string :=
  match Re.search_i at_pattern text with
  | Some mt =>
      let name := PyStr.strip (group_str mt 1) in
      if negb (in_noise (PyStr.lower name)) then Some name else None
  | None => None
  end.

(** The words captured after "in" that are not noise, if any is left. *)
Definition in_words (text : string) : option (list string) :=
  match Re.search_i in_pattern text with
  | Some mt =>
      let name := PyStr.strip (group_str mt 1) in
      let words :=
        filter (fun w => negb (in_noise (PyStr.lower w))) (PyStr.split name) in
      match words with
      | [] => None
      | _ => Some words
      end
  | None => None
  end.

(** The capitalised words of the text that are not noise. *)
Definition capitalised_words (text : string) : list string :=
  filter (fun word => PyStr.first_isupper word
                      && negb (in_noise (PyStr.lower word)))
         (Re.findall "[A-Za-z''\-]+" text).

Definition _parse_restaurant_name (text : string) : string :=
  match at_name text with
  | Some name => _clean_restaurant_name name
  | None =>
      match in_words text with
      | Some words => _clean_restaurant_name (PyStr.join " " words)
      | None =>
          match capitalised_words text with
          | [] => ""
          | words => PyStr.join " " words
          end
      end
  end.

(** ** parse_reservation_request *)

Definition parse_reservation_request (clock : datetime) (text : string)
  (now : option datetime) : result ParsedRequest :=
  match _parse_date clock text now with
  | Raise e => Raise e
  | Ok d =>
      let t := _parse_time text in
      match _parse_party_size text with
      | Raise e => Raise e
      | Ok n =>
          let name := _parse_restaurant_name text in
          let t := if (t =? "") then "20:00" else t in
          Ok (mkParsedRequest name d t n text)
      end
  end.

End NlpParser.

(* ------------------------------------------------------------------ *)
(** * Vocabulary of the properties *)
(* ------------------------------------------------------------------ *)

Module Props.
Import Datetime NlpParser.

Local Open Scope string_scope.

(** The reference instant of the test suite: Wednesday 2025-03-05, noon. *)
Definition NOW : datetime := mkdatetime 2025 3 5 12 0 0 0.

(** The last instant [datetime] can hold. *)
Definition LAST : datetime := mkdatetime 9999 12 31 23 59 59 999999.

(** Neither "tonight"/"today" nor "tomorrow" occurs as a word. *)
Definition no_relative_keyword (lower : string) : Prop :=
  found (Re.search "\btonight\b|\btoday\b" lower) = false
  /\ found (Re.search "\btomorrow\b" lower) = false.

(** The entry's name occurs as a word of the text. *)
Definition weekday_hit (lower : string) (e : string * Z) : bool :=
  found (Re.search ("\b" ++ fst e ++ "\b") lower).

(** The first entry of [_WEEKDAY_MAP], in the dictionary's order, whose
    name occurs in the text. *)
Definition first_weekday (lower : string) : option (string * Z) :=
  find (weekday_hit lower) _WEEKDAY_MAP.

(** Days from the reference weekday to the target weekday, a full week
    when they coincide. *)
Definition days_ahead_of (target ref : Z) : Z :=
  let d := (target - ref) mod 7 in
  if (d =? 0)%Z then 7 else d.

Definition some_date (r : result Datetime.date)
  : result (option Datetime.date) :=
  match r with
  | Ok d => Ok (Some d)
  | Raise e => Raise e
  end.

(** What the time extractor searches: the text without its ISO dates and
    numeric pairs, lower-cased. *)
Definition time_text (text : string) : string :=
  PyStr.lower
    (Re.sub_empty "\b\d{1,2}[/\-]\d{1,2}\b"
       (Re.sub_empty "\b\d{4}-\d{2}-\d{2}\b" text)).

(** What a structured party-size rule does on its own: the number in
    its leftmost match, when it lies between 1 and 20; nothing when the
    rule does not match or the number is out of range; [ValueError] when
    the numeral is too long for [int]. *)
Definition rule_value (lower : string) (pat : string) : result (option Z) :=
  match Re.search pat lower with
  | Some mt =>
      match PyStrMore.int_literal (group_str mt 1) with
      | Some n => if ((1 <=? n) && (n <=? 20))%Z then Ok (Some n) else Ok None
      | None => Raise ValueError
      end
  | None => Ok None
  end.

Definition no_value (lower : string) (pat : string) : bool :=
  match rule_value lower pat with
  | Ok None => true
  | _ => false
  end.

(** The number of decimal digits in a text. *)
Definition digits_in (text : string) : Z :=
  Z.of_nat (List.length (filter PyStr.is_digit (list_ascii_of_string text))).

(** A side of a lone digit: the end of the text, or a character that is
    neither a word character nor a colon. *)
Definition free_side (o : option ascii) : bool :=
  match o with
  | None => true
  | Some x => negb (PyStr.is_word x) && negb (Ascii.eqb x ":")
  end.

(** The first digit from 2 to 9 that stands alone in [s], read from the
    left: free on both sides.  [prev] is the character before [s]. *)
Fixpoint first_lone_digit (prev : option ascii) (s : PyStr.chars)
  : option Z :=
  match s with
  | [] => None
  | c :: rest =>
      if PyStr.between 50 57 c && free_side prev && free_side (hd_error rest)
      then Some (PyStr.code c - 48)%Z
      else first_lone_digit (Some c) rest
  end.

(** The 256 characters. *)
Definition all_ascii : list ascii := map ascii_of_nat (seq 0 256).

(** The part of the subject from [a] to [b] is a non-empty run of
    characters with the property. *)
Definition run (P : ascii -> bool) (subj : PyStr.chars) (a b : nat) : Prop :=
  exists pre xs post,
    subj = (pre ++ xs ++ post)%list
    /\ List.length pre = a /\ List.length (pre ++ xs)%list = b
    /\ xs <> [] /\ forallb P xs = true.

Definition runs (P : ascii -> bool) (subj : PyStr.chars) (g : Re.caps)
  : Prop :=
  forall n a b, In (n, (a, b)) g -> run P subj a b.

(** Every group of the pattern is a class of characters with the
    property, repeated at least once. *)
Fixpoint captures_runs (P : ascii -> bool) (ic : bool) (r : Re.regex)
  : bool :=
  match r with
  | Re.Group _ (Re.Rep lo _ _ (Re.Cls neg its)) =>
      (1 <=? lo)%nat
      && forallb (fun x => implb (Re.cls_match ic neg its x) (P x)) all_ascii
  | Re.Group _ _ => false
  | Re.Seq a b | Re.Alt a b => captures_runs P ic a && captures_runs P ic b
  | Re.Rep _ _ _ a => captures_runs P ic a
  | _ => true
  end.

(** Every match of the pattern goes through group [n]. *)
Fixpoint binds (n : nat) (r : Re.regex) : bool :=
  match r with
  | Re.Group i a => Nat.eqb i n || binds n a
  | Re.Seq a b => binds n a || binds n b
  | Re.Alt a b => binds n a && binds n b
  | Re.Rep lo _ _ a => (1 <=? lo)%nat && binds n a
  | _ => false
  end.

(** The subject a cursor walks. *)
Definition subject (c : Re.cursor) : PyStr.chars :=
  (rev (Re.before c) ++ Re.after c)%list.

(** A matcher that calls its continuation in the same subject and keeps
    the groups it was given; when [ok] holds, its captures are runs if
    those it was given are. *)
Definition tidy (P : ascii -> bool) (ok : bool) (f : Re.matcher) : Prop :=
  forall k c g res,
    f k c g = Some res ->
    exists c' g',
      k c' g' = Some res
      /\ subject c' = subject c
      /\ (ok = true -> runs P (subject c) g -> runs P (subject c) g')
      /\ (forall n, Re.span_of n g <> None -> Re.span_of n g' <> None).

(** A matcher every match of which records group [n]. *)
Definition records (n : nat) (f : Re.matcher) : Prop :=
  forall k c g res,
    f k c g = Some res ->
    exists c' g', k c' g' = Some res /\ Re.span_of n g' <> None.

(** A text too long for [int]: 4301 digits after "for ". *)
Definition long_numeral : string :=
  string_of_list_ascii (repeat "1"%char 4301).

Definition is_noise_word (w : string) : bool := in_noise (PyStr.lower w).

Definition last_word (ws : list string) : option string := hd_error (rev ws).

(** One turn of a 400-year cycle, checked day by day: day [r] of the
    cycle falls on a well-formed date of the years 1..400 whose ordinal
    is [r + 1]. *)
Definition cycle_ok (r : Z) : bool :=
  let '(y, m, d) := _ord2ymd (r + 1) in
  ((1 <=? y) && (y <=? 400) && (1 <=? m) && (m <=? 12)
   && (1 <=? d) && (d <=? _days_in_month y m)
   && (_ymd2ord y m d =? r + 1))%Z.

Fixpoint all_from (fuel : nat) (z : Z) (p : Z -> bool) : bool :=
  match fuel with
  | O => true
  | S k => p z && all_from k (z + 1) p
  end.

(** No capturing group occurs in the pattern (outside look-arounds, whose
    captures are dropped). *)
Fixpoint no_group (r : Re.regex) : bool :=
  match r with
  | Re.Group _ _ => false
  | Re.Seq a b | Re.Alt a b => no_group a && no_group b
  | Re.Rep _ _ _ a => no_group a
  | _ => true
  end.

(** The first character of a name after "at": a letter A..Z or a..z. *)
Definition is_name_start (x : ascii) : bool :=
  PyStr.is_ascii_upper x || PyStr.is_ascii_lower x.

(** The further characters: letters, the space, the apostrophe and the
    hyphen. *)
Definition is_name_char (x : ascii) : bool :=
  is_name_start x || (PyStr.code x =? 32)%Z || (PyStr.code x =? 39)%Z
  || (PyStr.code x =? 45)%Z.

(** A matcher that hands the captures it was given on to its
    continuation. *)
Definition keeps (f : Re.matcher) : Prop :=
  forall k c g res, f k c g = Some res -> exists c', k c' g = Some res.

(** The length of the subject a cursor walks. *)
Definition total (c : Re.cursor) : nat :=
  (List.length (Re.before c) + List.length (Re.after c))%nat.

(** Two continuations that agree on the cursors of one subject with at
    most [n] characters left. *)
Definition agree (N n : nat) (k1 k2 : Re.K) : Prop :=
  forall c g, total c = N -> (List.length (Re.after c) <= n)%nat ->
              k1 c g = k2 c g.

(** A matcher that only calls its continuation further on in the same
    subject. *)
Definition local (f : Re.matcher) : Prop :=
  forall k1 k2 c g,
    agree (total c) (List.length (Re.after c)) k1 k2 -> f k1 c g = f k2 c g.

(** A matcher that calls its continuation in the same subject, not before
    the position it started at. *)
Definition advances (f : Re.matcher) : Prop :=
  forall k c g res,
    f k c g = Some res ->
    exists c' g',
      k c' g' = Some res /\ total c' = total c
      /\ (List.length (Re.after c') <= List.length (Re.after c))%nat.

(** Every pattern string the parser hands to [re]. *)
Definition program_patterns : list string :=
  [ "\btonight\b|\btoday\b"; "\btomorrow\b";
    "\b(\d{4})-(\d{2})-(\d{2})\b"; "\b(\d{1,2})[/\-](\d{1,2})\b";
    "\b\d{4}-\d{2}-\d{2}\b"; "\b\d{1,2}[/\-]\d{1,2}\b";
    "\b(\d{1,2}):(\d{2})(?::\d{2})?\s*(am|pm)?\b";
    "\b(\d{1,2})\s*(am|pm)\b";
    "\b\d{1,2}(?::\d{2})?\s*(?:am|pm)\b";
    "(?<![:\d])(\b[2-9]\b)(?![\d:])";
    at_pattern; in_pattern; "[A-Za-z''\-]+" ]
  ++ party_patterns
  ++ flat_map (fun e => ["\b" ++ fst e ++ "\b"; "\bnext\s+" ++ fst e ++ "\b"])
       _WEEKDAY_MAP
  ++ flat_map (fun e => ["\b" ++ fst e ++ "\s+(\d{1,2})\b";
                         "\b(\d{1,2})\s+" ++ fst e ++ "\b"])
       _MONTH_MAP.

Definition compiles (p : string) : bool :=
  match Re.parse p with
  | Some _ => true
  | None => false
  end.

End Props.

(* ------------------------------------------------------------------ *)
(** * nlp_parser.py: the methods of [ParsedRequest] *)
(* ------------------------------------------------------------------ *)

Module ParsedRequestMethods.
Import Datetime NlpParser PyStrMore.

Local Open Scope string_scope.

(** [%A] and [%B] in the C locale. *)
Definition day_names : list string :=
  [ "Monday"; "Tuesday"; "Wednesday"; "Thursday"; "Friday"; "Saturday";
    "Sunday" ].

Definition month_names : list string :=
  [ "January"; "February"; "March"; "April"; "May"; "June"; "July";
    "August"; "September"; "October"; "November"; "December" ].

(** [d.strftime("%Y%m%d")].  [%Y] is the year as the C library prints
    it: glibc does not pad it, so years below 1000 give fewer than four
    digits; from 1000 on every platform agrees. *)
Definition strftime_Ymd (d : Datetime.date) : string :=
  PyStr.dec (year d) ++ PyStr.fmt02 (month d) ++ PyStr.fmt02 (day d).

(** [d.strftime("%A, %B %-d")]: the names in the C locale, and the day
    without padding, as the C libraries that know [%-d] print it. *)
Definition strftime_A_B_d (d : Datetime.date) : string :=
  nth (Z.to_nat (weekday d)) day_names ""
  ++ ", " ++ nth (Z.to_nat (month d - 1)) month_names ""
  ++ " " ++ PyStr.dec (day d).

Definition date_yyyymmdd (self : ParsedRequest) : string :=
  match date self with
  | None => ""
  | Some d => strftime_Ymd d
  end.

Definition time_hhmm (self : ParsedRequest) : string :=
  remove_char ":" (time_str self).

Definition display_date (self : ParsedRequest) : string :=
  match date self with
  | None => ""
  | Some d => strftime_A_B_d d
  end.

End ParsedRequestMethods.

(* ------------------------------------------------------------------ *)
(** * ontopo_client.py: [BookingResult] and [pick_best_slot] *)
(* ------------------------------------------------------------------ *)

Module OntopoClient.
Import PyStrMore.

Local Open Scope string_scope.

(** The values a slot can hold, as they come out of JSON. *)
Inductive value : Type :=
| VStr (s : string)
| VInt (n : Z)
| VBool (b : bool)
| VNone
| VOther.

(** A slot is a [dict]; the association list is read from the front. *)
Definition slot : Type := list (string * value).

(** [d.get(key, default)] *)
Fixpoint dict_get (d : slot) (key : string) (default : value) : value :=
  match d with
  | (k, v) :: d' => if String.eqb k key then v else dict_get d' key default
  | [] => default
  end.

Record BookingResult : Type := mkBookingResult {
  success : bool;
  restaurant_name : string;
  restaurant_address : string;
  date : string;
  display_date : string;
  time : string;
  party_size : Z;
  checkout_url : string;
  area : string;
  available_slots : list slot;
  waiting_list : bool;
  phone_needed : bool;
  phone_number : string;
  calendar_url : string;
  error : string
}.

(** An exception [pick_best_slot] lets through: [replace] asked of a value
    that is not a string. *)
Inductive client_exn : Type := AttributeError.

Inductive answer (A : Type) : Type :=
| Returns (a : A)
| Raises (e : client_exn).

Arguments Returns {A} a.
Arguments Raises {A} e.

(** [int(t[:2]) * 60 + int(t[2:])]; [None] stands for [ValueError]. *)
Definition minutes_of (t : string) : option Z :=
  match int_literal (slice_to 2 t) with
  | Some h =>
      match int_literal (slice_from 2 t) with
      | Some m => Some (h * 60 + m)%Z
      | None => None
      end
  | None => None
  end.

(** The local function [time_distance] of [pick_best_slot]. *)
Definition time_distance (preferred_time : string) (s : slot) : answer Z :=
  match dict_get s "time" (VStr "0000") with
  | VStr t0 =>
      let t := remove_char ":" t0 in
      match minutes_of t with
      | Some slot_mins =>
          match minutes_of preferred_time with
          | Some pref_mins => Returns (Z.abs (slot_mins - pref_mins))
          | None => Returns 9999%Z
          end
      | None => Returns 9999%Z
      end
  | _ => Raises AttributeError
  end.

(** [min(slots, key=key)] after its first element: [best] is replaced
    only by an element with a strictly smaller key. *)
Fixpoint min_from (key : slot -> answer Z) (best : slot) (best_key : Z)
  (rest : list slot) : answer slot :=
  match rest with
  | [] => Returns best
  | s :: rest' =>
      match key s with
      | Returns k =>
          if (k <? best_key)%Z then min_from key s k rest'
          else min_from key best best_key rest'
      | Raises e => Raises e
      end
  end.

Definition pick_best_slot (slots : list slot) (preferred_time : string)
  : answer (option slot) :=
  match slots with
  | [] => Returns None
  | [s] => Returns (Some s)
  | s :: rest =>
      match time_distance preferred_time s with
      | Returns k =>
          match min_from (time_distance preferred_time) s k rest with
          | Returns best => Returns (Some best)
          | Raises e => Raises e
          end
      | Raises e => Raises e
      end
  end.

End OntopoClient.

(* ------------------------------------------------------------------ *)
(** * bookaboo.py: what [reserve] does with the parsed request *)
(* ------------------------------------------------------------------ *)

Module Bookaboo.
Import Datetime PyStrMore OntopoClient.

Local Open Scope string_scope.

(** [BookingResult(success=..., ...)] with the other fields at their
    defaults. *)
Definition failure (name err : string) : BookingResult :=
  mkBookingResult false name "" "" "" "" 2 "" "" [] false false "" "" err.

(** The local variables [reserve] goes on with once the request is
    parsed. *)
Record parsed_locals : Type := mkparsed_locals {
  l_restaurant_name : string;
  l_date_yyyymmdd : string;
  l_time_hhmm_colon : string;
  l_time_hhmm_no_colon : string;
  l_party_size : Z;
  l_display_date : string
}.

(** [reserve], from the parsed request to the point where it opens the
    client: the result it returns at once ([inl]), or the values it
    carries on ([inr]).  An exception of the parser passes through. *)
Definition reserve_parse_step (clock : datetime) (text : string)
  (now : option datetime) : result (BookingResult + parsed_locals) :=
  match NlpParser.parse_reservation_request clock text now with
  | Raise e => Raise e
  | Ok req =>
      if (NlpParser.restaurant_name req =? "") then
        Ok (inl (failure ""
                   "Could not determine restaurant name from request."))
      else
        match NlpParser.date req with
        | None =>
            Ok (inl (failure (NlpParser.restaurant_name req)
                       "Could not determine date from request."))
        | Some _ =>
            Ok (inr (mkparsed_locals
                       (NlpParser.restaurant_name req)
                       (ParsedRequestMethods.date_yyyymmdd req)
                       (NlpParser.time_str req)
                       (ParsedRequestMethods.time_hhmm req)
                       (NlpParser.party_size req)
                       (ParsedRequestMethods.display_date req)))
        end
  end.

(** [slot_time if ":" in slot_time else f"{slot_time[:2]}:{slot_time[2:]}"] *)
Definition slot_time_display (slot_time : string) : string :=
  if contains_char ":" slot_time then slot_time
  else slice_to 2 slot_time ++ ":" ++ slice_from 2 slot_time.

End Bookaboo.

(* ------------------------------------------------------------------ *)
(** * Vocabulary of the further properties *)
(* ------------------------------------------------------------------ *)

Module MoreProps.
Import Datetime NlpParser PyStrMore ParsedRequestMethods OntopoClient Bookaboo.

Local Open Scope string_scope.

(** ["HH:MM"] *)
Definition hhmm (h m : Z) : string :=
  PyStr.fmt02 h ++ ":" ++ PyStr.fmt02 m.

(** ["HHMM"] *)
Definition hhmm_compact (h m : Z) : string :=
  PyStr.fmt02 h ++ PyStr.fmt02 m.

Definition all_digits (s : string) : bool :=
  forallb PyStr.is_digit (list_ascii_of_string s).

(** What holds of one time of day [h:m], checked by evaluation: the
    compact form is the colon form without its colon and has none, four
    digits that
    read back as [h] and [m], and [slot_time_display] restores the colon
    form from either. *)
Definition hhmm_ok (h m : Z) : bool :=
  String.eqb (remove_char ":" (hhmm h m)) (hhmm_compact h m)
  && String.eqb (remove_char ":" (hhmm_compact h m)) (hhmm_compact h m)
  && Nat.eqb (String.length (hhmm_compact h m)) 4
  && all_digits (hhmm_compact h m)
  && String.eqb (slot_time_display (hhmm_compact h m)) (hhmm h m)
  && String.eqb (slot_time_display (hhmm h m)) (hhmm h m)
  && match minutes_of (hhmm_compact h m) with
     | Some v => (v =? h * 60 + m)%Z
     | None => false
     end.

Definition hour_ok (h : Z) : bool :=
  Props.all_from 60 0%Z (hhmm_ok h).

(** What holds of a year from 1000 on and of a month or day number:
    four (two) digits that read back as the number. *)
Definition year_ok (y : Z) : bool :=
  Nat.eqb (String.length (PyStr.dec y)) 4
  && all_digits (PyStr.dec y)
  && match int_literal (PyStr.dec y) with
     | Some v => (v =? y)%Z
     | None => false
     end.

Definition two_digits_ok (n : Z) : bool :=
  Nat.eqb (String.length (PyStr.fmt02 n)) 2
  && all_digits (PyStr.fmt02 n)
  && match int_literal (PyStr.fmt02 n) with
     | Some v => (v =? n)%Z
     | None => false
     end.

(** The number of days the relative rule that applies to a text adds to
    the reference date: none for "tonight"/"today" (the reference date
    itself) and for a text with no relative expression, 1 for "tomorrow",
    [days_ahead_of] for a weekday name. *)
Definition days_requested (today : Datetime.date) (lower : string)
  : option Z :=
  if found (Re.search "\btonight\b|\btoday\b" lower) then None
  else if found (Re.search "\btomorrow\b" lower) then Some 1%Z
  else
    match Props.first_weekday lower with
    | Some e => Some (Props.days_ahead_of (snd e) (weekday today))
    | None => None
    end.

Definition weekday_number_ok (e : string * Z) : bool :=
  ((0 <=? snd e) && (snd e <=? 6))%Z.

(** The match the month loop works with for one entry: "<month> <day>"
    if it occurs, else "<day> <month>". *)
Definition month_match (lower name : string) : option Re.rmatch :=
  match Re.search ("\b" ++ name ++ "\s+(\d{1,2})\b") lower with
  | Some mt => Some mt
  | None => Re.search ("\b(\d{1,2})\s+" ++ name ++ "\b") lower
  end.

(** A reading (month, day) of a numeric pair that the pair rule accepts:
    both numbers in range and a date of the reference year or, when that
    one is past, of the next year. *)
Definition reading_accepted (today : Datetime.date) (mo da : Z) : bool :=
  ((1 <=? mo) && (mo <=? 12) && (1 <=? da) && (da <=? 31))%Z
  && match this_or_next_year today (year today) mo da with
     | Ok _ => true
     | Raise _ => false
     end.

(** A sufficient condition, read off the pattern, for every match to
    consume a character with the property [P]. *)
Fixpoint requires (P : ascii -> bool) (ic : bool) (r : Re.regex) : bool :=
  match r with
  | Re.Lit ch => forallb (fun x => implb (Re.lit_match ic ch x) (P x)) Props.all_ascii
  | Re.Cls neg its =>
      forallb (fun x => implb (Re.cls_match ic neg its x) (P x)) Props.all_ascii
  | Re.Seq r1 r2 => requires P ic r1 || requires P ic r2
  | Re.Alt r1 r2 => requires P ic r1 && requires P ic r2
  | Re.Rep lo _ _ r1 => (1 <=? lo)%nat && requires P ic r1
  | Re.Group _ r1 => requires P ic r1
  | _ => false
  end.

(** A matcher that calls its continuation on a suffix of the input it
    was given. *)
Definition forwards (f : Re.matcher) : Prop :=
  forall k c g res,
    f k c g = Some res ->
    exists c' g' pre,
      k c' g' = Some res /\ Re.after c = (pre ++ Re.after c')%list.

(** A matcher every match of which consumes a character with the
    property [P]. *)
Definition consumes (P : ascii -> bool) (f : Re.matcher) : Prop :=
  forall k c g res,
    f k c g = Some res ->
    exists x, In x (Re.after c) /\ P x = true.

Definition is_colon (x : ascii) : bool := Ascii.eqb x ":".

Definition is_letter_m (x : ascii) : bool :=
  Ascii.eqb x "m" || Ascii.eqb x "M".

(** The characters of a word of a name: letters, the apostrophe and
    the hyphen. *)
Definition is_name_letter (x : ascii) : bool :=
  Props.is_name_start x || (PyStr.code x =? 39)%Z || (PyStr.code x =? 45)%Z.

(** A non-empty word whose characters all have the property. *)
Definition word_of (P : ascii -> bool) (w : string) : bool :=
  negb (w =? "") && forallb P (list_ascii_of_string w).

Definition name_word (w : string) : bool := word_of is_name_letter w.

(** [%A] of a date that falls on weekday number [target]. *)
Definition full_day_name (target : Z) : string :=
  nth (Z.to_nat target) day_names "".

(** The name of an entry of [_WEEKDAY_MAP] begins the full name of its
    weekday. *)
Definition abbreviates (e : string * Z) : bool :=
  String.prefix (fst e) (PyStr.lower (full_day_name (snd e))).

(** No character of the text has the property. *)
Definition free_of (P : ascii -> bool) (text : string) : bool :=
  forallb (fun c => negb (P c)) (list_ascii_of_string text).

(** Both patterns of a month entry need a digit. *)
Definition month_needs_digit (e : string * Z) : bool :=
  requires PyStr.is_digit false
    (Re.compile ("\b" ++ fst e ++ "\s+(\d{1,2})\b"))
  && requires PyStr.is_digit false
       (Re.compile ("\b(\d{1,2})\s+" ++ fst e ++ "\b")).

Definition party_needs_digit (p : string) : bool :=
  requires PyStr.is_digit false (Re.compile p).

(** The word [w] (given in lower case) stands in the text, in any mix of
    cases, with no word character right before or after it. *)
Definition word_in (w : string) (text : string) : Prop :=
  exists a x b : PyStr.chars,
    list_ascii_of_string text = (a ++ x ++ b)%list
    /\ PyStr.lower_chars x = list_ascii_of_string w
    /\ Re.word_at (rev a) = false
    /\ Re.word_at b = false.

End MoreProps.

(* ------------------------------------------------------------------ *)
(** * The "at" rule, described without the pattern *)
(* ------------------------------------------------------------------ *)

Module RepProps.
Import PyStr Re.

(** What a greedy repetition of a class does, read off the subject: one
    more character of the class if that leads to a match, else the
    continuation here (once [lo] characters are taken). *)
Fixpoint greedy_cls (p : ascii -> bool) (lo : nat) (k : K) (count : nat)
  (bef aft : chars) (g : caps) {struct aft} : option (cursor * caps) :=
  let leave := if (lo <=? count)%nat then k (mkcursor bef aft) g else None in
  match aft with
  | x :: rest =>
      if p x then
        match greedy_cls p lo k (S count) (x :: bef) rest g with
        | Some res => Some res
        | None => leave
        end
      else leave
  | [] => leave
  end.

(** A lazy one: the continuation here if that leads to a match, else one
    more character. *)
Fixpoint lazy_cls (p : ascii -> bool) (lo : nat) (k : K) (count : nat)
  (bef aft : chars) (g : caps) {struct aft} : option (cursor * caps) :=
  let leave := if (lo <=? count)%nat then k (mkcursor bef aft) g else None in
  match leave with
  | Some res => Some res
  | None =>
      match aft with
      | x :: rest =>
          if p x then lazy_cls p lo k (S count) (x :: bef) rest g else None
      | [] => None
      end
  end.

End RepProps.

Module NameProps.
Import PyStr NlpParser Props.
Local Open Scope string_scope.

(** The white space at the head of [s]. *)
Fixpoint space_run (s : chars) : chars :=
  match s with
  | c :: s' => if is_space c then c :: space_run s' else []
  | [] => []
  end.

(** [s] begins with the letters of [w], in any case. *)
Fixpoint starts_ci (w s : chars) : bool :=
  match w, s with
  | [], _ => true
  | a :: w', x :: s' =>
      Ascii.eqb (lower_char a) (lower_char x) && starts_ci w' s'
  | _ :: _, [] => false
  end.

(** The words of the "at" pattern that end a name. *)
Definition name_stop_words : list string :=
  [ "on"; "this"; "next"; "tonight"; "tomorrow" ].

(** [s] begins with a digit or with the letters of a stop word (a longer
    word that begins with them counts). *)
Definition stop_start (s : chars) : bool :=
  match s with
  | d :: _ =>
      is_digit d
      || existsb (fun w => starts_ci (list_ascii_of_string w) s)
           name_stop_words
  | [] => false
  end.

Definition is_name_punct (c : ascii) : bool :=
  existsb (Ascii.eqb c) [","%char; "."%char; "!"%char; "?"%char].

(** What ends a name after "at": nothing but white space up to the end
    of the text; or one of the marks , . ! ?; or white space followed by
    a digit or by the letters of a stop word. *)
Definition ends_name (rest : chars) : bool :=
  forallb is_space rest
  || match rest with
     | c :: _ =>
         is_name_punct c || (is_space c && stop_start (lstrip_chars rest))
     | [] => false
     end.

(** The fewest further characters of a name after which the name ends. *)
Fixpoint name_more (s : chars) : option chars :=
  if ends_name s then Some []
  else
    match s with
    | c :: s' =>
        if is_name_char c then
          match name_more s' with
          | Some run => Some (c :: run)
          | None => None
          end
        else None
    | [] => None
    end.

(** A name at the head of [s]: a letter, one more character of a name at
    least, and the fewest after which the name ends. *)
Definition name_here (s : chars) : option chars :=
  match s with
  | x :: c :: s' =>
      if is_name_start x && is_name_char c then
        match name_more s' with
        | Some run => Some (x :: c :: run)
        | None => None
        end
      else None
  | _ => None
  end.

(** "at" in any case at the head of [s], not right after a word
    character ([prev] is the character before [s]), then white space and
    a name. *)
Definition at_name_here (prev : option ascii) (s : chars) : option chars :=
  match s with
  | a :: t :: sp :: rest =>
      if negb (match prev with Some p => is_word p | None => false end)
         && Ascii.eqb (lower_char a) "a" && Ascii.eqb (lower_char t) "t"
         && is_space sp
      then name_here (lstrip_chars rest)
      else None
  | _ => None
  end.

(** The name after the first "at" that has one. *)
Fixpoint first_at_name (prev : option ascii) (s : chars) : option chars :=
  match at_name_here prev s with
  | Some name => Some name
  | None =>
      match s with
      | c :: s' => first_at_name (Some c) s'
      | [] => None
      end
  end.

(** The same for a text: the name the "at" rule reads in it. *)
Definition first_name_after_at (text : string) : option string :=
  option_map string_of_list_ascii
    (first_at_name None (list_ascii_of_string text)).

(** The pattern of the "at" rule, in parts. *)
Fixpoint lit_seq (w : chars) : Re.regex :=
  match w with
  | [] => Re.Eps
  | [a] => Re.Lit a
  | a :: w' => Re.Seq (Re.Lit a) (lit_seq w')
  end.

Fixpoint stop_alts (ws : list string) : Re.regex :=
  match ws with
  | [] => Re.Cls false [Re.IDigit]
  | w :: ws' => Re.Alt (lit_seq (list_ascii_of_string w)) (stop_alts ws')
  end.

Definition spaces_re (lo : nat) : Re.regex :=
  Re.Rep lo None true (Re.Cls false [Re.ISpace]).

Definition term_re : Re.regex :=
  Re.Alt (Re.Seq (spaces_re 0) Re.Eos)
    (Re.Alt
       (Re.Cls false
          [Re.IChar ","; Re.IChar "."; Re.IChar "!"; Re.IChar "?"])
       (Re.Seq (spaces_re 1) (stop_alts name_stop_words))).

Definition name_re : Re.regex :=
  Re.Seq (Re.Cls false [Re.IRange "A" "Z"; Re.IRange "a" "z"])
    (Re.Rep 1 None false
       (Re.Cls false
          [Re.IRange "A" "Z"; Re.IRange "a" "z"; Re.IChar " "; Re.IChar "'";
           Re.IChar "-"])).

Definition at_re : Re.regex :=
  Re.Seq Re.Bow
    (Re.Seq (Re.Lit "a")
       (Re.Seq (Re.Lit "t")
          (Re.Seq (spaces_re 1) (Re.Seq (Re.Group 1 name_re) term_re)))).

(** The cursor [n] characters on. *)
Definition advance (n : nat) (c : Re.cursor) : Re.cursor :=
  Re.mkcursor (rev (firstn n (Re.after c)) ++ Re.before c)%list
    (skipn n (Re.after c)).

(** The continuation of the name: what ends it, with group 1 recorded
    from [p0]. *)
Definition name_end (p0 : nat) : Re.K :=
  fun c' g' => Re.m true term_re Re.accept c' ((1%nat, (p0, Re.pos c')) :: g').

End NameProps.

(* ------------------------------------------------------------------ *)
(** * The am/pm time phrases, described without the pattern *)
(* ------------------------------------------------------------------ *)

Module TimeProps.
Import PyStr NlpParser Props NameProps.

(** The digits of the hour at the head of [s]: two if there are two, else
    one; 0 when [s] does not begin with a digit. *)
Definition hour_digits (s : chars) : nat :=
  match s with
  | d1 :: rest =>
      if is_digit d1 then
        match rest with
        | d2 :: _ => if is_digit d2 then 2%nat else 1%nat
        | [] => 1%nat
        end
      else 0%nat
  | [] => 0%nat
  end.

(** A colon and two digits at the head of [s]: their length, 3 or 0. *)
Definition minute_part (s : chars) : nat :=
  match s with
  | c :: e1 :: e2 :: _ =>
      if Ascii.eqb c ":" && is_digit e1 && is_digit e2 then 3%nat else 0%nat
  | _ => 0%nat
  end.

(** "am" or "pm" in any case at the head of [s], with no word character
    after it. *)
Definition meridiem_here (s : chars) : bool :=
  match s with
  | x :: y :: r =>
      (Ascii.eqb (lower_char x) "a" || Ascii.eqb (lower_char x) "p")
      && Ascii.eqb (lower_char y) "m" && negb (Re.word_at r)
  | _ => false
  end.

(** The length of the time phrase at the head of [s], if there is one:
    the hour, the minutes if they are there, any white space and the
    meridiem. *)
Definition time_phrase (s : chars) : option nat :=
  let h := hour_digits s in
  let s1 := skipn h s in
  let mi := minute_part s1 in
  let s2 := skipn mi s1 in
  if (0 <? h)%nat && meridiem_here (lstrip_chars s2)
  then Some (h + mi + List.length (space_run s2) + 2)%nat
  else None.

(** The same, where [prev] is the character before [s]: a time phrase
    does not begin right after a word character. *)
Definition time_phrase_at (prev : option ascii) (s : chars) : option nat :=
  if match prev with Some p => is_word p | None => false end
  then None else time_phrase s.

(** [s] without its time phrases, read from the left; [skip] characters
    of a phrase are still to be dropped. *)
Fixpoint strip_times (skip : nat) (prev : option ascii) (s : chars) : chars :=
  match s with
  | [] => []
  | c :: rest =>
      match skip with
      | S n => strip_times n (Some c) rest
      | O =>
          match time_phrase_at prev s with
          | Some (S n) => strip_times n (Some c) rest
          | _ => c :: strip_times 0 (Some c) rest
          end
      end
  end.

Definition without_times (text : string) : string :=
  string_of_list_ascii (strip_times 0 None (list_ascii_of_string text)).

(** The pattern of the time phrases, in parts. *)
Definition hour_re : Re.regex :=
  Re.Rep 1 (Some 2%nat) true (Re.Cls false [Re.IDigit]).

Definition minutes_re : Re.regex :=
  Re.Rep 0 (Some 1%nat) true
    (Re.Seq (Re.Lit ":")
       (Re.Rep 2 (Some 2%nat) true (Re.Cls false [Re.IDigit]))).

Definition meridiem_re : Re.regex :=
  Re.Seq
    (Re.Alt (Re.Seq (Re.Lit "a") (Re.Lit "m"))
       (Re.Seq (Re.Lit "p") (Re.Lit "m")))
    Re.Bow.

Definition time_re : Re.regex :=
  Re.Seq Re.Bow
    (Re.Seq hour_re
       (Re.Seq minutes_re (Re.Seq (spaces_re 0) meridiem_re))).

End TimeProps.

(* ------------------------------------------------------------------ *)
(** * Properties *)
(* ------------------------------------------------------------------ *)

Module ReFacts.
Import PyStr Re Props.

(** Every pattern of the program lies in the subset [Re.parse] reads, so
    [Re.compile] never falls back. *)
Lemma patterns_compile : forallb compiles program_patterns = true.
Proof. vm_compute. reflexivity. Qed.

(** A match that [scan] reports starts at a position of the subject and
    is a match of the pattern there. *)
Lemma scan_sound ic r : forall aft bef a c g,
  scan ic r bef aft = Some (a, c, g) ->
  exists bef' aft',
    (rev bef' ++ aft' = rev bef ++ aft)%list
    /\ a = List.length bef'
    /\ m ic r accept (mkcursor bef' aft') [] = Some (c, g).
Proof.
  induction aft as [|x aft IH]; intros bef a c g; cbn [scan].
  - destruct (m ic r accept (mkcursor bef []) []) as [[c' g']|] eqn:E;
      [|discriminate].
    intros [= <- <- <-]. exists bef, []. auto.
  - destruct (m ic r accept (mkcursor bef (x :: aft)) []) as [[c' g']|] eqn:E.
    + intros [= <- <- <-]. exists bef, (x :: aft). auto.
    + intros H. destruct (IH _ _ _ _ H) as (bef' & aft' & E1 & E2 & E3).
      exists bef', aft'. repeat split; try assumption.
      rewrite E1. simpl. now rewrite <- app_assoc.
Qed.

Lemma m_not_behind ic r k c g res :
  m ic (NotBehind r) k c g = Some res -> k c g = Some res.
Proof.
  cbn [m]. destruct (width r); [|discriminate].
  destruct (back _ c); [|trivial].
  destruct (m ic r accept _ g); [discriminate|trivial].
Qed.

Lemma m_not_ahead ic r k c g res :
  m ic (NotAhead r) k c g = Some res -> k c g = Some res.
Proof. cbn [m]. destruct (m ic r accept c g); [discriminate|trivial]. Qed.

Lemma m_bow ic k c g res :
  m ic Bow k c g = Some res -> k c g = Some res.
Proof. cbn [m]. destruct (at_boundary c); [trivial|discriminate]. Qed.

Lemma m_cls ic neg its k c g res :
  m ic (Cls neg its) k c g = Some res ->
  exists x rest,
    after c = x :: rest /\ cls_match ic neg its x = true
    /\ k (mkcursor (x :: before c) rest) g = Some res.
Proof.
  cbn [m]. unfold step. destruct (after c) as [|x rest]; [discriminate|].
  destruct (cls_match ic neg its x) eqn:E; [|discriminate].
  intros H. now exists x, rest.
Qed.

Lemma m_seq ic r1 r2 k c g :
  m ic (Seq r1 r2) k c g = m ic r1 (fun c' g' => m ic r2 k c' g') c g.
Proof. reflexivity. Qed.

Lemma m_group ic n r k c g :
  m ic (Group n r) k c g =
    m ic r (fun c' g' => k c' ((n, (pos c, pos c')) :: g')) c g.
Proof. reflexivity. Qed.

Lemma slice_one (bef : chars) x rest :
  slice (rev bef ++ x :: rest) (List.length bef) (S (List.length bef))
  = String x EmptyString.
Proof.
  unfold slice.
  replace (S (List.length bef) - List.length bef)%nat with 1%nat by lia.
  rewrite <- (length_rev bef).
  rewrite skipn_app, Nat.sub_diag, skipn_all. reflexivity.
Qed.

(** One turn of the loop. *)
Lemma rep_loop_S body lo hi greedy k fuel count c g :
  exists again leave,
    again =
      (if match hi with Some h => (count <? h)%nat | None => true end
       then body (fun c' g' =>
                    if (pos c <? pos c')%nat
                    then rep_loop body lo hi greedy k fuel (S count) c' g'
                    else None) c g
       else None)
    /\ leave = (if (lo <=? count)%nat then k c g else None)
    /\ rep_loop body lo hi greedy k (S fuel) count c g =
         if greedy
         then match again with Some res => Some res | None => leave end
         else match leave with Some res => Some res | None => again end.
Proof. do 2 eexists. repeat split. Qed.

Lemma rep_loop_cases body lo hi greedy k fuel count c g res :
  rep_loop body lo hi greedy k (S fuel) count c g = Some res ->
  ((match hi with Some h => (count <? h)%nat | None => true end) = true
   /\ body (fun c' g' =>
              if (pos c <? pos c')%nat
              then rep_loop body lo hi greedy k fuel (S count) c' g'
              else None) c g = Some res)
  \/ ((lo <= count)%nat /\ k c g = Some res).
Proof.
  destruct (rep_loop_S body lo hi greedy k fuel count c g)
    as (again & leave & Ea & El & ->).
  assert (A : again = Some res ->
              (match hi with Some h => (count <? h)%nat | None => true end)
              = true
              /\ body (fun c' g' =>
                         if (pos c <? pos c')%nat
                         then rep_loop body lo hi greedy k fuel (S count) c' g'
                         else None) c g = Some res).
  { rewrite Ea. destruct hi as [h|].
    - destruct (count <? h)%nat; [auto|discriminate].
    - auto. }
  assert (L : leave = Some res -> (lo <= count)%nat /\ k c g = Some res).
  { rewrite El. destruct (Nat.leb_spec lo count); [auto|discriminate]. }
  destruct greedy.
  - destruct again as [r|]; [intros [= ->]; left; now apply A|].
    intros H. right. now apply L.
  - destruct leave as [r|]; [intros [= ->]; right; now apply L|].
    intros H. left. now apply A.
Qed.

Lemma rep_loop_keeps body lo hi greedy k :
  keeps body ->
  forall fuel count c g res,
    rep_loop body lo hi greedy k fuel count c g = Some res ->
    exists c', k c' g = Some res.
Proof.
  intros Hb. induction fuel as [|fuel IH]; intros count c g res; [discriminate|].
  intros H. apply rep_loop_cases in H as [[_ H] | [_ H]].
  - apply Hb in H as [c' H].
    destruct (pos c <? pos c')%nat; [|discriminate]. eapply IH; exact H.
  - now exists c.
Qed.

(** A pattern without capturing groups hands the captures on unchanged. *)
Lemma m_keeps ic r : no_group r = true -> keeps (m ic r).
Proof.
  induction r as [| ch | neg its | | | r1 IH1 r2 IH2 | r1 IH1 r2 IH2
                  | lo hi greedy r1 IH1 | n r1 IH1 | r1 IH1 | r1 IH1];
    intros Hn k c g res; cbn [no_group] in Hn.
  - cbn [m]. intros H. now exists c.
  - cbn [m]. destruct (step c) as [[x c']|]; [|discriminate].
    destruct (lit_match ic ch x); [|discriminate]. intros H. now exists c'.
  - cbn [m]. destruct (step c) as [[x c']|]; [|discriminate].
    destruct (cls_match ic neg its x); [|discriminate]. intros H. now exists c'.
  - intros H. apply m_bow in H. now exists c.
  - cbn [m]. destruct (at_end c); [|discriminate]. intros H. now exists c.
  - apply andb_true_iff in Hn as [H1 H2]. rewrite m_seq. intros H.
    apply (IH1 H1) in H as [c1 H]. now apply (IH2 H2) in H.
  - apply andb_true_iff in Hn as [H1 H2]. cbn [m].
    destruct (m ic r1 k c g) as [r|] eqn:E.
    + intros [= <-]. now apply (IH1 H1) in E.
    + intros H. now apply (IH2 H2) in H.
  - cbn [m]. apply rep_loop_keeps. now apply IH1.
  - discriminate.
  - intros H. apply m_not_ahead in H. now exists c.
  - intros H. apply m_not_behind in H. now exists c.
Qed.

Lemma m_lit ic ch k c g res :
  m ic (Lit ch) k c g = Some res ->
  exists x rest,
    after c = x :: rest /\ lit_match ic ch x = true
    /\ k (mkcursor (x :: before c) rest) g = Some res.
Proof.
  cbn [m]. unfold step. destruct (after c) as [|x rest]; [discriminate|].
  destruct (lit_match ic ch x) eqn:E; [|discriminate].
  intros H. now exists x, rest.
Qed.

(** A repeated character class consumes a run of characters of the class. *)
Lemma rep_loop_cls ic neg its lo hi greedy k :
  forall fuel count c g res,
    rep_loop (m ic (Cls neg its)) lo hi greedy k fuel count c g = Some res ->
    exists xs rest,
      after c = (xs ++ rest)%list
      /\ forallb (cls_match ic neg its) xs = true
      /\ (lo <= count + List.length xs)%nat
      /\ k (mkcursor (rev xs ++ before c) rest) g = Some res.
Proof.
  induction fuel as [|fuel IH]; intros count c g res; [discriminate|].
  intros H. apply rep_loop_cases in H as [[_ H] | [Hlo H]].
  - apply m_cls in H as (x & rest0 & Ea & Hx & H).
    destruct (pos c <? pos _)%nat; [|discriminate].
    apply IH in H as (xs & rest & Ea' & Hxs & Hlo & H).
    cbn [after before] in *. subst rest0.
    exists (x :: xs), rest. repeat split.
    + exact Ea.
    + simpl. now rewrite Hx.
    + simpl. lia.
    + simpl rev. now rewrite <- app_assoc.
  - exists [], (after c). repeat split.
    + simpl. lia.
    + destruct c. exact H.
Qed.

Lemma m_rep_cls ic neg its lo hi greedy k c g res :
  m ic (Rep lo hi greedy (Cls neg its)) k c g = Some res ->
  exists xs rest,
    after c = (xs ++ rest)%list
    /\ forallb (cls_match ic neg its) xs = true
    /\ (lo <= List.length xs)%nat
    /\ k (mkcursor (rev xs ++ before c) rest) g = Some res.
Proof. cbn [m]. intros H. now apply rep_loop_cls in H. Qed.

Lemma slice_run (bef : chars) xs rest :
  slice (rev bef ++ xs ++ rest) (List.length bef)
        (List.length (rev xs ++ bef))
  = string_of_list_ascii xs.
Proof.
  unfold slice. rewrite length_app, length_rev.
  replace (List.length xs + List.length bef - List.length bef)%nat
    with (List.length xs) by lia.
  rewrite <- (length_rev bef) at 1.
  rewrite skipn_app, Nat.sub_diag, skipn_all. simpl.
  rewrite firstn_app, Nat.sub_diag, firstn_all. simpl.
  now rewrite app_nil_r.
Qed.

Lemma agree_weaken N n n' k1 k2 :
  (n' <= n)%nat -> agree N n k1 k2 -> agree N n' k1 k2.
Proof. intros Hn H c g Ht Hl. apply H; [exact Ht|lia]. Qed.

Lemma step_total c x c' :
  step c = Some (x, c') ->
  total c' = total c /\ S (List.length (after c')) = List.length (after c).
Proof.
  unfold step, total. destruct c as [bef [|y aft]]; [discriminate|].
  simpl. intros [= <- <-]. simpl. lia.
Qed.

Lemma rep_loop_eq body lo hi greedy k fuel count c g :
  rep_loop body lo hi greedy k (S fuel) count c g =
    if greedy then
      match
        (if match hi with Some h => (count <? h)%nat | None => true end
         then body (fun c' g' =>
                      if (pos c <? pos c')%nat
                      then rep_loop body lo hi greedy k fuel (S count) c' g'
                      else None) c g
         else None)
      with
      | Some res => Some res
      | None => if (lo <=? count)%nat then k c g else None
      end
    else
      match (if (lo <=? count)%nat then k c g else None) with
      | Some res => Some res
      | None =>
          if match hi with Some h => (count <? h)%nat | None => true end
          then body (fun c' g' =>
                       if (pos c <? pos c')%nat
                       then rep_loop body lo hi greedy k fuel (S count) c' g'
                       else None) c g
          else None
      end.
Proof. reflexivity. Qed.

Lemma rep_loop_local body lo hi greedy :
  local body ->
  forall fuel count k1 k2 c g,
    agree (total c) (List.length (after c)) k1 k2 ->
    rep_loop body lo hi greedy k1 fuel count c g
    = rep_loop body lo hi greedy k2 fuel count c g.
Proof.
  intros Hb. induction fuel as [|fuel IH]; intros count k1 k2 c g Ha;
    [reflexivity|].
  rewrite !rep_loop_eq.
  assert (Hk : k1 c g = k2 c g) by (apply Ha; [reflexivity|lia]).
  assert (Hbody :
    body (fun c' g' => if (pos c <? pos c')%nat
                       then rep_loop body lo hi greedy k1 fuel (S count) c' g'
                       else None) c g
    = body (fun c' g' => if (pos c <? pos c')%nat
                         then rep_loop body lo hi greedy k2 fuel (S count) c' g'
                         else None) c g).
  { apply Hb. intros c' g' Ht Hl.
    destruct (pos c <? pos c')%nat; [|reflexivity].
    apply IH. rewrite Ht. eapply agree_weaken; [exact Hl|exact Ha]. }
  now rewrite Hk, Hbody.
Qed.

(** The matcher of every pattern is local. *)
Lemma m_local ic r : local (m ic r).
Proof.
  induction r as [| ch | neg its | | | r1 IH1 r2 IH2 | r1 IH1 r2 IH2
                  | lo hi greedy r1 IH1 | n r1 IH1 | r1 IH1 | r1 IH1];
    intros k1 k2 c g Ha;
    assert (Hk : forall g, k1 c g = k2 c g)
      by (intros g0; apply Ha; [reflexivity|lia]).
  - apply Hk.
  - cbn [m]. destruct (step c) as [[x c']|] eqn:E; [|reflexivity].
    destruct (step_total _ E) as [Ht Hl].
    destruct (lit_match ic ch x); [|reflexivity]. apply Ha; [exact Ht|lia].
  - cbn [m]. destruct (step c) as [[x c']|] eqn:E; [|reflexivity].
    destruct (step_total _ E) as [Ht Hl].
    destruct (cls_match ic neg its x); [|reflexivity]. apply Ha; [exact Ht|lia].
  - cbn [m]. now rewrite Hk.
  - cbn [m]. now rewrite Hk.
  - rewrite !m_seq. apply IH1. intros c' g' Ht Hl. apply IH2.
    rewrite Ht. eapply agree_weaken; [exact Hl|exact Ha].
  - cbn [m]. now rewrite (IH1 k1 k2 c g Ha), (IH2 k1 k2 c g Ha).
  - cbn [m]. now apply rep_loop_local.
  - rewrite !m_group. apply IH1. intros c' g' Ht Hl. apply Ha; assumption.
  - cbn [m]. now rewrite Hk.
  - cbn [m]. now rewrite Hk.
Qed.

(** More fuel than there is input left changes nothing. *)
Lemma rep_loop_fuel body lo hi greedy k :
  local body ->
  forall fuel1 fuel2 count c g,
    (List.length (after c) < fuel1)%nat ->
    (List.length (after c) < fuel2)%nat ->
    rep_loop body lo hi greedy k fuel1 count c g
    = rep_loop body lo hi greedy k fuel2 count c g.
Proof.
  intros Hb. induction fuel1 as [|fuel1 IH]; intros fuel2 count c g H1 H2;
    [lia|].
  destruct fuel2 as [|fuel2]; [lia|].
  rewrite !rep_loop_eq.
  assert (Hbody :
    body (fun c' g' => if (pos c <? pos c')%nat
                       then rep_loop body lo hi greedy k fuel1 (S count) c' g'
                       else None) c g
    = body (fun c' g' => if (pos c <? pos c')%nat
                         then rep_loop body lo hi greedy k fuel2 (S count) c' g'
                         else None) c g).
  { apply Hb. intros c' g' Ht Hl.
    destruct (Nat.ltb_spec (pos c) (pos c')); [|reflexivity].
    unfold total, pos in *. apply IH; lia. }
  now rewrite Hbody.
Qed.

(** The fuel [m] gives a repetition is enough: any larger amount yields
    the same result. *)
Lemma rep_fuel_enough ic r lo hi greedy k c g fuel :
  (List.length (after c) < fuel)%nat ->
  rep_loop (m ic r) lo hi greedy k fuel 0 c g
  = m ic (Rep lo hi greedy r) k c g.
Proof.
  intros H. cbn [m]. apply rep_loop_fuel; [apply m_local|exact H|lia].
Qed.


Lemma rep_loop_advances body lo hi greedy k :
  advances body ->
  forall fuel count c g res,
    rep_loop body lo hi greedy k fuel count c g = Some res ->
    exists c' g',
      k c' g' = Some res /\ total c' = total c
      /\ (List.length (after c') <= List.length (after c))%nat.
Proof.
  intros Hb. induction fuel as [|fuel IH]; intros count c g res; [discriminate|].
  intros H. apply rep_loop_cases in H as [[_ H] | [_ H]].
  - apply Hb in H as (c1 & g1 & H & Ht & Hl).
    destruct (pos c <? pos c1)%nat; [|discriminate].
    apply IH in H as (c2 & g2 & H & Ht2 & Hl2).
    exists c2, g2. repeat split; [exact H|congruence|lia].
  - exists c, g. auto.
Qed.

(** The matcher of every pattern hands on a cursor of the same subject,
    at or after the position it started at. *)
Lemma m_advances ic r : advances (m ic r).
Proof.
  induction r as [| ch | neg its | | | r1 IH1 r2 IH2 | r1 IH1 r2 IH2
                  | lo hi greedy r1 IH1 | n r1 IH1 | r1 IH1 | r1 IH1];
    intros k c g res.
  - cbn [m]. intros H. exists c, g. auto.
  - cbn [m]. destruct (step c) as [[x c']|] eqn:E; [|discriminate].
    destruct (step_total _ E) as [Ht Hl].
    destruct (lit_match ic ch x); [|discriminate].
    intros H. exists c', g. repeat split; [exact H|exact Ht|lia].
  - cbn [m]. destruct (step c) as [[x c']|] eqn:E; [|discriminate].
    destruct (step_total _ E) as [Ht Hl].
    destruct (cls_match ic neg its x); [|discriminate].
    intros H. exists c', g. repeat split; [exact H|exact Ht|lia].
  - intros H. apply m_bow in H. exists c, g. auto.
  - cbn [m]. destruct (at_end c); [|discriminate]. intros H. exists c, g. auto.
  - rewrite m_seq. intros H.
    apply IH1 in H as (c1 & g1 & H & Ht1 & Hl1).
    apply IH2 in H as (c2 & g2 & H & Ht2 & Hl2).
    exists c2, g2. repeat split; [exact H|congruence|lia].
  - cbn [m]. destruct (m ic r1 k c g) as [r|] eqn:E.
    + intros [= <-]. now apply IH1 in E.
    + intros H. now apply IH2 in H.
  - cbn [m]. now apply rep_loop_advances.
  - rewrite m_group. intros H. apply IH1 in H as (c1 & g1 & H & Ht & Hl).
    now exists c1, ((n, (pos c, pos c1)) :: g1).
  - intros H. apply m_not_ahead in H. exists c, g. auto.
  - intros H. apply m_not_behind in H. exists c, g. auto.
Qed.

(** A match found by [scan] lies in the subject, at or after the cursor. *)
Lemma scan_advances ic r : forall aft bef a c g,
  scan ic r bef aft = Some (a, c, g) ->
  total c = (List.length bef + List.length aft)%nat
  /\ (List.length bef <= a)%nat /\ (a <= pos c)%nat.
Proof.
  induction aft as [|x aft IH]; intros bef a c g; cbn [scan];
    destruct (m ic r accept (mkcursor bef _) []) as [[c' g']|] eqn:E.
  - intros [= <- <- <-].
    apply m_advances in E as (c1 & g1 & [= <- <-] & Ht & Hl).
    unfold total, pos in *. cbn [before after] in *. simpl in *. lia.
  - discriminate.
  - intros [= <- <- <-].
    apply m_advances in E as (c1 & g1 & [= <- <-] & Ht & Hl).
    unfold total, pos in *. cbn [before after] in *. simpl in *. lia.
  - intros H. apply IH in H as (Ht & Ha & Hp). simpl in *. lia.
Qed.

(** The fuel [spans] gives the scan for successive matches is enough:
    any amount above the input left yields the same matches. *)
Lemma matches_from_fuel ic r :
  forall fuel1 fuel2 c,
    (List.length (after c) < fuel1)%nat ->
    (List.length (after c) < fuel2)%nat ->
    matches_from fuel1 ic r c = matches_from fuel2 ic r c.
Proof.
  induction fuel1 as [|fuel1 IH]; intros fuel2 c H1 H2; [lia|].
  destruct fuel2 as [|fuel2]; [lia|].
  cbn [matches_from].
  destruct (scan ic r (before c) (after c)) as [[[a c'] g]|] eqn:E;
    [|reflexivity].
  apply scan_advances in E as (Ht & Ha & Hp). unfold total, pos in *.
  destruct (Nat.ltb_spec a (List.length (before c'))).
  - f_equal. apply IH; lia.
  - f_equal. destruct (step c') as [[x c1]|] eqn:S1; [|reflexivity].
    apply step_total in S1 as [Ht1 Hl1]. unfold total in *.
    apply IH; lia.
Qed.

Lemma name_start_class x :
  cls_match true false [IRange "A" "Z"; IRange "a" "z"] x = is_name_start x.
Proof. destruct x as [[] [] [] [] [] [] [] []]; reflexivity. Qed.

Lemma name_char_class x :
  cls_match true false
    [IRange "A" "Z"; IRange "a" "z"; IChar " "; IChar "'"; IChar "-"] x
  = is_name_char x.
Proof. destruct x as [[] [] [] [] [] [] [] []]; reflexivity. Qed.

End ReFacts.

Module ReExamples.
Import PyStr Re.

Local Open Scope string_scope.

(** The matcher on a few subjects, each as CPython's [re] has it:
    giving back an optional group to reach a word boundary, a lazy
    capture, look-arounds, [$] before a final newline, IGNORECASE,
    [re.sub] and [re.findall]. *)
Lemma engine_examples :
  option_map (fun mt => (group mt 0, group mt 1, group mt 2, group mt 3))
    (search_i "\b(\d{1,2}):(\d{2})(?::\d{2})?\s*(am|pm)?\b" "at 20:30 amx")
  = Some (Some "20:30 ", Some "20", Some "30", None)
  /\ option_map (fun mt => (group mt 0, group mt 1))
       (search_i NlpParser.at_pattern "tonight 8pm at Prozdor for 2")
     = Some (Some "at Prozdor for 2", Some "Prozdor for")
  /\ option_map (fun mt => (m_start mt, group mt 1))
       (search "(?<![:\d])(\b[2-9]\b)(?![\d:])" "25 7:30 :8 9: x3 4")
     = Some (17%nat, Some "4")
  /\ option_map (fun mt => group mt 1)
       (search_i NlpParser.at_pattern
          ("at Catit" ++ String (chr 10) ""))
     = Some (Some "Catit")
  /\ option_map (fun mt => (group mt 0, group mt 1))
       (search_i NlpParser.at_pattern "dinner AT Taizu Bar  Tonight at 9")
     = Some (Some "AT Taizu Bar  Tonight", Some "Taizu Bar")
  /\ sub_empty_i "\b\d{1,2}(?::\d{2})?\s*(?:am|pm)\b"
       "book 2 tonight 8pm at prozdor 7:30 PM 12 amx"
     = "book 2 tonight  at prozdor  12 amx"
  /\ sub_empty "\b\d{1,2}[/\-]\d{1,2}\b" "on 15/03 at 3-4-5 20:30 123/4 x"
     = "on  at -5 20:30 123/4 x"
  /\ findall "[A-Za-z''\-]+" "Book 2 at O'Neil-s 8pm, Foo"
     = ["Book"; "at"; "O'Neil-s"; "pm"; "Foo"].
Proof. repeat split; vm_compute; reflexivity. Qed.

End ReExamples.

(** ** What the groups of a pattern capture *)

Module CaptureFacts.
Import PyStr Re NlpParser Props ReFacts.

Lemma in_all_ascii x : In x all_ascii.
Proof.
  unfold all_ascii. rewrite <- (ascii_nat_embedding x).
  apply in_map, in_seq. pose proof (nat_ascii_bounded x). lia.
Qed.

Lemma forallb_all_ascii (f : ascii -> bool) x :
  forallb f all_ascii = true -> f x = true.
Proof. intros H. exact (proj1 (forallb_forall _ _) H x (in_all_ascii x)). Qed.

Lemma span_of_cons n i ab g :
  span_of n g <> None -> span_of n ((i, ab) :: g) <> None.
Proof. cbn [span_of]. destruct (Nat.eqb i n); [discriminate|trivial]. Qed.

Lemma subject_step c x rest :
  after c = x :: rest -> subject (mkcursor (x :: before c) rest) = subject c.
Proof.
  intros E. unfold subject. cbn [before after rev]. rewrite E.
  now rewrite <- app_assoc.
Qed.

Lemma subject_run c xs rest :
  after c = (xs ++ rest)%list ->
  subject (mkcursor (rev xs ++ before c) rest) = subject c.
Proof.
  intros E. unfold subject. cbn [before after]. rewrite E.
  now rewrite rev_app_distr, rev_involutive, <- app_assoc.
Qed.

Lemma rep_loop_tidy P ok body lo hi greedy k :
  tidy P ok body ->
  forall fuel count c g res,
    rep_loop body lo hi greedy k fuel count c g = Some res ->
    exists c' g',
      k c' g' = Some res
      /\ subject c' = subject c
      /\ (ok = true -> runs P (subject c) g -> runs P (subject c) g')
      /\ (forall n, span_of n g <> None -> span_of n g' <> None).
Proof.
  intros Hb. induction fuel as [|fuel IH]; intros count c g res; [discriminate|].
  intros H. apply rep_loop_cases in H as [[_ H] | [_ H]].
  - apply Hb in H as (c1 & g1 & H & S1 & R1 & G1).
    destruct (pos c <? pos c1)%nat; [|discriminate].
    apply IH in H as (c2 & g2 & H & S2 & R2 & G2).
    exists c2, g2. split; [exact H|]. split; [congruence|].
    split; [|auto]. intros Ho Hr. rewrite <- S1. apply (R2 Ho).
    rewrite S1. auto.
  - exists c, g. auto.
Qed.

(** A class repeated at least once, in a group, captures a run of the
    class. *)
Lemma group_run P ic n lo hi greedy neg its k c g res :
  (1 <= lo)%nat ->
  forallb (fun x => implb (cls_match ic neg its x) (P x)) all_ascii = true ->
  m ic (Group n (Rep lo hi greedy (Cls neg its))) k c g = Some res ->
  exists c' g',
    k c' g' = Some res
    /\ subject c' = subject c
    /\ (runs P (subject c) g -> runs P (subject c) g')
    /\ (forall i, span_of i g <> None -> span_of i g' <> None)
    /\ span_of n g' <> None.
Proof.
  intros Hlo Hcls. rewrite m_group. intros H.
  apply m_rep_cls in H as (xs & rest & Ea & Hxs & Hlen & H).
  exists (mkcursor (rev xs ++ before c) rest),
    ((n, (pos c, pos (mkcursor (rev xs ++ before c) rest))) :: g).
  split; [exact H|]. split; [now apply subject_run|].
  split; [|split].
  - intros Hr i a b [E|Hin]; [|eauto].
    injection E as _ <- <-.
    exists (rev (before c)), xs, rest. unfold subject, pos. cbn [before].
    rewrite Ea. split; [reflexivity|]. split; [apply length_rev|].
    split; [rewrite !length_app, !length_rev; lia|].
    split; [destruct xs; [simpl in Hlen; lia|discriminate]|].
    apply forallb_forall. intros x Hx.
    pose proof (forallb_all_ascii _ x Hcls) as I. cbv beta in I.
    rewrite (proj1 (forallb_forall _ _) Hxs x Hx) in I. exact I.
  - intros i. apply span_of_cons.
  - cbn [span_of]. now rewrite Nat.eqb_refl.
Qed.

(** Every matcher keeps to its subject and keeps the groups it was
    given; where the groups of the pattern are repeated classes, what it
    captures are runs of those classes. *)
Lemma m_tidy P ic r : tidy P (captures_runs P ic r) (m ic r).
Proof.
  induction r as [| ch | neg its | | | r1 IH1 r2 IH2 | r1 IH1 r2 IH2
                  | lo hi greedy r1 IH1 | n r1 IH1 | r1 IH1 | r1 IH1];
    intros k c g res.
  - cbn [m]. intros H. exists c, g. auto.
  - intros H. apply m_lit in H as (x & rest & Ea & _ & H).
    exists (mkcursor (x :: before c) rest), g.
    split; [exact H|]. split; [now apply subject_step|auto].
  - intros H. apply m_cls in H as (x & rest & Ea & _ & H).
    exists (mkcursor (x :: before c) rest), g.
    split; [exact H|]. split; [now apply subject_step|auto].
  - intros H. apply m_bow in H. exists c, g. auto.
  - cbn [m]. destruct (at_end c); [|discriminate]. intros H.
    exists c, g. auto.
  - rewrite m_seq. intros H.
    apply IH1 in H as (c1 & g1 & H & S1 & R1 & G1).
    apply IH2 in H as (c2 & g2 & H & S2 & R2 & G2).
    exists c2, g2. split; [exact H|]. split; [congruence|].
    split; [|auto]. cbn [captures_runs]. intros Hc Hr.
    apply andb_true_iff in Hc as [Hc1 Hc2].
    rewrite <- S1. apply (R2 Hc2). rewrite S1. auto.
  - cbn [m captures_runs]. destruct (m ic r1 k c g) as [r|] eqn:E.
    + intros [= <-]. apply IH1 in E as (c1 & g1 & H & S1 & R1 & G1).
      exists c1, g1. repeat split; auto.
      intros Hc. apply andb_true_iff in Hc as [Hc _]. auto.
    + intros H. apply IH2 in H as (c1 & g1 & H & S1 & R1 & G1).
      exists c1, g1. repeat split; auto.
      intros Hc. apply andb_true_iff in Hc as [_ Hc]. auto.
  - cbn [m captures_runs]. intros H. eapply rep_loop_tidy in H; [exact H|exact IH1].
  - destruct (captures_runs P ic (Group n r1)) eqn:Hc.
    + cbn [captures_runs] in Hc.
      destruct r1 as [| | | | | | | lo hi greedy [| |neg its| | | | | | | |]
                      | | |]; try discriminate Hc.
      apply andb_true_iff in Hc as [Hlo Hcls]. apply Nat.leb_le in Hlo.
      intros H. apply (@group_run P _ _ _ _ _ _ _ _ _ _ _ Hlo Hcls) in H
        as (c1 & g1 & H & S1 & R1 & G1 & _).
      exists c1, g1. auto.
    + rewrite m_group. intros H.
      apply IH1 in H as (c1 & g1 & H & S1 & _ & G1).
      exists c1, ((n, (pos c, pos c1)) :: g1).
      split; [exact H|]. split; [exact S1|]. split; [discriminate|].
      intros i Hi. apply span_of_cons. auto.
  - intros H. apply m_not_ahead in H. exists c, g. auto.
  - intros H. apply m_not_behind in H. exists c, g. auto.
Qed.

Lemma rep_loop_grows P ok body lo hi greedy k fuel count c g res n :
  tidy P ok body ->
  rep_loop body lo hi greedy k fuel count c g = Some res ->
  span_of n g <> None ->
  exists c' g', k c' g' = Some res /\ span_of n g' <> None.
Proof.
  intros Hb H Hn.
  eapply rep_loop_tidy in H as (c1 & g1 & H & _ & _ & G1); [|exact Hb].
  exists c1, g1. auto.
Qed.

(** A pattern that binds a group records it in every match. *)
Lemma m_records ic n r : binds n r = true -> records n (m ic r).
Proof.
  induction r as [| ch | neg its | | | r1 IH1 r2 IH2 | r1 IH1 r2 IH2
                  | lo hi greedy r1 IH1 | i r1 IH1 | r1 IH1 | r1 IH1];
    cbn [binds]; intros Hb k c g res; try discriminate.
  - rewrite m_seq. intros H. apply orb_true_iff in Hb as [Hb|Hb].
    + apply (IH1 Hb) in H as (c1 & g1 & H & N1).
      apply (m_tidy (fun _ => true)) in H as (c2 & g2 & H & _ & _ & G2).
      exists c2, g2. auto.
    + apply (m_tidy (fun _ => true)) in H as (c1 & g1 & H & _).
      now apply (IH2 Hb) in H.
  - apply andb_true_iff in Hb as [H1 H2]. cbn [m].
    destruct (m ic r1 k c g) as [r|] eqn:E.
    + intros [= <-]. now apply (IH1 H1) in E.
    + intros H. now apply (IH2 H2) in H.
  - apply andb_true_iff in Hb as [Hlo Hb]. apply Nat.leb_le in Hlo.
    cbn [m]. intros H. apply rep_loop_cases in H as [[_ H] | [Hc _]]; [|lia].
    apply (IH1 Hb) in H as (c1 & g1 & H & N1).
    destruct (pos c <? pos c1)%nat; [|discriminate].
    exact (@rep_loop_grows _ _ _ _ _ _ _ _ _ _ _ _ _ (@m_tidy (fun _ => true) ic r1) H N1).
  - rewrite m_group. intros H. apply orb_true_iff in Hb as [Hb|Hb].
    + apply Nat.eqb_eq in Hb. subst i.
      apply (m_tidy (fun _ => true)) in H as (c1 & g1 & H & _).
      exists c1, ((n, (pos c, pos c1)) :: g1). split; [exact H|].
      cbn [span_of]. now rewrite Nat.eqb_refl.
    + apply (IH1 Hb) in H as (c1 & g1 & H & N1).
      exists c1, ((i, (pos c, pos c1)) :: g1). split; [exact H|].
      now apply span_of_cons.
Qed.

Lemma span_of_in n g ab : span_of n g = Some ab -> In (n, ab) g.
Proof.
  induction g as [|[i cd] g IH]; [discriminate|]. cbn [span_of].
  destruct (Nat.eqb_spec i n) as [->|_].
  - intros [= ->]. now left.
  - intros H. right. auto.
Qed.

Lemma slice_of_run (pre xs post : chars) :
  slice (pre ++ xs ++ post) (List.length pre) (List.length (pre ++ xs))
  = string_of_list_ascii xs.
Proof.
  unfold slice. rewrite length_app.
  replace (List.length pre + List.length xs - List.length pre)%nat
    with (List.length xs) by lia.
  rewrite skipn_app, Nat.sub_diag, skipn_all. cbn [skipn app].
  rewrite firstn_app, Nat.sub_diag, firstn_all. cbn [firstn].
  now rewrite app_nil_r.
Qed.

(** The group of a match found by [re.search], for a pattern that binds
    it and whose groups are repeated classes: a non-empty run of the
    class, standing in the subject. *)
Lemma search_capture P ic r n (s : string) mt :
  captures_runs P ic r = true ->
  binds n r = true ->
  (0 < n)%nat ->
  search_re ic r s = Some mt ->
  exists pre xs post,
    list_ascii_of_string s = (pre ++ xs ++ post)%list
    /\ xs <> [] /\ forallb P xs = true
    /\ group mt n = Some (string_of_list_ascii xs).
Proof.
  intros Hc Hb Hn. unfold search_re. cbv zeta.
  destruct (scan ic r [] (list_ascii_of_string s)) as [[[a c] g]|] eqn:E;
    [|discriminate].
  intros [= <-]. apply scan_sound in E as (bef & aft & Es & _ & Em).
  cbn [rev app] in Es.
  pose proof Em as Em'.
  apply (m_tidy P) in Em as (c1 & g1 & Ha & S1 & R1 & _).
  apply (@m_records ic n r Hb) in Em' as (c2 & g2 & Ha' & N2).
  unfold accept in Ha, Ha'. injection Ha as -> ->. injection Ha' as _ ->.
  destruct (span_of n g) as [[x y]|] eqn:Sp; [|contradiction].
  assert (Hr : runs P (subject (mkcursor bef aft)) g).
  { apply (R1 Hc). intros i x0 y0 []. }
  pose proof (Hr _ _ _ (span_of_in _ _ Sp))
    as (pre & xs & post & Esub & Hx1 & Hy1 & Hx & Hp).
  unfold subject in Esub. cbn [before after] in Esub.
  exists pre, xs, post. rewrite <- Es, Esub.
  split; [reflexivity|]. split; [exact Hx|]. split; [exact Hp|].
  unfold group. cbn [m_caps m_subject].
  destruct n as [|n']; [lia|]. rewrite Sp, <- Hx1, <- Hy1.
  now rewrite slice_of_run.
Qed.

End CaptureFacts.

(** ** Repetitions of a class and the "at" pattern *)

Module RepFacts.
Import PyStr Re Props ReFacts RepProps.

Lemma rep_cls_greedy ic neg its lo k : forall aft bef count g fuel,
  (List.length aft < fuel)%nat ->
  rep_loop (m ic (Cls neg its)) lo None true k fuel count (mkcursor bef aft) g
  = greedy_cls (cls_match ic neg its) lo k count bef aft g.
Proof.
  induction aft as [|x rest IH]; intros bef count g fuel Hf;
    (destruct fuel as [|fuel]; [simpl in Hf; lia|]).
  - cbn [rep_loop greedy_cls m]. unfold step. cbn [after]. reflexivity.
  - cbn [rep_loop greedy_cls m]. unfold step. cbn [after before].
    destruct (cls_match ic neg its x); [|reflexivity].
    unfold pos. cbn [before List.length].
    replace (List.length bef <? S (List.length bef))%nat with true
      by (symmetry; apply Nat.ltb_lt; lia).
    rewrite IH by (simpl in Hf; lia). reflexivity.
Qed.

Lemma rep_cls_lazy ic neg its lo k : forall aft bef count g fuel,
  (List.length aft < fuel)%nat ->
  rep_loop (m ic (Cls neg its)) lo None false k fuel count (mkcursor bef aft) g
  = lazy_cls (cls_match ic neg its) lo k count bef aft g.
Proof.
  induction aft as [|x rest IH]; intros bef count g fuel Hf;
    (destruct fuel as [|fuel]; [simpl in Hf; lia|]).
  - cbn [rep_loop lazy_cls m]. unfold step. cbn [after].
    destruct (if (lo <=? count)%nat then _ else _); reflexivity.
  - cbn [rep_loop lazy_cls m]. unfold step. cbn [after before].
    destruct (if (lo <=? count)%nat then _ else _); [reflexivity|].
    destruct (cls_match ic neg its x); [|reflexivity].
    unfold pos. cbn [before List.length].
    replace (List.length bef <? S (List.length bef))%nat with true
      by (symmetry; apply Nat.ltb_lt; lia).
    rewrite IH by (simpl in Hf; lia). reflexivity.
Qed.

Lemma m_rep_greedy ic neg its lo k c g :
  m ic (Rep lo None true (Cls neg its)) k c g
  = greedy_cls (cls_match ic neg its) lo k 0 (before c) (after c) g.
Proof.
  cbn [m]. destruct c as [bef aft]. cbn [before after].
  apply rep_cls_greedy. lia.
Qed.

Lemma m_rep_lazy ic neg its lo k c g :
  m ic (Rep lo None false (Cls neg its)) k c g
  = lazy_cls (cls_match ic neg its) lo k 0 (before c) (after c) g.
Proof.
  cbn [m]. destruct c as [bef aft]. cbn [before after].
  apply rep_cls_lazy. lia.
Qed.

End RepFacts.

Module AtFacts.
Import PyStr Re NlpParser Props ReFacts RepProps RepFacts NameProps.

(** ** Repetitions of a class, followed by something definite *)

Lemma greedy_cls_ext p q lo k :
  (forall x, p x = q x) ->
  forall aft bef count g,
    greedy_cls p lo k count bef aft g = greedy_cls q lo k count bef aft g.
Proof.
  intros E. induction aft as [|x rest IH]; intros bef count g;
    cbn [greedy_cls]; [reflexivity|].
  rewrite E, IH. reflexivity.
Qed.

Lemma lazy_cls_ext p q lo k :
  (forall x, p x = q x) ->
  forall aft bef count g,
    lazy_cls p lo k count bef aft g = lazy_cls q lo k count bef aft g.
Proof.
  intros E. induction aft as [|x rest IH]; intros bef count g;
    cbn [lazy_cls]; [reflexivity|].
  rewrite E, IH. reflexivity.
Qed.

Lemma space_run_split s : s = (space_run s ++ lstrip_chars s)%list.
Proof.
  induction s as [|c s IH]; [reflexivity|]. cbn [space_run lstrip_chars].
  destruct (is_space c); [|reflexivity]. cbn [app]. now rewrite <- IH.
Qed.

(** Greedy white space before a continuation that refuses white space
    takes all of it. *)
Lemma greedy_spaces lo k :
  (forall bef x rest g,
      is_space x = true -> k (mkcursor bef (x :: rest)) g = None) ->
  forall aft bef count g,
    greedy_cls is_space lo k count bef aft g
    = if (lo <=? count + List.length (space_run aft))%nat
      then k (mkcursor (rev (space_run aft) ++ bef) (lstrip_chars aft)) g
      else None.
Proof.
  intros Hk. induction aft as [|x rest IH]; intros bef count g.
  - cbn [greedy_cls space_run lstrip_chars List.length rev app].
    now rewrite Nat.add_0_r.
  - cbn [greedy_cls space_run lstrip_chars]. destruct (is_space x) eqn:Sx.
    + rewrite IH, (Hk _ _ _ _ Sx). cbn [List.length rev].
      rewrite <- app_assoc. cbn [app].
      replace (count + S (List.length (space_run rest)))%nat
        with (S count + List.length (space_run rest))%nat by lia.
      destruct (lo <=? S count + _)%nat.
      * destruct (k _ g); [reflexivity|]. now destruct (lo <=? count)%nat.
      * now destruct (lo <=? count)%nat.
    + cbn [List.length rev app]. now rewrite Nat.add_0_r.
Qed.


(** ** The parts of the "at" pattern *)

Lemma at_pattern_parts : compile at_pattern = at_re.
Proof. vm_compute. reflexivity. Qed.

Lemma space_class x : cls_match true false [ISpace] x = is_space x.
Proof. destruct x as [[] [] [] [] [] [] [] []]; reflexivity. Qed.

Lemma punct_class x :
  cls_match true false [IChar ","; IChar "."; IChar "!"; IChar "?"] x
  = is_name_punct x.
Proof. destruct x as [[] [] [] [] [] [] [] []]; reflexivity. Qed.

Lemma digit_class x : cls_match true false [IDigit] x = is_digit x.
Proof. destruct x as [[] [] [] [] [] [] [] []]; reflexivity. Qed.

Lemma newline_space x : Ascii.eqb x (chr 10) = true -> is_space x = true.
Proof. destruct x as [[] [] [] [] [] [] [] []]; cbv; congruence. Qed.

Lemma m_lit_seq : forall w k c g,
  w <> [] ->
  m true (lit_seq w) k c g
  = if starts_ci w (after c) then k (advance (List.length w) c) g else None.
Proof.
  induction w as [|a w IH]; intros k c g Hw; [contradiction|].
  destruct w as [|b w].
  - cbn [lit_seq m starts_ci List.length]. unfold step, advance, lit_match.
    destruct c as [bef aft]. cbn [after before].
    destruct aft as [|x rest]; [reflexivity|].
    cbn [firstn skipn rev app]. rewrite andb_true_r. reflexivity.
  - change (lit_seq (a :: b :: w)) with (Seq (Lit a) (lit_seq (b :: w))).
    rewrite m_seq. cbn [m]. unfold step, lit_match.
    destruct c as [bef aft]. cbn [after before].
    destruct aft as [|x rest]; [reflexivity|].
    change (starts_ci (a :: b :: w) (x :: rest))
      with (Ascii.eqb (lower_char a) (lower_char x)
            && starts_ci (b :: w) rest).
    destruct (Ascii.eqb (lower_char a) (lower_char x)); [|reflexivity].
    rewrite IH by discriminate. cbn [after before andb].
    destruct (starts_ci (b :: w) rest); [|reflexivity].
    unfold advance. cbn [after before List.length firstn skipn rev].
    now rewrite <- !app_assoc.
Qed.

Lemma stop_digit (s : chars) :
  match s with d :: _ => is_digit d | [] => false end
  = match m true (Cls false [IDigit]) accept (mkcursor [] s) [] with
    | Some _ => true
    | None => false
    end.
Proof.
  cbn [m]. unfold step. cbn [after]. destruct s as [|d s]; [reflexivity|].
  rewrite digit_class. now destruct (is_digit d).
Qed.

(** The stop words, as the pattern tries them. *)
Lemma m_stop_alts : forall ws c g,
  forallb (fun w => negb (String.eqb w EmptyString)) ws = true ->
  match m true (stop_alts ws) accept c g with
  | Some (c', g') =>
      g' = g
      /\ (match after c with d :: _ => is_digit d | [] => false end
          || existsb (fun w => starts_ci (list_ascii_of_string w) (after c)) ws)
         = true
  | None =>
      (match after c with d :: _ => is_digit d | [] => false end
       || existsb (fun w => starts_ci (list_ascii_of_string w) (after c)) ws)
      = false
  end.
Proof.
  induction ws as [|w ws IH]; intros c g Hw.
  - cbn [stop_alts m existsb]. unfold step. rewrite orb_false_r.
    destruct (after c) as [|d rest]; [reflexivity|].
    rewrite digit_class. destruct (is_digit d); [|reflexivity].
    now split.
  - cbn [forallb] in Hw. apply andb_true_iff in Hw as [Hn Hw].
    cbn [stop_alts m existsb]. rewrite m_lit_seq.
    + destruct (starts_ci (list_ascii_of_string w) (after c)).
      * cbn [accept]. unfold accept. split; [reflexivity|].
        cbn [orb]. now rewrite orb_true_r.
      * specialize (IH c g Hw). cbn [orb].
        destruct (m true (stop_alts ws) accept c g) as [[c' g']|]; exact IH.
    + destruct w; [discriminate|]. discriminate.
Qed.

Lemma stop_start_spec s :
  stop_start s
  = (match s with d :: _ => is_digit d | [] => false end
     || existsb (fun w => starts_ci (list_ascii_of_string w) s)
          name_stop_words).
Proof. destruct s as [|d s]; reflexivity. Qed.

Lemma stop_start_space x rest :
  is_space x = true -> stop_start (x :: rest) = false.
Proof. destruct x as [[] [] [] [] [] [] [] []]; cbv; congruence. Qed.

Lemma m_stop c g :
  match m true (stop_alts name_stop_words) accept c g with
  | Some (c', g') => g' = g /\ stop_start (after c) = true
  | None => stop_start (after c) = false
  end.
Proof.
  rewrite stop_start_spec. apply m_stop_alts. reflexivity.
Qed.

(** White space up to the end of the text. *)
Lemma greedy_end : forall aft bef count g,
  match greedy_cls is_space 0 (fun c g => m true Eos accept c g)
          count bef aft g with
  | Some (c', g') => g' = g /\ forallb is_space aft = true
  | None => forallb is_space aft = false
  end.
Proof.
  induction aft as [|x rest IH]; intros bef count g.
  - cbn [greedy_cls Nat.leb m]. unfold at_end. cbn [after]. now split.
  - cbn [greedy_cls Nat.leb forallb m]. unfold at_end. cbn [after].
    destruct (is_space x) eqn:Sx.
    + specialize (IH (x :: bef) (S count) g).
      destruct (greedy_cls is_space 0 _ (S count) (x :: bef) rest g)
        as [[c' g']|]; [exact IH|].
      destruct rest as [|y rest]; [discriminate IH|]. exact IH.
    + destruct rest as [|y rest]; [|reflexivity].
      destruct (Ascii.eqb x (chr 10)) eqn:N; [|reflexivity].
      apply newline_space in N. congruence.
Qed.

Lemma m_alt ic r1 r2 k c g :
  m ic (Alt r1 r2) k c g
  = match m ic r1 k c g with
    | Some res => Some res
    | None => m ic r2 k c g
    end.
Proof. reflexivity. Qed.

Lemma m_cls_step ic neg its k c g :
  m ic (Cls neg its) k c g
  = match after c with
    | x :: rest =>
        if cls_match ic neg its x
        then k (mkcursor (x :: before c) rest) g else None
    | [] => None
    end.
Proof.
  cbn [m]. unfold step. destruct c as [bef aft]. cbn [after before].
  destruct aft; reflexivity.
Qed.

Lemma m_spaces_end c g :
  match m true (Seq (spaces_re 0) Eos) accept c g with
  | Some (c', g') => g' = g /\ forallb is_space (after c) = true
  | None => forallb is_space (after c) = false
  end.
Proof.
  unfold spaces_re. rewrite m_seq, m_rep_greedy.
  rewrite (@greedy_cls_ext _ _ _ _ space_class).
  apply greedy_end.
Qed.

Lemma m_spaces_stop c g :
  match m true (Seq (spaces_re 1) (stop_alts name_stop_words)) accept c g with
  | Some (c', g') =>
      g' = g
      /\ match after c with
         | x :: _ => is_space x && stop_start (lstrip_chars (after c))
         | [] => false
         end = true
  | None =>
      match after c with
      | x :: _ => is_space x && stop_start (lstrip_chars (after c))
      | [] => false
      end = false
  end.
Proof.
  unfold spaces_re. rewrite m_seq, m_rep_greedy.
  rewrite (@greedy_cls_ext _ _ _ _ space_class).
  rewrite greedy_spaces.
  - destruct (after c) as [|x rest]; [reflexivity|].
    cbn [space_run lstrip_chars]. destruct (is_space x) eqn:Sx.
    + cbn [List.length Nat.add Nat.leb andb].
      pose proof (m_stop (mkcursor (rev (x :: space_run rest) ++ before c)
                            (lstrip_chars rest)) g) as S.
      cbn [after] in S. exact S.
    + reflexivity.
  - intros bef y r g0 Sy.
    pose proof (m_stop (mkcursor bef (y :: r)) g0) as S. cbn [after] in S.
    destruct (m true (stop_alts name_stop_words) accept _ g0)
      as [[c' g']|]; [|reflexivity].
    rewrite (@stop_start_space _ _ Sy) in S. now destruct S.
Qed.

(** What ends a name, as the pattern finds it. *)
Lemma m_term c g :
  match m true term_re accept c g with
  | Some (c', g') => g' = g /\ ends_name (after c) = true
  | None => ends_name (after c) = false
  end.
Proof.
  unfold term_re, ends_name. rewrite m_alt.
  pose proof (m_spaces_end c g) as A.
  destruct (m true (Seq (spaces_re 0) Eos) accept c g) as [[c' g']|].
  { destruct A as [-> A]. rewrite A. now split. }
  rewrite A. cbn [orb]. rewrite m_alt, m_cls_step.
  pose proof (m_spaces_stop c g) as B.
  destruct (after c) as [|x rest] eqn:Ea.
  - destruct (m true (Seq (spaces_re 1) (stop_alts name_stop_words))
                accept c g) as [[c' g']|]; [now destruct B|reflexivity].
  - rewrite punct_class. destruct (is_name_punct x).
    { unfold accept. now split. }
    cbn [orb]. exact B.
Qed.

(** ** The name, as the pattern takes it *)

Lemma name_more_prefix : forall s run,
  name_more s = Some run -> exists rest, s = (run ++ rest)%list.
Proof.
  induction s as [|x s IH]; intros run H; cbn [name_more] in H.
  - destruct (ends_name []); [|discriminate].
    injection H as <-. now exists [].
  - destruct (ends_name (x :: s)).
    { injection H as <-. now exists (x :: s). }
    destruct (is_name_char x); [|discriminate].
    destruct (name_more s) as [run'|] eqn:E; [|discriminate].
    injection H as <-. destruct (IH run' eq_refl) as [rest ->].
    now exists rest.
Qed.

Lemma name_more_unfold s :
  name_more s
  = if ends_name s then Some []
    else match s with
         | c :: s' =>
             if is_name_char c then
               match name_more s' with
               | Some run => Some (c :: run)
               | None => None
               end
             else None
         | [] => None
         end.
Proof. destruct s; reflexivity. Qed.

Lemma lazy_cls_unfold p lo k count bef aft g :
  lazy_cls p lo k count bef aft g
  = match (if (lo <=? count)%nat then k (mkcursor bef aft) g else None) with
    | Some res => Some res
    | None =>
        match aft with
        | x :: rest =>
            if p x then lazy_cls p lo k (S count) (x :: bef) rest g else None
        | [] => None
        end
    end.
Proof. destruct aft; reflexivity. Qed.

(** The lazy run of the name stops at the first place where the name can
    end. *)
Lemma lazy_name p0 : forall s bef count g,
  (1 <= count)%nat ->
  match lazy_cls is_name_char 1 (name_end p0) count bef s g with
  | Some (c', g') =>
      exists run,
        name_more s = Some run
        /\ g' = (1%nat, (p0, (List.length bef + List.length run)%nat)) :: g
  | None => name_more s = None
  end.
Proof.
  induction s as [|x s IH]; intros bef count g Hc;
    rewrite lazy_cls_unfold, name_more_unfold;
    (replace (1 <=? count)%nat with true
       by (symmetry; apply Nat.leb_le; exact Hc));
    unfold name_end at 1;
    match goal with
    | |- context [m true term_re accept ?c ?g0] =>
        pose proof (m_term c g0) as T;
        destruct (m true term_re accept c g0) as [[c' g']|]
    end; cbn [after] in T.
  - destruct T as [-> T]. rewrite T. exists []. split; [reflexivity|].
    unfold pos. cbn [before List.length]. now rewrite Nat.add_0_r.
  - rewrite T. reflexivity.
  - destruct T as [-> T]. rewrite T. exists []. split; [reflexivity|].
    unfold pos. cbn [before List.length]. now rewrite Nat.add_0_r.
  - rewrite T. destruct (is_name_char x); [|reflexivity].
    specialize (IH (x :: bef) (S count) g ltac:(lia)).
    destruct (lazy_cls is_name_char 1 (name_end p0) (S count) (x :: bef) s g)
      as [[c' g']|].
    + destruct IH as (run & -> & ->). exists (x :: run).
      split; [reflexivity|]. cbn [List.length].
      now rewrite Nat.add_succ_r.
    + now rewrite IH.
Qed.

Lemma m_name_here bef s g :
  match m true name_re (name_end (List.length bef)) (mkcursor bef s) g with
  | Some (c', g') =>
      exists cap,
        name_here s = Some cap
        /\ g' = (1%nat, (List.length bef,
                         (List.length bef + List.length cap)%nat)) :: g
  | None => name_here s = None
  end.
Proof.
  unfold name_re. rewrite m_seq, m_cls_step. cbn [after before].
  destruct s as [|x s]; [reflexivity|].
  rewrite name_start_class. unfold name_here.
  destruct (is_name_start x); cbn [andb];
    [|destruct s; reflexivity].
  rewrite m_rep_lazy. cbn [after before].
  rewrite (@lazy_cls_ext _ _ _ _ name_char_class).
  rewrite lazy_cls_unfold. cbn [Nat.leb].
  destruct s as [|c s]; [reflexivity|].
  destruct (is_name_char c); [|reflexivity].
  pose proof (@lazy_name (List.length bef) s (c :: x :: bef) 1 g
                ltac:(lia)) as L.
  destruct (lazy_cls is_name_char 1 _ 1 (c :: x :: bef) s g) as [[c' g']|].
  - destruct L as (run & -> & ->). exists (x :: c :: run).
    split; [reflexivity|]. cbn [List.length].
    match goal with
    | |- (_, (_, ?X)) :: _ = (_, (_, ?Y)) :: _ =>
        replace X with Y by lia
    end. reflexivity.
  - now rewrite L.
Qed.

Lemma name_here_prefix s cap :
  name_here s = Some cap -> exists rest, s = (cap ++ rest)%list.
Proof.
  unfold name_here. destruct s as [|x [|c s]]; try discriminate.
  destruct (is_name_start x && is_name_char c); [|discriminate].
  destruct (name_more s) as [run|] eqn:E; [|discriminate].
  intros H. injection H as <-.
  destruct (name_more_prefix _ E) as [rest ->]. now exists rest.
Qed.

Lemma name_here_space x rest :
  is_space x = true -> name_here (x :: rest) = None.
Proof.
  intros Sx. unfold name_here. destruct rest as [|c s]; [reflexivity|].
  replace (is_name_start x) with false; [reflexivity|].
  revert Sx. destruct x as [[] [] [] [] [] [] [] []]; cbv; congruence.
Qed.

Lemma lit_a x : lit_match true "a" x = Ascii.eqb (lower_char x) "a".
Proof. destruct x as [[] [] [] [] [] [] [] []]; reflexivity. Qed.

Lemma lit_t x : lit_match true "t" x = Ascii.eqb (lower_char x) "t".
Proof. destruct x as [[] [] [] [] [] [] [] []]; reflexivity. Qed.

Lemma a_is_word x : Ascii.eqb (lower_char x) "a" = true -> is_word x = true.
Proof. destruct x as [[] [] [] [] [] [] [] []]; cbv; congruence. Qed.

Lemma m_lit_step ic a k c g :
  m ic (Lit a) k c g
  = match after c with
    | x :: rest =>
        if lit_match ic a x
        then k (mkcursor (x :: before c) rest) g else None
    | [] => None
    end.
Proof.
  cbn [m]. unfold step. destruct c as [bef aft]. cbn [after before].
  destruct aft; reflexivity.
Qed.

(** The name and what ends it, at a cursor: the capture is the name of
    the description. *)
Lemma m_name_term bef s g :
  match m true (Seq (Group 1 name_re) term_re) accept (mkcursor bef s) g with
  | Some (c', g') =>
      exists cap,
        name_here s = Some cap
        /\ g' = (1%nat, (List.length bef,
                         (List.length bef + List.length cap)%nat)) :: g
  | None => name_here s = None
  end.
Proof.
  rewrite m_seq, m_group. apply m_name_here.
Qed.

(** The whole pattern at a cursor. *)
Lemma m_at_here bef aft :
  match m true at_re accept (mkcursor bef aft) [] with
  | Some (c', g') =>
      exists cap pre rest,
        at_name_here (hd_error bef) aft = Some cap
        /\ g' = [(1%nat, (List.length pre,
                          (List.length pre + List.length cap)%nat))]
        /\ (rev bef ++ aft = pre ++ cap ++ rest)%list
  | None => at_name_here (hd_error bef) aft = None
  end.
Proof.
  unfold at_re. rewrite m_seq.
  change (m true Bow ?k ?c ?g) with (if at_boundary c then k c g else None).
  unfold at_boundary.
  cbn [before after]. unfold at_name_here.
  destruct aft as [|a aft].
  { destruct (xorb _ _); [|reflexivity]. now rewrite m_seq, m_lit_step. }
  destruct (Ascii.eqb (lower_char a) "a") eqn:Ea.
  2:{ rewrite andb_false_r. cbn [andb].
      assert (N : m true
                (Seq (Lit "a")
                   (Seq (Lit "t")
                      (Seq (spaces_re 1) (Seq (Group 1 name_re) term_re))))
                accept (mkcursor bef (a :: aft)) [] = None).
      { rewrite m_seq, m_lit_step. cbn [after]. now rewrite lit_a, Ea. }
      rewrite N. destruct (xorb _ _); destruct aft as [|t [|sp r]];
        reflexivity. }
  cbn [word_at]. rewrite (a_is_word _ Ea).
  replace (word_at bef)
    with (match hd_error bef with Some p => is_word p | None => false end)
    by (destruct bef; reflexivity).
  destruct (match hd_error bef with Some p => is_word p | None => false end).
  { cbn [xorb negb andb]. destruct aft as [|t [|sp r]]; reflexivity. }
  cbn [xorb negb andb].
  rewrite m_seq, m_lit_step. cbn [after before]. rewrite lit_a, Ea.
  rewrite m_seq, m_lit_step. cbn [after before].
  destruct aft as [|t aft]; [reflexivity|].
  rewrite lit_t. destruct (Ascii.eqb (lower_char t) "t"); cbn [andb];
    [|destruct aft; reflexivity].
  unfold spaces_re. rewrite m_seq, m_rep_greedy. cbn [after before].
  rewrite (@greedy_cls_ext _ _ _ _ space_class).
  rewrite greedy_spaces.
  2:{ intros bef0 y r g0 Sy.
      pose proof (m_name_term bef0 (y :: r) g0) as N.
      destruct (m true (Seq (Group 1 name_re) term_re) accept _ g0)
        as [[c' g']|]; [|reflexivity].
      destruct N as (cap & N & _). now rewrite (@name_here_space _ _ Sy) in N. }
  destruct aft as [|sp r]; [reflexivity|].
  cbn [space_run lstrip_chars]. destruct (is_space sp) eqn:Ssp;
    [|reflexivity].
  cbn [List.length Nat.add Nat.leb].
  pose proof (m_name_term (rev (sp :: space_run r) ++ [t; a] ++ bef)
                (lstrip_chars r) []) as N.
  cbn [app] in N.
  destruct (m true (Seq (Group 1 name_re) term_re) accept _ [])
    as [[c' g']|]; [|exact N].
  destruct N as (cap & N & ->).
  destruct (name_here_prefix _ N) as [rest Hrest].
  exists cap, (rev (rev (sp :: space_run r) ++ t :: a :: bef)), rest.
  split; [exact N|]. rewrite length_rev. split; [reflexivity|].
  rewrite rev_app_distr, rev_involutive. cbn [rev].
  rewrite <- !app_assoc. cbn [app]. do 4 f_equal.
  rewrite <- Hrest. apply space_run_split.
Qed.

(** The leftmost match of the pattern. *)
Lemma scan_at : forall aft bef,
  match scan true at_re bef aft with
  | Some (a, c, g) =>
      exists cap pre rest,
        first_at_name (hd_error bef) aft = Some cap
        /\ g = [(1%nat, (List.length pre,
                         (List.length pre + List.length cap)%nat))]
        /\ (rev bef ++ aft = pre ++ cap ++ rest)%list
  | None => first_at_name (hd_error bef) aft = None
  end.
Proof.
  induction aft as [|x aft IH]; intros bef; cbn [scan first_at_name];
    pose proof (m_at_here bef) as H.
  - specialize (H []).
    destruct (m true at_re accept (mkcursor bef []) []) as [[c' g']|].
    + destruct H as (cap & pre & rest & -> & -> & E).
      now exists cap, pre, rest.
    + now rewrite H.
  - specialize (H (x :: aft)).
    destruct (m true at_re accept (mkcursor bef (x :: aft)) [])
      as [[c' g']|].
    + destruct H as (cap & pre & rest & -> & -> & E).
      now exists cap, pre, rest.
    + rewrite H. specialize (IH (x :: bef)). cbn [hd_error rev] in IH.
      rewrite <- app_assoc in IH. exact IH.
Qed.

Lemma slice_middle (pre cap rest : chars) :
  slice (pre ++ cap ++ rest) (List.length pre)
    (List.length pre + List.length cap)
  = string_of_list_ascii cap.
Proof.
  unfold slice. rewrite skipn_app, Nat.sub_diag, skipn_all. cbn [skipn app].
  replace (List.length pre + List.length cap - List.length pre)%nat
    with (List.length cap) by lia.
  now rewrite firstn_app, Nat.sub_diag, firstn_all, firstn_O, app_nil_r.
Qed.

(** The capture of the "at" pattern is the name of the description, for
    every text. *)
Lemma at_capture text :
  option_map (fun mt => group_str mt 1) (Re.search_i at_pattern text)
  = first_name_after_at text.
Proof.
  unfold first_name_after_at, Re.search_i, search_re. rewrite at_pattern_parts.
  pose proof (scan_at (list_ascii_of_string text) []) as H.
  cbn [hd_error rev app] in H.
  destruct (scan true at_re [] (list_ascii_of_string text))
    as [[[a c] g]|].
  - destruct H as (cap & pre & rest & -> & -> & E).
    cbn [option_map]. unfold group_str, group.
    cbn [m_caps m_subject span_of Nat.eqb]. rewrite E.
    now rewrite slice_middle.
  - rewrite H. reflexivity.
Qed.

Lemma at_name_spec text :
  at_name text
  = match first_name_after_at text with
    | Some cap =>
        let name := PyStr.strip cap in
        if negb (in_noise (PyStr.lower name)) then Some name else None
    | None => None
    end.
Proof.
  unfold at_name. rewrite <- at_capture.
  destruct (Re.search_i at_pattern text) as [mt|]; reflexivity.
Qed.

End AtFacts.

(** ** The time phrases the lone-digit rule leaves out *)

Module TimeFacts.
Import PyStr Re NlpParser Props ReFacts RepProps RepFacts NameProps AtFacts
  TimeProps.

Lemma time_pattern_parts :
  compile "\b\d{1,2}(?::\d{2})?\s*(?:am|pm)\b" = time_re.
Proof. vm_compute. reflexivity. Qed.

(** ** Cursors *)

Lemma advance_0 c : advance 0 c = c.
Proof. destruct c. reflexivity. Qed.

Lemma advance_nil n bef : advance n (mkcursor bef []) = mkcursor bef [].
Proof.
  unfold advance. cbn [after before]. now rewrite firstn_nil, skipn_nil.
Qed.

Lemma advance_cons n bef x s :
  advance (S n) (mkcursor bef (x :: s)) = advance n (mkcursor (x :: bef) s).
Proof.
  unfold advance. cbn [after before firstn skipn rev].
  now rewrite <- app_assoc.
Qed.

Lemma advance_add : forall a b c,
  advance b (advance a c) = advance (a + b) c.
Proof.
  induction a as [|a IH]; intros b [bef s].
  - now rewrite advance_0.
  - destruct s as [|x s].
    + now rewrite !advance_nil.
    + cbn [Nat.add]. rewrite !advance_cons. apply IH.
Qed.

Lemma advance_run pre : forall bef s n,
  advance n (mkcursor (rev pre ++ bef) s)
  = advance (List.length pre + n) (mkcursor bef (pre ++ s)).
Proof.
  induction pre as [|x pre IH]; intros bef s n; [reflexivity|].
  cbn [List.length Nat.add app rev]. rewrite advance_cons, <- IH.
  now rewrite <- app_assoc.
Qed.

Lemma after_advance n c : after (advance n c) = skipn n (after c).
Proof. reflexivity. Qed.

(** ** The parts of the pattern *)

Lemma lit_p x : lit_match true "p" x = Ascii.eqb (lower_char x) "p".
Proof. destruct x as [[] [] [] [] [] [] [] []]; reflexivity. Qed.

Lemma lit_m x : lit_match true "m" x = Ascii.eqb (lower_char x) "m".
Proof. destruct x as [[] [] [] [] [] [] [] []]; reflexivity. Qed.

Lemma lit_colon x : lit_match true ":" x = Ascii.eqb x ":".
Proof. destruct x as [[] [] [] [] [] [] [] []]; reflexivity. Qed.

Lemma m_is_word x : Ascii.eqb (lower_char x) "m" = true -> is_word x = true.
Proof. destruct x as [[] [] [] [] [] [] [] []]; cbv; congruence. Qed.

Lemma digit_is_word x : is_digit x = true -> is_word x = true.
Proof. destruct x as [[] [] [] [] [] [] [] []]; cbv; congruence. Qed.

Lemma m_bow_step ic k c g :
  m ic Bow k c g = if at_boundary c then k c g else None.
Proof. reflexivity. Qed.

(** The meridiem. *)
Lemma m_meridiem c g :
  m true meridiem_re accept c g
  = if meridiem_here (after c) then Some (advance 2 c, g) else None.
Proof.
  unfold meridiem_re. rewrite m_seq, m_alt, !m_seq, !m_lit_step.
  destruct c as [bef s]. cbn [after before]. unfold meridiem_here.
  destruct s as [|x [|y r]]; [reflexivity| |].
  - rewrite lit_a, lit_p. now destruct (_ =? "a")%char, (_ =? "p")%char.
  - rewrite !m_lit_step. cbn [after before].
    rewrite lit_a, lit_p, lit_m, !m_bow_step. unfold at_boundary, accept.
    cbn [after before word_at].
    rewrite advance_cons, advance_cons, advance_0.
    destruct (lower_char y =? "m")%char eqn:Em.
    + rewrite (@m_is_word _ Em). cbn [xorb].
      destruct (word_at r); cbn [negb xorb];
        now destruct (_ =? "a")%char, (_ =? "p")%char.
    + now destruct (_ =? "a")%char, (_ =? "p")%char.
Qed.

Lemma meridiem_space x r : is_space x = true -> meridiem_here (x :: r) = false.
Proof.
  intros S. unfold meridiem_here. destruct r as [|y r]; [reflexivity|].
  replace ((lower_char x =? "a")%char || (lower_char x =? "p")%char)
    with false; [reflexivity|].
  revert S. destruct x as [[] [] [] [] [] [] [] []]; cbv; congruence.
Qed.

(** White space and the meridiem. *)
Lemma m_spaces_meridiem c g :
  m true (Seq (spaces_re 0) meridiem_re) accept c g
  = if meridiem_here (lstrip_chars (after c))
    then Some (advance (List.length (space_run (after c)) + 2) c, g)
    else None.
Proof.
  unfold spaces_re. rewrite m_seq, m_rep_greedy.
  rewrite (@greedy_cls_ext _ _ _ _ space_class).
  rewrite greedy_spaces.
  - cbn [Nat.leb]. rewrite m_meridiem. cbn [after].
    destruct (meridiem_here _); [|reflexivity].
    rewrite advance_run. destruct c as [bef s]. cbn [after before].
    now rewrite <- space_run_split.
  - intros bef x r g0 Sx. rewrite m_meridiem. cbn [after].
    now rewrite (@meridiem_space _ _ Sx).
Qed.

Lemma ltb_S1 n : (n <? S n)%nat = true.
Proof. apply Nat.ltb_lt. lia. Qed.

Lemma ltb_S3 n : (n <? S (S (S n)))%nat = true.
Proof. apply Nat.ltb_lt. lia. Qed.

Ltac closed_nums :=
  repeat match goal with
  | |- context [Nat.ltb ?a ?b] =>
      let v := eval cbv in (Nat.ltb a b) in
      match v with
      | true => change (Nat.ltb a b) with true
      | false => change (Nat.ltb a b) with false
      end
  | |- context [Nat.leb ?a ?b] =>
      let v := eval cbv in (Nat.leb a b) in
      match v with
      | true => change (Nat.leb a b) with true
      | false => change (Nat.leb a b) with false
      end
  end.

Ltac rep_step :=
  cbn [m rep_loop List.length after before]; unfold step, pos;
  cbn [after before List.length]; rewrite ?ltb_S1, ?ltb_S3;
  closed_nums; cbn [m rep_loop List.length after before].

(** The minutes, if they are there. *)
Lemma m_minutes k c g :
  (forall bef x r g0, Ascii.eqb x ":" = true ->
                      k (mkcursor bef (x :: r)) g0 = None) ->
  m true minutes_re k c g = k (advance (minute_part (after c)) c) g.
Proof.
  intros Hk. unfold minutes_re. destruct c as [bef s].
  unfold minute_part. cbn [after].
  destruct s as [|x s]; [rep_step; now rewrite advance_0|].
  rep_step.
  rewrite lit_colon. destruct (x =? ":")%char eqn:Ex; cbn [andb].
  2:{ destruct s as [|? [|? ?]]; now rewrite advance_0. }
  destruct s as [|e1 s]; [rep_step; now rewrite advance_0|].
  rep_step. rewrite digit_class.
  destruct (is_digit e1); cbn [andb].
  2:{ destruct s; now rewrite advance_0. }
  destruct s as [|e2 s]; [rep_step; now rewrite advance_0|].
  rep_step. rewrite digit_class.
  destruct (is_digit e2); cbn [andb]; [|now rewrite advance_0].
  rep_step. rewrite !advance_cons, advance_0, (Hk _ _ _ _ Ex).
  now destruct (k _ g).
Qed.

(** The hour: two digits where there are two. *)
Lemma m_hour k c g :
  (forall bef x r g0, is_digit x = true ->
                      k (mkcursor bef (x :: r)) g0 = None) ->
  m true hour_re k c g
  = if (0 <? hour_digits (after c))%nat
    then k (advance (hour_digits (after c)) c) g else None.
Proof.
  intros Hk. unfold hour_re. destruct c as [bef s].
  unfold hour_digits. cbn [after].
  destruct s as [|d1 s]; [rep_step; reflexivity|].
  rep_step. rewrite digit_class. destruct (is_digit d1); [|reflexivity].
  destruct s as [|d2 s].
  { rep_step. rewrite advance_cons, advance_0. now destruct (k _ g). }
  rep_step. rewrite digit_class. destruct (is_digit d2) eqn:E2.
  - rep_step. rewrite !advance_cons, advance_0, (Hk _ _ _ _ E2).
    now destruct (k _ g).
  - rewrite advance_cons, advance_0. cbn [Nat.ltb Nat.leb].
    now destruct (k _ g).
Qed.

Lemma minute_part_digit x r :
  is_digit x = true -> minute_part (x :: r) = 0%nat.
Proof.
  intros D. unfold minute_part. destruct r as [|e1 [|e2 r]]; try reflexivity.
  replace (x =? ":")%char with false; [reflexivity|].
  revert D. destruct x as [[] [] [] [] [] [] [] []]; cbv; congruence.
Qed.

Lemma lstrip_not_space x r :
  is_space x = false -> lstrip_chars (x :: r) = x :: r.
Proof. intros S. cbn [lstrip_chars]. now rewrite S. Qed.

Lemma digit_not_space x : is_digit x = true -> is_space x = false.
Proof. destruct x as [[] [] [] [] [] [] [] []]; cbv; congruence. Qed.

Lemma colon_not_space x : (x =? ":")%char = true -> is_space x = false.
Proof. destruct x as [[] [] [] [] [] [] [] []]; cbv; congruence. Qed.

Lemma meridiem_digit x r : is_digit x = true -> meridiem_here (x :: r) = false.
Proof.
  intros D. unfold meridiem_here. destruct r as [|y r]; [reflexivity|].
  replace ((lower_char x =? "a")%char || (lower_char x =? "p")%char)
    with false; [reflexivity|].
  revert D. destruct x as [[] [] [] [] [] [] [] []]; cbv; congruence.
Qed.

Lemma meridiem_colon x r :
  (x =? ":")%char = true -> meridiem_here (x :: r) = false.
Proof.
  intros D. unfold meridiem_here. destruct r as [|y r]; [reflexivity|].
  replace ((lower_char x =? "a")%char || (lower_char x =? "p")%char)
    with false; [reflexivity|].
  revert D. destruct x as [[] [] [] [] [] [] [] []]; cbv; congruence.
Qed.

(** The minutes, the white space and the meridiem. *)
Lemma m_minutes_tail c g :
  m true (Seq minutes_re (Seq (spaces_re 0) meridiem_re)) accept c g
  = let c1 := advance (minute_part (after c)) c in
    if meridiem_here (lstrip_chars (after c1))
    then Some (advance (List.length (space_run (after c1)) + 2) c1, g)
    else None.
Proof.
  rewrite m_seq, m_minutes.
  - apply m_spaces_meridiem.
  - intros bef x r g0 Ex. rewrite m_spaces_meridiem. cbn [after].
    rewrite (@lstrip_not_space _ _ (@colon_not_space _ Ex)).
    now rewrite (@meridiem_colon _ _ Ex).
Qed.

(** The pattern of the time phrases at a cursor. *)
Lemma m_time_here bef aft :
  m true time_re accept (mkcursor bef aft) []
  = match time_phrase_at (hd_error bef) aft with
    | Some n => Some (advance n (mkcursor bef aft), [])
    | None => None
    end.
Proof.
  unfold time_re. rewrite m_seq, m_bow_step. unfold at_boundary.
  cbn [before after]. unfold time_phrase_at, time_phrase. cbv zeta.
  rewrite m_seq, m_hour.
  2:{ intros bef0 x r g0 Dx. rewrite m_minutes_tail. cbv zeta.
      cbn [after]. rewrite (@minute_part_digit _ _ Dx), advance_0.
      cbn [after]. rewrite (@lstrip_not_space _ _ (@digit_not_space _ Dx)).
      now rewrite (@meridiem_digit _ _ Dx). }
  cbn [after].
  replace (word_at bef)
    with (match hd_error bef with Some p => is_word p | None => false end)
    by (destruct bef; reflexivity).
  destruct (hour_digits aft) as [|h] eqn:Eh.
  { cbn [Nat.ltb Nat.leb andb].
    now destruct (xorb _ _),
      (match hd_error bef with Some p => is_word p | None => false end). }
  assert (W : word_at aft = true).
  { unfold hour_digits in Eh. destruct aft as [|d1 r]; [discriminate|].
    cbn [word_at]. destruct (is_digit d1) eqn:D; [|discriminate].
    now apply digit_is_word. }
  rewrite W. change (0 <? S h)%nat with true. cbn [andb].
  destruct (match hd_error bef with Some p => is_word p | None => false end);
    [reflexivity|].
  cbn [xorb]. rewrite m_minutes_tail. cbv zeta.
  rewrite !after_advance. cbn [after].
  destruct (meridiem_here _); [|reflexivity].
  rewrite !advance_add. do 3 f_equal. lia.
Qed.

(** ** The substitution *)

Lemma time_phrase_pos prev s n :
  time_phrase_at prev s = Some n -> exists n', n = S n'.
Proof.
  unfold time_phrase_at, time_phrase. cbv zeta.
  destruct (match prev with Some p => is_word p | None => false end);
    [discriminate|].
  destruct (_ && _); [|discriminate].
  intros [= <-]. eexists. rewrite Nat.add_comm. reflexivity.
Qed.

Lemma scan_from ic r : forall aft bef a c g,
  scan ic r bef aft = Some (a, c, g) -> (List.length bef <= a)%nat.
Proof.
  induction aft as [|x aft IH]; intros bef a c g; cbn [scan];
    destruct (m ic r accept _ []) as [[c' g']|].
  - intros [= <- _ _]. lia.
  - discriminate.
  - intros [= <- _ _]. lia.
  - intros H. apply IH in H. cbn [List.length] in H. lia.
Qed.

Lemma matches_from_first fuel ic r c a b sp :
  matches_from fuel ic r c = (a, b) :: sp -> (pos c <= a <= b)%nat.
Proof.
  destruct fuel as [|fuel]; [discriminate|]. cbn [matches_from].
  destruct (scan ic r (before c) (after c)) as [[[a0 c'] g]|] eqn:E;
    [|discriminate].
  apply scan_from in E. unfold pos.
  destruct (a0 <? List.length (before c'))%nat eqn:L.
  - intros [= <- <- _]. apply Nat.ltb_lt in L. lia.
  - intros [= <- <- _]. lia.
Qed.

Lemma cut_cons at_ sp x s :
  (forall a b sp', sp = (a, b) :: sp' -> (S at_ <= a <= b)%nat) ->
  cut at_ sp (x :: s) = x :: cut (S at_) sp s.
Proof.
  destruct sp as [|[a b] sp']; [reflexivity|]. intros H.
  destruct (H a b sp' eq_refl) as [Ha Hb]. cbn [cut].
  replace (a - at_)%nat with (S (a - S at_)) by lia.
  replace (b - at_)%nat with (S (b - S at_)) by lia.
  reflexivity.
Qed.

Lemma strip_skip : forall s n bef,
  strip_times n (hd_error bef) s
  = strip_times 0 (hd_error (before (advance n (mkcursor bef s))))
      (after (advance n (mkcursor bef s))).
Proof.
  induction s as [|x s IH]; intros n bef.
  - rewrite advance_nil. reflexivity.
  - destruct n as [|n]; [now rewrite advance_0|].
    rewrite advance_cons, <- IH. reflexivity.
Qed.

Lemma skipn_firstn_length (A : Type) : forall n (s : list A),
  skipn (List.length (firstn n s)) s = skipn n s.
Proof.
  induction n as [|n IH]; intros [|x s]; cbn; auto.
Qed.

Lemma length_skipn_le (A : Type) n (s : list A) :
  (List.length (skipn n s) <= List.length s)%nat.
Proof. rewrite length_skipn. lia. Qed.

(** Cutting out the matches of the pattern is dropping the time phrases,
    from any cursor. *)
Lemma cut_times : forall N aft bef fuel,
  (List.length aft <= N)%nat ->
  (List.length aft < fuel)%nat ->
  cut (List.length bef)
    (matches_from fuel true time_re (mkcursor bef aft)) aft
  = strip_times 0 (hd_error bef) aft.
Proof.
  induction N as [|N IH]; intros aft bef fuel HN Hf;
    (destruct fuel as [|fuel]; [lia|]);
    destruct aft as [|x aft]; try (cbn [List.length] in HN; lia).
  - cbn [matches_from before after scan]. rewrite m_time_here.
    cbn [strip_times]. unfold time_phrase_at, time_phrase. cbv zeta.
    cbn [hour_digits Nat.ltb Nat.leb andb].
    now destruct
      (match hd_error bef with Some p => is_word p | None => false end).
  - cbn [matches_from before after scan]. rewrite m_time_here.
    cbn [strip_times]. unfold time_phrase_at, time_phrase. cbv zeta.
    cbn [hour_digits Nat.ltb Nat.leb andb].
    now destruct
      (match hd_error bef with Some p => is_word p | None => false end).
  - cbn [List.length] in HN, Hf.
    cbn [strip_times].
    destruct (time_phrase_at (hd_error bef) (x :: aft)) as [n|] eqn:E.
    + destruct (time_phrase_pos _ _ E) as [n' ->].
      cbn [matches_from before after scan]. rewrite m_time_here, E.
      rewrite advance_cons.
      set (c' := advance n' (mkcursor (x :: bef) aft)).
      assert (Hp : pos c'
                   = (S (List.length bef)
                      + List.length (firstn n' aft))%nat).
      { unfold c', advance, pos. cbn [before after].
        rewrite length_app, length_rev. cbn [List.length]. lia. }
      replace (List.length bef <? pos c')%nat with true
        by (symmetry; apply Nat.ltb_lt; lia).
      cbn [cut]. rewrite Nat.sub_diag. cbn [firstn app].
      replace (pos c' - List.length bef)%nat
        with (S (List.length (firstn n' aft))) by lia.
      cbn [skipn]. rewrite skipn_firstn_length.
      change (strip_times n' (Some x) aft)
        with (strip_times n' (hd_error (x :: bef)) aft).
      rewrite (strip_skip aft n' (x :: bef)). fold c'.
      destruct c' as [bef' aft'] eqn:Ec. cbn [before after].
      assert (Ea : aft' = skipn n' aft).
      { change aft' with (after (mkcursor bef' aft')). rewrite <- Ec.
        reflexivity. }
      rewrite <- Ea.
      change (pos {| before := bef'; after := aft' |})
        with (List.length bef').
      apply IH.
      * rewrite Ea. pose proof (length_skipn_le n' aft). lia.
      * rewrite Ea. pose proof (length_skipn_le n' aft). lia.
    + assert (M : matches_from (S fuel) true time_re (mkcursor bef (x :: aft))
                  = matches_from (S fuel) true time_re
                      (mkcursor (x :: bef) aft)).
      { cbn [matches_from before after]. cbn [scan].
        rewrite m_time_here, E. reflexivity. }
      rewrite M, cut_cons.
      * f_equal. apply (IH aft (x :: bef) (S fuel)); lia.
      * intros a b sp' Hs. apply matches_from_first in Hs.
        unfold pos in Hs. cbn [before List.length] in Hs. exact Hs.
Qed.

(** Removing the matches of the pattern is dropping the time phrases. *)
Lemma sub_times s :
  Re.sub_empty_i "\b\d{1,2}(?::\d{2})?\s*(?:am|pm)\b" s = without_times s.
Proof.
  unfold without_times, Re.sub_empty_i, sub_empty_re, spans.
  cbv zeta. rewrite time_pattern_parts. f_equal.
  apply (@cut_times (List.length (list_ascii_of_string s)) _ [] _); lia.
Qed.

End TimeFacts.

(** ** The calendar *)

Module DatetimeFacts.
Import Datetime Props.

Lemma all_from_spec fuel : forall z p,
  all_from fuel z p = true ->
  forall i, z <= i < z + Z.of_nat fuel -> p i = true.
Proof.
  induction fuel as [|k IH]; intros z p H i Hi.
  - simpl in Hi. lia.
  - simpl in H. apply andb_true_iff in H as [Hz Hk].
    destruct (Z.eq_dec i z) as [->|Hne]; [assumption|].
    apply (IH (z + 1) p Hk). lia.
Qed.

Lemma cycle_checked : all_from (Z.to_nat _DI400Y) 0 cycle_ok = true.
Proof. vm_cast_no_check (eq_refl true). Qed.

Lemma is_leap_shift y q : _is_leap (y + 400 * q) = _is_leap y.
Proof.
  unfold _is_leap.
  replace ((y + 400 * q) mod 4) with (y mod 4) by (Z.div_mod_to_equations; lia).
  replace ((y + 400 * q) mod 100) with (y mod 100) by (Z.div_mod_to_equations; lia).
  replace ((y + 400 * q) mod 400) with (y mod 400) by (Z.div_mod_to_equations; lia).
  reflexivity.
Qed.

Lemma days_before_year_shift y q :
  _days_before_year (y + 400 * q) = _days_before_year y + _DI400Y * q.
Proof.
  unfold _days_before_year, _DI400Y. cbv zeta.
  Z.div_mod_to_equations. lia.
Qed.

Lemma ord2ymd_shift q r :
  0 <= r < _DI400Y ->
  _ord2ymd (q * _DI400Y + r + 1) =
    let '(y, m, d) := _ord2ymd (r + 1) in (y + 400 * q, m, d).
Proof.
  intros Hr. unfold _ord2ymd. cbv zeta.
  replace (q * _DI400Y + r + 1 - 1) with (r + q * _DI400Y) by ring.
  replace (r + 1 - 1) with r by ring.
  rewrite Z.div_add, Z_mod_plus_full by (unfold _DI400Y; lia).
  rewrite (Z.div_small r), (Z.mod_small r) by assumption.
  repeat match goal with
         | |- context [if ?b then _ else _] => destruct b
         end;
    f_equal; try f_equal; ring.
Qed.

Lemma days_before_month_shift y q m :
  _days_before_month (y + 400 * q) m = _days_before_month y m.
Proof. unfold _days_before_month. now rewrite is_leap_shift. Qed.

Lemma days_in_month_shift y q m :
  _days_in_month (y + 400 * q) m = _days_in_month y m.
Proof. unfold _days_in_month. now rewrite is_leap_shift. Qed.

(** [fromordinal] yields a well-formed date whose ordinal is the one
    asked for. *)
Lemma ord2ymd_sound n :
  1 <= n <= _MAXORDINAL ->
  let '(y, m, d) := _ord2ymd n in
  valid_ymd y m d = true /\ _ymd2ord y m d = n.
Proof.
  intros Hn.
  assert (Hd : exists q r, 0 <= r < _DI400Y /\ 0 <= q <= 24
                           /\ n = q * _DI400Y + r + 1).
  { exists ((n - 1) / _DI400Y), ((n - 1) mod _DI400Y).
    unfold _DI400Y, _MAXORDINAL in *. Z.div_mod_to_equations. lia. }
  destruct Hd as (q & r & Hr & Hq & En). subst n.
  rewrite ord2ymd_shift by assumption.
  pose proof (@all_from_spec _ _ _ cycle_checked r) as Hc.
  rewrite Z2Nat.id in Hc by (unfold _DI400Y; lia).
  specialize (Hc ltac:(lia)). unfold cycle_ok in Hc.
  destruct (_ord2ymd (r + 1)) as [[y m] d].
  repeat (apply andb_true_iff in Hc as [Hc ?]).
  assert (Eo : _ymd2ord (y + 400 * q) m d = q * _DI400Y + r + 1).
  { unfold _ymd2ord in *. rewrite days_before_year_shift, days_before_month_shift.
    unfold _DI400Y. lia. }
  split; [|exact Eo].
  unfold valid_ymd. rewrite days_in_month_shift.
  assert (Hy : y + 400 * q <= MAXYEAR).
  { unfold _ymd2ord, _days_before_month in Eo.
    assert (0 <= nth (Z.to_nat m) _DAYS_BEFORE_MONTH 0).
    { assert (Hm : 1 <= m <= 12) by lia.
      assert (Hm' : m = 1 \/ m = 2 \/ m = 3 \/ m = 4 \/ m = 5 \/ m = 6 \/ m = 7
                    \/ m = 8 \/ m = 9 \/ m = 10 \/ m = 11 \/ m = 12) by lia.
      repeat (destruct Hm' as [-> | Hm']; [simpl; lia|]). subst m. simpl. lia. }
    assert (_days_before_year (y + 400 * q) < _MAXORDINAL).
    { destruct (_ : bool) in Eo; lia. }
    unfold _days_before_year, _MAXORDINAL, MAXYEAR in *. cbv zeta in *.
    Z.div_mod_to_equations. lia. }
  unfold MINYEAR.
  repeat (apply andb_true_iff; split); lia.
Qed.

Lemma days_before_year_succ y :
  _days_before_year (y + 1) =
    _days_before_year y + 365 + (if _is_leap y then 1 else 0).
Proof.
  unfold _days_before_year, _is_leap. cbv zeta.
  replace (y + 1 - 1) with y by ring.
  destruct (Z.eqb_spec (y mod 4) 0), (Z.eqb_spec (y mod 100) 0),
    (Z.eqb_spec (y mod 400) 0); simpl;
    Z.div_mod_to_equations; lia.
Qed.

Lemma days_before_year_mono a b :
  a <= b -> _days_before_year a <= _days_before_year b.
Proof.
  intros H. unfold _days_before_year. cbv zeta.
  Z.div_mod_to_equations. lia.
Qed.

Lemma month_cases m :
  1 <= m <= 12 ->
  m = 1 \/ m = 2 \/ m = 3 \/ m = 4 \/ m = 5 \/ m = 6 \/ m = 7
  \/ m = 8 \/ m = 9 \/ m = 10 \/ m = 11 \/ m = 12.
Proof. lia. Qed.

Ltac each_month m H :=
  let C := fresh "C" in
  pose proof (@month_cases m H) as C;
  repeat (destruct C as [-> | C]); [.. | subst m].

(** The days before a month and the days of the month add up to the days
    before the next one (to the length of the year after December). *)
Lemma days_before_month_next y m :
  1 <= m <= 12 ->
  _days_before_month y m + _days_in_month y m =
    if m =? 12 then 365 + (if _is_leap y then 1 else 0)
    else _days_before_month y (m + 1).
Proof.
  intros H. unfold _days_before_month, _days_in_month.
  each_month m H; destruct (_is_leap y); reflexivity.
Qed.

Lemma days_before_month_mono y m1 m2 :
  1 <= m1 -> m1 <= m2 -> m2 <= 12 ->
  _days_before_month y m1 <= _days_before_month y m2
  /\ _days_before_month y m2 <= 365.
Proof.
  intros H1 H12 H2. unfold _days_before_month.
  assert (Ha : 1 <= m1 <= 12) by lia. assert (Hb : 1 <= m2 <= 12) by lia.
  each_month m1 Ha; each_month m2 Hb; try lia;
    destruct (_is_leap y); simpl; lia.
Qed.

(** The ordinal is strictly increasing along the order of dates. *)
Lemma toordinal_lt d1 d2 :
  valid_date d1 = true -> valid_date d2 = true ->
  date_lt d1 d2 = true -> toordinal d1 < toordinal d2.
Proof.
  destruct d1 as [y1 m1 a1], d2 as [y2 m2 a2].
  unfold valid_date, valid_ymd, date_lt, toordinal, _ymd2ord. simpl.
  intros V1 V2 L.
  repeat (apply andb_true_iff in V1 as [V1 ?]).
  repeat (apply andb_true_iff in V2 as [V2 ?]).
  assert (M1 : 1 <= m1 <= 12) by lia. assert (M2 : 1 <= m2 <= 12) by lia.
  pose proof (@days_before_month_next y1 m1 M1) as N1.
  apply orb_true_iff in L as [L | L].
  - pose proof (days_before_year_succ y1) as Sy.
    pose proof (@days_before_year_mono (y1 + 1) y2 ltac:(lia)).
    pose proof (@days_before_month_mono y2 1 m2 ltac:(lia) ltac:(lia) ltac:(lia)) as [B _].
    change (_days_before_month y2 1) with 0 in B.
    destruct (m1 =? 12) eqn:E.
    + lia.
    + pose proof (@days_before_month_mono y1 (m1 + 1) 12 ltac:(lia) ltac:(lia) ltac:(lia)) as [B1 B2].
      assert (_days_before_month y1 12 <= 334 + (if _is_leap y1 then 1 else 0)).
      { unfold _days_before_month. simpl. destruct (_is_leap y1); lia. }
      lia.
  - apply andb_true_iff in L as [Ey L]. apply Z.eqb_eq in Ey. subst y2.
    apply orb_true_iff in L as [L | L].
    + destruct (m1 =? 12) eqn:E; [lia|].
      pose proof (@days_before_month_mono y1 (m1 + 1) m2 ltac:(lia) ltac:(lia) ltac:(lia)) as [B _].
      lia.
    + apply andb_true_iff in L as [Em L]. apply Z.eqb_eq in Em. subst m2. lia.
Qed.

Lemma valid_date_ordinal d :
  valid_date d = true -> 1 <= toordinal d.
Proof.
  destruct d as [y m a]. unfold valid_date, valid_ymd, toordinal, _ymd2ord. simpl.
  intros V. repeat (apply andb_true_iff in V as [V ?]).
  pose proof (@days_before_year_mono 1 y ltac:(unfold MINYEAR in *; lia)) as Hy.
  change (_days_before_year 1) with 0 in Hy.
  pose proof (@days_before_month_mono y 1 m ltac:(lia) ltac:(lia) ltac:(lia)) as [B _].
  change (_days_before_month y 1) with 0 in B. lia.
Qed.

(** Adding days never moves a date backwards. *)
Lemma add_days_not_before d k d' :
  valid_date d = true -> 0 <= k ->
  add_days d k = Ok d' ->
  valid_date d' = true /\ date_le d d' = true.
Proof.
  intros V Hk. unfold add_days. cbv zeta.
  destruct ((0 <? toordinal d + k) && (toordinal d + k <=? _MAXORDINAL)) eqn:R;
    [|discriminate].
  intros [= <-]. apply andb_true_iff in R as [R1 R2].
  pose proof (@ord2ymd_sound (toordinal d + k) ltac:(lia)) as S.
  unfold fromordinal. destruct (_ord2ymd (toordinal d + k)) as [[y m] a].
  destruct S as [Sv So]. split; [exact Sv|].
  unfold date_le. destruct (date_lt (mkdate y m a) d) eqn:L; [|reflexivity].
  apply toordinal_lt in L; [|exact Sv|exact V].
  unfold toordinal in L at 1. simpl in L. lia.
Qed.

Lemma add_days_in_range d k :
  valid_date d = true -> 0 <= k -> toordinal d + k <= _MAXORDINAL ->
  add_days d k = Ok (fromordinal (toordinal d + k)).
Proof.
  intros V Hk R. pose proof (@valid_date_ordinal d V).
  unfold add_days. cbv zeta.
  destruct (Z.ltb_spec 0 (toordinal d + k)); [|lia].
  destruct (Z.leb_spec (toordinal d + k) _MAXORDINAL); [reflexivity|lia].
Qed.

End DatetimeFacts.

(** ** Date extraction *)

Module DateFacts.
Import Datetime NlpParser Props DatetimeFacts.

Local Open Scope string_scope.

Lemma days_ahead_range target ref : (1 <= days_ahead_of target ref <= 7)%Z.
Proof.
  unfold days_ahead_of. cbv zeta.
  pose proof (Z.mod_pos_bound (target - ref) 7 eq_refl).
  destruct (Z.eqb_spec ((target - ref) mod 7) 0); lia.
Qed.

(** The weekday loop returns at the first entry whose name occurs, with
    the same number of days whether or not "next" precedes the name. *)
Lemma weekday_rule_find today lower entries :
  weekday_rule today lower entries =
    match find (weekday_hit lower) entries with
    | Some e =>
        Some (add_days today (days_ahead_of (snd e) (weekday today)))
    | None => None
    end.
Proof.
  induction entries as [|[name num] rest IH]; [reflexivity|].
  cbn [weekday_rule find]. unfold weekday_hit at 1. cbn [fst snd].
  destruct (found (Re.search ("\b" ++ name ++ "\b") lower)); [|exact IH].
  unfold days_ahead_of. cbv zeta.
  destruct (found (Re.search ("\bnext\s+" ++ name ++ "\b") lower));
    [|reflexivity].
  destruct (_ =? 0)%Z; [reflexivity|]. destruct (_ <? 7)%Z; reflexivity.
Qed.

Lemma parse_date_weekday clock text now e :
  no_relative_keyword (PyStr.lower text) ->
  first_weekday (PyStr.lower text) = Some e ->
  _parse_date clock text now =
    some_date (add_days (_today clock now)
                 (days_ahead_of (snd e) (weekday (_today clock now)))).
Proof.
  intros [H1 H2] Hf. unfold _parse_date. cbv zeta.
  rewrite H1, H2, weekday_rule_find.
  unfold first_weekday in Hf. rewrite Hf.
  destruct (add_days _ _); reflexivity.
Qed.

Lemma find_split (A : Type) (p : A -> bool) pre x post :
  forallb (fun a => negb (p a)) pre = true -> p x = true ->
  find p (pre ++ x :: post)%list = Some x.
Proof.
  induction pre as [|a pre IH]; simpl; intros Hpre Hx.
  - now rewrite Hx.
  - apply andb_true_iff in Hpre as [Ha Hpre].
    apply negb_true_iff in Ha. rewrite Ha. now apply IH.
Qed.

(** C1.  For every text whose lower-cased form has no "tonight", "today"
    or "tomorrow" and names a weekday, and for every reference instant,
    the extracted date is the reference date plus [days_ahead], where
    [days_ahead] is (target weekday - reference weekday) mod 7, replaced by
    7 when that is 0; a preceding "next" changes nothing (the statement
    holds whether or not "next" precedes the name).  With the reference
    Wednesday 2025-03-05: "next Friday" gives 2025-03-07, "next Saturday"
    2025-03-08, "Thursday" 2025-03-06, and the reference's own weekday,
    bare or after "next", the date seven days on.  The sum is Python's
    [today + timedelta(days=days_ahead)]. *)
Theorem weekday_date_resolution :
  (forall clock text now name target,
      no_relative_keyword (PyStr.lower text) ->
      first_weekday (PyStr.lower text) = Some (name, target) ->
      let today := _today clock now in
      let days_ahead := days_ahead_of target (weekday today) in
      _parse_date clock text now = some_date (add_days today days_ahead)
      /\ (days_ahead = 7 <-> (target - weekday today) mod 7 = 0)%Z
      /\ (days_ahead <> 7 -> days_ahead = (target - weekday today) mod 7)%Z)
  /\ _parse_date NOW "next Friday" (Some NOW) = Ok (Some (mkdate 2025 3 7))
  /\ _parse_date NOW "next Saturday" (Some NOW) = Ok (Some (mkdate 2025 3 8))
  /\ _parse_date NOW "Thursday" (Some NOW) = Ok (Some (mkdate 2025 3 6))
  /\ weekday (_today NOW (Some NOW)) = 2%Z
  /\ _parse_date NOW "Wednesday" (Some NOW) = Ok (Some (mkdate 2025 3 12))
  /\ _parse_date NOW "next Wednesday" (Some NOW) = Ok (Some (mkdate 2025 3 12)).
Proof.
  split.
  - intros clock text now name target Hk Hf today days_ahead.
    split; [exact (@parse_date_weekday clock text now _ Hk Hf)|].
    subst days_ahead. unfold days_ahead_of. cbv zeta. simpl snd.
    pose proof (Z.mod_pos_bound (target - weekday today) 7 eq_refl).
    destruct (Z.eqb_spec ((target - weekday today) mod 7) 0); lia.
  - repeat split; vm_compute; reflexivity.
Qed.

Lemma weekday_date_resolution_witness :
  no_relative_keyword (PyStr.lower "see you Fri")
  /\ first_weekday (PyStr.lower "see you Fri") = Some ("fri", 4%Z)
  /\ _parse_date NOW "see you Fri" (Some NOW) = Ok (Some (mkdate 2025 3 7)).
Proof.
  assert (Hk : no_relative_keyword (PyStr.lower "see you Fri"))
    by (split; vm_compute; reflexivity).
  assert (Hf : first_weekday (PyStr.lower "see you Fri") = Some ("fri", 4%Z))
    by (vm_compute; reflexivity).
  split; [exact Hk|]. split; [exact Hf|].
  rewrite (proj1 (proj1 weekday_date_resolution NOW "see you Fri" (Some NOW)
                    "fri" 4%Z Hk Hf)).
  vm_compute; reflexivity.
Defined.

(** C9.  When several weekday names occur in a text (and none of
    "tonight", "today", "tomorrow"), the weekday that decides the date is
    the first entry of [_WEEKDAY_MAP], in the dictionary's order (monday,
    mon, tuesday, tue, tues, ...), whose name occurs, wherever the names
    stand in the text: "friday or monday" and "monday or friday" both give
    the Monday. *)
Theorem weekday_dictionary_order :
  (forall clock text now pre name target post,
      no_relative_keyword (PyStr.lower text) ->
      _WEEKDAY_MAP = (pre ++ (name, target) :: post)%list ->
      forallb (fun e => negb (weekday_hit (PyStr.lower text) e)) pre = true ->
      weekday_hit (PyStr.lower text) (name, target) = true ->
      let today := _today clock now in
      _parse_date clock text now =
        some_date (add_days today (days_ahead_of target (weekday today))))
  /\ map fst _WEEKDAY_MAP =
       [ "monday"; "mon"; "tuesday"; "tue"; "tues"; "wednesday"; "wed";
         "thursday"; "thu"; "thur"; "thurs"; "friday"; "fri";
         "saturday"; "sat"; "sunday"; "sun" ]
  /\ _parse_date NOW "friday" (Some NOW) = Ok (Some (mkdate 2025 3 7))
  /\ _parse_date NOW "monday" (Some NOW) = Ok (Some (mkdate 2025 3 10))
  /\ _parse_date NOW "friday or monday" (Some NOW)
     = Ok (Some (mkdate 2025 3 10))
  /\ _parse_date NOW "monday or friday" (Some NOW)
     = Ok (Some (mkdate 2025 3 10)).
Proof.
  split.
  - intros clock text now pre name target post Hk Hmap Hpre Hhit today.
    apply (@parse_date_weekday clock text now (name, target) Hk).
    unfold first_weekday. rewrite Hmap. now apply find_split.
  - repeat split; vm_compute; reflexivity.
Qed.

Lemma weekday_dictionary_order_witness :
  no_relative_keyword (PyStr.lower "sat or tue")
  /\ weekday_hit (PyStr.lower "sat or tue") ("sat", 5%Z) = true
  /\ weekday_hit (PyStr.lower "sat or tue") ("tue", 1%Z) = true
  /\ _parse_date NOW "sat or tue" (Some NOW) = Ok (Some (mkdate 2025 3 11)).
Proof.
  assert (Hk : no_relative_keyword (PyStr.lower "sat or tue"))
    by (split; vm_compute; reflexivity).
  split; [exact Hk|]. split; [vm_compute; reflexivity|].
  split; [vm_compute; reflexivity|].
  rewrite (proj1 weekday_dictionary_order NOW "sat or tue" (Some NOW)
             [("monday", 0%Z); ("mon", 0%Z); ("tuesday", 1%Z)] "tue" 1%Z
             (skipn 4 _WEEKDAY_MAP) Hk eq_refl).
  - vm_compute; reflexivity.
  - vm_compute; reflexivity.
  - vm_compute; reflexivity.
Defined.


Lemma date_lt_irrefl d : date_lt d d = false.
Proof.
  unfold date_lt. rewrite !Z.ltb_irrefl, !Z.eqb_refl. reflexivity.
Qed.

Lemma new_date_inv y m d x :
  new_date y m d = Ok x -> x = mkdate y m d.
Proof. unfold new_date. destruct (valid_ymd y m d); congruence. Qed.

Lemma new_date_raises y m d e :
  new_date y m d = Raise e -> e = ValueError.
Proof. unfold new_date. destruct (valid_ymd y m d); congruence. Qed.

(** A date built in the reference year, or in the next one when that
    falls before the reference date, is not before the reference date. *)
Lemma this_or_next_year_not_before today m d x :
  this_or_next_year today (year today) m d = Ok x ->
  date_le today x = true.
Proof.
  unfold this_or_next_year, date_le.
  destruct (new_date (year today) m d) as [d0|] eqn:E0; [|discriminate].
  destruct (date_lt d0 today) eqn:L.
  - intros E1. apply new_date_inv in E1. subst x.
    unfold date_lt. simpl.
    destruct (Z.ltb_spec (year today + 1) (year today)); [lia|].
    destruct (Z.eqb_spec (year today + 1) (year today)); [lia|].
    reflexivity.
  - intros [= <-]. now rewrite L.
Qed.

Lemma this_or_next_year_raises today y m d e :
  this_or_next_year today y m d = Raise e -> e = ValueError.
Proof.
  unfold this_or_next_year.
  destruct (new_date y m d) as [d0|e0] eqn:E0.
  - destruct (date_lt d0 today); [apply new_date_raises|discriminate].
  - intros [= <-]. eapply new_date_raises; exact E0.
Qed.

Lemma month_rule_not_before today lower entries x :
  month_rule today lower entries = Ok (Some x) ->
  date_le today x = true.
Proof.
  induction entries as [|[name num] rest IH]; [discriminate|].
  cbn [month_rule]. cbv zeta.
  destruct (match Re.search _ lower with Some mt => Some mt | None => _ end)
    as [mt|]; [|exact IH].
  destruct (this_or_next_year _ _ _ _) as [d|[]] eqn:E; try exact IH.
  - intros [= <-]. eapply this_or_next_year_not_before; exact E.
  - discriminate.
Qed.

Lemma month_rule_total today lower entries :
  exists o, month_rule today lower entries = Ok o.
Proof.
  induction entries as [|[name num] rest IH]; [now exists None|].
  cbn [month_rule]. cbv zeta.
  destruct (match Re.search _ lower with Some mt => Some mt | None => _ end)
    as [mt|]; [|exact IH].
  destruct (this_or_next_year _ _ _ _) as [d|e] eqn:E; [now exists (Some d)|].
  apply this_or_next_year_raises in E. subst e. exact IH.
Qed.

Lemma slash_guess_not_before today guesses x :
  slash_guess today guesses = Ok (Some x) ->
  date_le today x = true.
Proof.
  induction guesses as [|[mo da] rest IH]; [discriminate|].
  cbn [slash_guess].
  destruct ((1 <=? mo) && (mo <=? 12) && (1 <=? da) && (da <=? 31))%Z;
    [|exact IH].
  destruct (this_or_next_year _ _ _ _) as [d|[]] eqn:E; try exact IH.
  - intros [= <-]. eapply this_or_next_year_not_before; exact E.
  - discriminate.
Qed.

Lemma slash_guess_total today guesses :
  exists o, slash_guess today guesses = Ok o.
Proof.
  induction guesses as [|[mo da] rest IH]; [now exists None|].
  cbn [slash_guess].
  destruct ((1 <=? mo) && (mo <=? 12) && (1 <=? da) && (da <=? 31))%Z;
    [|exact IH].
  destruct (this_or_next_year _ _ _ _) as [d|e] eqn:E; [now exists (Some d)|].
  apply this_or_next_year_raises in E. subst e. exact IH.
Qed.

Lemma iso_rule_total text : exists o, iso_rule text = Ok o.
Proof.
  unfold iso_rule. destruct (Re.search _ text) as [mt|]; [|now exists None].
  destruct (new_date _ _ _) as [d|e] eqn:E; [now exists (Some d)|].
  apply new_date_raises in E. subst e. now exists None.
Qed.

(** C2, counterexample.  A date written in ISO form comes back as
    written, also when it lies before the reference date: with the
    reference 2025-03-05, "book on 2020-01-01" yields 2020-01-01. *)
Lemma iso_date_before_today :
  _parse_date NOW "book on 2020-01-01" (Some NOW)
    = Ok (Some (mkdate 2020 1 1))
  /\ date_lt (mkdate 2020 1 1) (_today NOW (Some NOW)) = true.
Proof. split; vm_compute; reflexivity. Qed.

(** C2, amended.  For every text and every well-formed reference instant,
    a date the parser finds is not before the reference date, unless it is
    the date the text spells out in ISO form YYYY-MM-DD, which the ISO rule
    returns as written. *)
Theorem parsed_date_not_before_today :
  forall clock text now d,
    valid_date (_today clock now) = true ->
    _parse_date clock text now = Ok (Some d) ->
    date_le (_today clock now) d = true \/ iso_rule text = Ok (Some d).
Proof.
  intros clock text now d V. unfold _parse_date. cbv zeta.
  set (today := _today clock now) in *.
  destruct (found (Re.search "\btonight\b|\btoday\b" _)).
  { intros [= <-]. left. unfold date_le. now rewrite date_lt_irrefl. }
  destruct (found (Re.search "\btomorrow\b" _)).
  { destruct (add_days today 1) as [d1|] eqn:E; [|discriminate].
    intros [= <-]. left.
    exact (proj2 (@add_days_not_before today 1 d1 V ltac:(lia) E)). }
  rewrite weekday_rule_find.
  destruct (find _ _WEEKDAY_MAP) as [e|].
  { destruct (add_days today _) as [d1|] eqn:E; [|discriminate].
    intros [= <-]. left.
    pose proof (days_ahead_range (snd e) (weekday today)).
    refine (proj2 (@add_days_not_before today _ d1 V _ E)). lia. }
  destruct (month_rule today _ _MONTH_MAP) as [[d1|]|] eqn:E; try discriminate.
  { intros [= <-]. left. eapply month_rule_not_before; exact E. }
  destruct (iso_rule text) as [[d1|]|] eqn:I; try discriminate.
  { intros [= <-]. now right. }
  unfold slash_rule. destruct (Re.search _ text) as [mt|]; [|discriminate].
  cbv zeta. intros S. left. eapply slash_guess_not_before; exact S.
Qed.

Lemma parsed_date_not_before_today_witness :
  valid_date (_today NOW (Some NOW)) = true
  /\ _parse_date NOW "table for 2 on 3 March" (Some NOW)
       = Ok (Some (mkdate 2026 3 3))
  /\ date_le (_today NOW (Some NOW)) (mkdate 2026 3 3) = true.
Proof.
  assert (V : valid_date (_today NOW (Some NOW)) = true) by reflexivity.
  assert (E : _parse_date NOW "table for 2 on 3 March" (Some NOW)
              = Ok (Some (mkdate 2026 3 3))) by (vm_compute; reflexivity).
  split; [exact V|]. split; [exact E|].
  destruct (parsed_date_not_before_today NOW "table for 2 on 3 March"
              (Some NOW) V E) as [H|H].
  - exact H.
  - vm_compute in H. discriminate H.
Defined.

(** Before the last week of the calendar the date extractor raises
    nothing. *)
Lemma parse_date_total clock text now :
  valid_date (_today clock now) = true ->
  (toordinal (_today clock now) + 7 <= _MAXORDINAL)%Z ->
  exists o, _parse_date clock text now = Ok o.
Proof.
  intros V R. unfold _parse_date. cbv zeta.
  set (today := _today clock now) in *.
  destruct (found (Re.search "\btonight\b|\btoday\b" _)); [now eexists|].
  destruct (found (Re.search "\btomorrow\b" _)).
  { rewrite (@add_days_in_range today _ V) by lia. now eexists. }
  rewrite weekday_rule_find.
  destruct (find _ _WEEKDAY_MAP) as [e|].
  { pose proof (days_ahead_range (snd e) (weekday today)).
    rewrite (@add_days_in_range today _ V) by lia. now eexists. }
  destruct (month_rule_total today (PyStr.lower text) _MONTH_MAP) as [[d|] ->];
    [now eexists|].
  destruct (iso_rule_total text) as [[d|] ->]; [now eexists|].
  unfold slash_rule. destruct (Re.search _ text) as [mt|]; [|now eexists].
  cbv zeta. apply slash_guess_total.
Qed.

(** Hence the entry point returns a record there, unless the party-size
    extraction raises. *)
Lemma parse_total_before_last_week clock text now :
  valid_date (_today clock now) = true ->
  (toordinal (_today clock now) + 7 <= _MAXORDINAL)%Z ->
  match _parse_party_size text with
  | Ok _ => exists req, parse_reservation_request clock text now = Ok req
  | Raise e => parse_reservation_request clock text now = Raise e
  end.
Proof.
  intros V R. unfold parse_reservation_request.
  destruct (@parse_date_total clock text now V R) as [o ->]. cbv zeta.
  destruct (_parse_party_size text); [now eexists|reflexivity].
Qed.

(** C6, the failing input.  With the last day of the calendar as the
    reference instant, [today + timedelta(days=...)] overflows in the
    "tomorrow" rule and in the weekday rule, neither of which is guarded,
    and the entry point raises [OverflowError] instead of returning a
    record. *)
Theorem parse_raises_at_calendar_end :
  valid_datetime LAST = true
  /\ parse_reservation_request LAST "tomorrow" (Some LAST)
     = Raise OverflowError
  /\ parse_reservation_request NOW "table for 2 on friday" (Some LAST)
     = Raise OverflowError.
Proof. repeat split; vm_compute; reflexivity. Qed.

End DateFacts.

(** ** Party size *)

Module PartyFacts.
Import PyStr Re NlpParser Props ReFacts CaptureFacts PyStrMore.
Import TimeProps TimeFacts.
Local Open Scope string_scope.

(** *** [int] on a run of digits *)

Lemma digit_plain c :
  is_digit c = true ->
  is_int_space c = false /\ (code c =? 45)%Z = false
  /\ (code c =? 43)%Z = false /\ (code c =? 95)%Z = false.
Proof. destruct c as [[] [] [] [] [] [] [] []]; cbv; auto; congruence. Qed.

Lemma int_digits_run : forall ds acc,
  forallb is_digit ds = true ->
  int_digits acc ds
  = Some (fold_left (fun a c => 10 * a + (code c - 48))%Z ds acc, []).
Proof.
  induction ds as [|c ds IH]; intros acc H; [reflexivity|].
  cbn [forallb] in H. apply andb_true_iff in H as [Hc H].
  cbn [int_digits fold_left]. rewrite Hc. now apply IH.
Qed.

Lemma filter_all (A : Type) (f : A -> bool) l :
  forallb f l = true -> filter f l = l.
Proof.
  induction l as [|a l IH]; [reflexivity|]. cbn [forallb filter].
  intros H. apply andb_true_iff in H as [Ha H]. rewrite Ha. f_equal. auto.
Qed.

(** [int] of a run of digits: its value, unless the run is longer than
    [int] allows. *)
Lemma int_literal_digits ds :
  ds <> [] -> forallb is_digit ds = true ->
  int_literal (string_of_list_ascii ds)
  = if (max_str_digits <? Z.of_nat (List.length ds))%Z then None
    else Some (int_chars ds).
Proof.
  intros Hn Hd. unfold int_literal.
  rewrite list_ascii_of_string_of_list_ascii, (filter_all _ _ Hd).
  destruct (max_str_digits <? _)%Z; [reflexivity|]. cbv zeta.
  destruct ds as [|c ds]; [contradiction|].
  cbn [forallb] in Hd. apply andb_true_iff in Hd as [Hc Hd].
  destruct (digit_plain _ Hc) as (H1 & H2 & H3 & _).
  cbn [skip_int_space]. rewrite H1, H2, H3, Hc.
  rewrite (int_digits_run _ _ Hd). cbn [skip_int_space].
  unfold int_chars. cbn [fold_left]. reflexivity.
Qed.

Lemma digits_in_app (a b c : chars) (s : string) :
  list_ascii_of_string s = (a ++ b ++ c)%list ->
  forallb is_digit b = true ->
  (Z.of_nat (List.length b) <= digits_in s)%Z.
Proof.
  intros E Hb. unfold digits_in. rewrite E, !filter_app, !length_app.
  rewrite (filter_all _ _ Hb). lia.
Qed.

Lemma is_digit_lower_char y : is_digit (lower_char y) = is_digit y.
Proof. destruct y as [[] [] [] [] [] [] [] []]; reflexivity. Qed.

Lemma digits_in_lower text : digits_in (PyStr.lower text) = digits_in text.
Proof.
  unfold digits_in, PyStr.lower, lower_chars.
  rewrite list_ascii_of_string_of_list_ascii. f_equal.
  induction (list_ascii_of_string text) as [|c l IH]; [reflexivity|].
  cbn [map filter]. rewrite is_digit_lower_char.
  destruct (is_digit c); cbn [List.length]; now rewrite IH.
Qed.

(** *** The structured rules *)

Lemma party_captures :
  forallb (fun p => captures_runs is_digit false (compile p)
                    && binds 1 (compile p)) party_patterns = true.
Proof. vm_compute. reflexivity. Qed.

(** A structured rule reads a run of digits of the text; it raises only
    on a run of more than 4300. *)
Lemma rule_value_cases lower pat :
  In pat party_patterns ->
  match rule_value lower pat with
  | Ok (Some n) => (1 <= n <= 20)%Z
  | Ok None => True
  | Raise e => e = ValueError /\ (max_str_digits < digits_in lower)%Z
  end.
Proof.
  intros Hin. unfold rule_value.
  destruct (Re.search pat lower) as [mt|] eqn:E; [|exact I].
  pose proof (proj1 (forallb_forall _ _) party_captures pat Hin) as Hc.
  cbv beta in Hc. apply andb_true_iff in Hc as [Hc Hb].
  destruct (@search_capture is_digit false _ 1 lower mt Hc Hb ltac:(lia) E)
    as (pre & ds & post & Es & Hn & Hd & Hg).
  unfold group_str. rewrite Hg, (int_literal_digits Hn Hd).
  pose proof (digits_in_app _ _ _ _ Es Hd) as Hl.
  destruct (Z.ltb_spec max_str_digits (Z.of_nat (List.length ds))).
  - split; [reflexivity|lia].
  - destruct (Z.leb_spec 1 (int_chars ds)), (Z.leb_spec (int_chars ds) 20);
      cbn [andb]; (exact I || lia).
Qed.

Lemma party_loop_cons lower pat rest :
  party_loop lower (pat :: rest) =
    match rule_value lower pat with
    | Ok (Some n) => Ok (Some n)
    | Ok None => party_loop lower rest
    | Raise e => Raise e
    end.
Proof.
  cbn [party_loop]. unfold rule_value.
  destruct (Re.search pat lower) as [mt|]; [|reflexivity].
  destruct (int_literal _) as [n|]; [|reflexivity].
  destruct ((1 <=? _) && (_ <=? 20))%Z; reflexivity.
Qed.

(** The loop does what the first rule that yields a value or raises
    does. *)
Lemma party_loop_first lower pre pat post :
  forallb (no_value lower) pre = true ->
  rule_value lower pat <> Ok None ->
  party_loop lower (pre ++ pat :: post)%list = rule_value lower pat.
Proof.
  induction pre as [|p pre IH]; intros Hpre Hv.
  - simpl app. rewrite party_loop_cons.
    destruct (rule_value lower pat) as [[n|]|e]; (reflexivity || contradiction).
  - simpl in Hpre. apply andb_true_iff in Hpre as [Hp Hpre].
    simpl app. rewrite party_loop_cons.
    unfold no_value in Hp.
    destruct (rule_value lower p) as [[n|]|e]; try discriminate.
    now apply IH.
Qed.

Lemma party_loop_none lower pats :
  forallb (no_value lower) pats = true ->
  party_loop lower pats = Ok None.
Proof.
  induction pats as [|p pats IH]; intros H; [reflexivity|].
  simpl in H. apply andb_true_iff in H as [Hp H].
  rewrite party_loop_cons. unfold no_value in Hp.
  destruct (rule_value lower p) as [[n|]|e]; try discriminate. now apply IH.
Qed.

(** What the loop does comes from one of its rules. *)
Lemma party_loop_cases lower : forall pats,
  (forall p, In p pats -> In p party_patterns) ->
  match party_loop lower pats with
  | Ok (Some n) => (1 <= n <= 20)%Z
  | Ok None => forallb (no_value lower) pats = true
  | Raise e => e = ValueError /\ (max_str_digits < digits_in lower)%Z
  end.
Proof.
  induction pats as [|p pats IH]; intros Hin; [reflexivity|].
  rewrite party_loop_cons.
  pose proof (@rule_value_cases lower p (Hin p (or_introl eq_refl))) as Hp.
  assert (Hin' : forall q, In q pats -> In q party_patterns)
    by (intros q Hq; apply Hin; now right).
  specialize (IH Hin').
  cbn [forallb]. unfold no_value at 1.
  destruct (rule_value lower p) as [[n|]|e]; try exact Hp.
  destruct (party_loop lower pats) as [[n|]|e]; exact IH.
Qed.

Lemma lone_class x :
  cls_match false false [IRange "2" "9"] x = between 50 57 x.
Proof. destruct x as [[] [] [] [] [] [] [] []]; reflexivity. Qed.

Lemma lone_is_word x : between 50 57 x = true -> is_word x = true.
Proof. destruct x as [[] [] [] [] [] [] [] []]; cbv; congruence. Qed.

Lemma free_side_behind p :
  free_side (Some p)
  = negb (cls_match false false [IChar ":"; IDigit] p) && negb (is_word p).
Proof. destruct p as [[] [] [] [] [] [] [] []]; reflexivity. Qed.

Lemma ahead_class y :
  cls_match false false [IDigit; IChar ":"] y
  = cls_match false false [IChar ":"; IDigit] y.
Proof. destruct y as [[] [] [] [] [] [] [] []]; reflexivity. Qed.

(** The lone-digit pattern at one position of the subject. *)
Lemma lone_digit_here bef aft :
  m false (compile "(?<![:\d])(\b[2-9]\b)(?![\d:])") accept
    (mkcursor bef aft) []
  = match aft with
    | x :: rest =>
        if between 50 57 x && free_side (hd_error bef)
           && free_side (hd_error rest)
        then Some (mkcursor (x :: bef) rest,
                   [(1%nat, (List.length bef, S (List.length bef)))])
        else None
    | [] => None
    end.
Proof.
  set (R := compile _). vm_compute in R. subst R.
  destruct aft as [|x rest].
  - destruct bef as [|p b];
      cbn [m width]; unfold back, step, at_boundary, pos;
      cbn [Nat.leb List.length skipn firstn rev app before after word_at];
      repeat match goal with
             | |- context [if ?b then _ else _] => destruct b
             end; reflexivity.
  - destruct bef as [|p b], rest as [|y r];
      cbn [m width]; unfold back, step, at_boundary, pos, accept;
      cbn [Nat.leb List.length skipn firstn rev app hd_error before after
           word_at];
      rewrite lone_class, ?ahead_class, ?free_side_behind;
      cbn [free_side];
      destruct (between 50 57 x) eqn:Hx;
      rewrite ?(lone_is_word _ Hx);
      repeat match goal with
             | |- context [cls_match false false ?l ?z] =>
                 destruct (cls_match false false l z)
             | |- context [is_word ?z] => destruct (is_word z)
             end; reflexivity.
Qed.

Lemma int_one x : PyStr.int (String x EmptyString) = (code x - 48)%Z.
Proof. unfold PyStr.int, int_chars. cbn [list_ascii_of_string fold_left]. lia. Qed.

(** The leftmost match of the lone-digit pattern is the first lone
    digit. *)
Lemma lone_scan : forall aft bef,
  match scan false (compile "(?<![:\d])(\b[2-9]\b)(?![\d:])") bef aft with
  | Some (a, c, g) =>
      exists x,
        first_lone_digit (hd_error bef) aft = Some (code x - 48)%Z
        /\ span_of 1 g = Some (a, S a)
        /\ slice (rev bef ++ aft)%list a (S a) = String x EmptyString
  | None => first_lone_digit (hd_error bef) aft = None
  end.
Proof.
  induction aft as [|x rest IH]; intros bef.
  - cbn [scan]. rewrite lone_digit_here. reflexivity.
  - cbn [scan]. rewrite lone_digit_here. cbn [first_lone_digit].
    destruct (between 50 57 x && free_side (hd_error bef)
              && free_side (hd_error rest)).
    + exists x. split; [reflexivity|]. split; [reflexivity|].
      apply slice_one.
    + specialize (IH (x :: bef)). cbn [hd_error rev] in IH.
      rewrite <- app_assoc in IH. exact IH.
Qed.

(** What the lone-digit rule finds in the stripped text. *)
Lemma lone_digit_spec lower :
  lone_digit lower
  = first_lone_digit None
      (list_ascii_of_string
         (Re.sub_empty_i "\b\d{1,2}(?::\d{2})?\s*(?:am|pm)\b" lower)).
Proof.
  unfold lone_digit. cbv zeta.
  set (stripped := Re.sub_empty_i _ lower). clearbody stripped.
  unfold Re.search, search_re. cbv zeta.
  pose proof (lone_scan (list_ascii_of_string stripped) []) as H.
  destruct (scan false _ [] (list_ascii_of_string stripped))
    as [[[a c] g]|].
  - destruct H as (x & Hf & Hs & Hsl). cbn [hd_error rev app] in *.
    rewrite Hf. unfold group_str, group. cbn [m_caps m_subject].
    rewrite Hs, Hsl. now rewrite int_one.
  - cbn [hd_error] in H. now rewrite H.
Qed.

Lemma first_lone_digit_range : forall s prev n,
  first_lone_digit prev s = Some n -> (2 <= n <= 9)%Z.
Proof.
  induction s as [|c s IH]; intros prev n; [discriminate|].
  cbn [first_lone_digit].
  destruct (between 50 57 c) eqn:B; cbn [andb].
  - destruct (free_side prev && free_side (hd_error s)); [|apply IH].
    intros [= <-]. unfold between in B. lia.
  - apply IH.
Qed.

Lemma lone_digit_range lower n :
  lone_digit lower = Some n -> (2 <= n <= 9)%Z.
Proof. rewrite lone_digit_spec. apply first_lone_digit_range. Qed.

Lemma parse_party_size_cases text :
  match _parse_party_size text with
  | Ok n => (1 <= n <= 20)%Z
  | Raise e => e = ValueError /\ (max_str_digits < digits_in text)%Z
  end.
Proof.
  unfold _parse_party_size. cbv zeta.
  pose proof (@party_loop_cases (PyStr.lower text) party_patterns
                (fun p H => H)) as H.
  rewrite digits_in_lower in H.
  destruct (party_loop _ party_patterns) as [[n|]|e]; try exact H.
  destruct (lone_digit _) as [n|] eqn:L; [|lia].
  apply lone_digit_range in L. lia.
Qed.

Lemma parse_party_size_range text n :
  _parse_party_size text = Ok n -> (1 <= n <= 20)%Z.
Proof.
  intros H. pose proof (parse_party_size_cases text) as C.
  now rewrite H in C.
Qed.

(** C4, the failing input.  A structured rule hands its run of digits to
    [int] with no guard: on a run of more than 4300 digits [int] raises
    [ValueError], and the party-size extraction and the entry point
    raise it, where a number outside 1..20 is otherwise passed over ("for
    25 people" gives the default 2). *)
Theorem party_size_long_numeral :
  digits_in ("for " ++ long_numeral) = 4301%Z
  /\ _parse_party_size ("for " ++ long_numeral) = Raise ValueError
  /\ parse_reservation_request NOW
       ("table for " ++ long_numeral ++ " at Taizu tonight") (Some NOW)
     = Raise ValueError
  /\ _parse_party_size "for 25 people" = Ok 2%Z.
Proof.
  repeat match goal with |- _ /\ _ => split end; vm_compute; reflexivity.
Qed.

(** X18.  The party size is what the first of the four structured rules
    ("for N [noun]", "N noun", "party of N", "table for N"), in this
    order, that reads a number from 1 to 20 in its leftmost match reads; a
    match with a number outside that range counts as no match and the
    later rules are still tried; a match with more than 4300 digits makes
    the extraction raise [ValueError].  When no structured rule yields a
    value, the party size is the first digit from 2 to 9 that stands
    alone (at the start of the text or after a character that is neither
    a word character nor a colon, and likewise on its right) in the
    lower-cased text without its am/pm time phrases, and 2 when there is
    none.  A time phrase is one or two digits not right after a word
    character (two where there are two), a colon and two digits if they
    follow, any white space, and "am" or "pm" in any case with no word
    character after it; the phrases are dropped from the left.  A result
    lies in 1..20, and a text with at most 4300 digits never raises. *)
Theorem party_size_extraction :
  party_patterns =
    [ "for\s+(\d+)\s*(?:people|person|guests?|pax|seats?)?";
      "(\d+)\s+(?:people|persons?|guests?|pax|seats?|diners?)";
      "party\s+of\s+(\d+)";
      "table\s+for\s+(\d+)" ]
  /\ (forall text pre pat post,
      party_patterns = (pre ++ pat :: post)%list ->
      forallb (no_value (PyStr.lower text)) pre = true ->
      match rule_value (PyStr.lower text) pat with
      | Ok (Some n) => _parse_party_size text = Ok n /\ (1 <= n <= 20)%Z
      | Ok None => True
      | Raise e =>
          _parse_party_size text = Raise e
          /\ e = ValueError /\ (4300 < digits_in text)%Z
      end)
  /\ (forall s,
      Re.sub_empty_i "\b\d{1,2}(?::\d{2})?\s*(?:am|pm)\b" s = without_times s)
  /\ (forall text,
      forallb (no_value (PyStr.lower text)) party_patterns = true ->
      _parse_party_size text =
        Ok match first_lone_digit None
                   (list_ascii_of_string
                      (without_times (PyStr.lower text))) with
           | Some n => n
           | None => 2%Z
           end)
  /\ (forall lower pat mt n,
      Re.search pat lower = Some mt ->
      int_literal (group_str mt 1) = Some n ->
      (n < 1)%Z \/ (20 < n)%Z ->
      rule_value lower pat = Ok None)
  /\ (forall s prev n, first_lone_digit prev s = Some n -> (2 <= n <= 9)%Z)
  /\ (forall text n, _parse_party_size text = Ok n -> (1 <= n <= 20)%Z)
  /\ (forall text e,
      _parse_party_size text = Raise e ->
      e = ValueError /\ (4300 < digits_in text)%Z)
  /\ (forall text,
      (digits_in text <= 4300)%Z -> exists n, _parse_party_size text = Ok n)
  /\ _parse_party_size "for 4 people" = Ok 4%Z
  /\ _parse_party_size "party of 5" = Ok 5%Z
  /\ _parse_party_size "table for 3" = Ok 3%Z
  /\ _parse_party_size "book 2 tonight 8pm at Prozdor" = Ok 2%Z
  /\ _parse_party_size "book 6 tonight 8pm at Prozdor" = Ok 6%Z
  /\ _parse_party_size "book tonight 8pm at Prozdor" = Ok 2%Z
  /\ _parse_party_size "for 25, a party of 5" = Ok 5%Z
  /\ _parse_party_size "for 0, then 7" = Ok 7%Z
  /\ _parse_party_size "for 25 people" = Ok 2%Z
  /\ without_times "book tonight 8 pm" = "book tonight "
  /\ without_times "5 10:30 PM" = "5 "
  /\ without_times "a9pm 10:30am 123pm 12:3pm 1:30 pmx 7 am"
     = "a9pm  123pm 12: 1:30 pmx "
  /\ _parse_party_size "book tonight 8 pm" = Ok 2%Z
  /\ first_lone_digit None
       (list_ascii_of_string (PyStr.lower "book tonight 8 pm")) = Some 8%Z
  /\ _parse_party_size "lunch 4 8 pm" = Ok 4%Z
  /\ _parse_party_size "5 10:30 PM" = Ok 5%Z
  /\ _parse_party_size "come at 9 am, 3" = Ok 3%Z
  /\ _parse_party_size "room 7: ok" = Ok 2%Z
  /\ _parse_party_size "meet 7:30, 3" = Ok 3%Z
  /\ _parse_party_size "a5 b" = Ok 2%Z
  /\ _parse_party_size "bring 45" = Ok 2%Z.
Proof.
  split; [reflexivity|].
  split; [|split; [|split; [|split; [|split; [|split; [|split; [|split]]]]]]].
  - intros text pre pat post Hp Hpre.
    assert (Hin : In pat party_patterns)
      by (rewrite Hp; apply in_or_app; right; now left).
    pose proof (@rule_value_cases (PyStr.lower text) pat Hin) as Hc.
    rewrite digits_in_lower in Hc.
    unfold _parse_party_size. cbv zeta. rewrite Hp.
    destruct (rule_value (PyStr.lower text) pat) as [[n|]|e] eqn:Hv;
      [| exact I |].
    + rewrite (@party_loop_first (PyStr.lower text) pre pat post Hpre)
        by (rewrite Hv; discriminate).
      rewrite Hv. now split.
    + rewrite (@party_loop_first (PyStr.lower text) pre pat post Hpre)
        by (rewrite Hv; discriminate).
      rewrite Hv. destruct Hc as [-> Hc]. unfold max_str_digits in Hc.
      now repeat split.
  - exact sub_times.
  - intros text H. unfold _parse_party_size. cbv zeta.
    rewrite (party_loop_none _ _ H), lone_digit_spec, sub_times.
    now destruct (first_lone_digit _ _).
  - intros lower pat mt n Hm Hi Hr. unfold rule_value. rewrite Hm, Hi.
    destruct (Z.leb_spec 1 n), (Z.leb_spec n 20); cbn [andb];
      (reflexivity || lia).
  - exact first_lone_digit_range.
  - exact parse_party_size_range.
  - intros text e H. pose proof (parse_party_size_cases text) as C.
    rewrite H in C. unfold max_str_digits in C. exact C.
  - intros text H. pose proof (parse_party_size_cases text) as C.
    destruct (_parse_party_size text) as [n|e]; [now exists n|].
    unfold max_str_digits in C. lia.
  - repeat match goal with |- _ /\ _ => split end; vm_compute; reflexivity.
Qed.

Lemma party_size_extraction_witness :
  forallb (no_value (PyStr.lower "Dinner, 6 guests"))
    ["for\s+(\d+)\s*(?:people|person|guests?|pax|seats?)?"] = true
  /\ rule_value (PyStr.lower "Dinner, 6 guests")
       "(\d+)\s+(?:people|persons?|guests?|pax|seats?|diners?)"
     = Ok (Some 6%Z)
  /\ _parse_party_size "Dinner, 6 guests" = Ok 6%Z.
Proof.
  assert (H1 : forallb (no_value (PyStr.lower "Dinner, 6 guests"))
                 ["for\s+(\d+)\s*(?:people|person|guests?|pax|seats?)?"]
               = true) by (vm_compute; reflexivity).
  assert (H2 : rule_value (PyStr.lower "Dinner, 6 guests")
                 "(\d+)\s+(?:people|persons?|guests?|pax|seats?|diners?)"
               = Ok (Some 6%Z)) by (vm_compute; reflexivity).
  split; [exact H1|]. split; [exact H2|].
  pose proof (proj1 (proj2 party_size_extraction) "Dinner, 6 guests"
                ["for\s+(\d+)\s*(?:people|person|guests?|pax|seats?)?"]
                "(\d+)\s+(?:people|persons?|guests?|pax|seats?|diners?)"
                ["party\s+of\s+(\d+)"; "table\s+for\s+(\d+)"]
                eq_refl H1) as H.
  rewrite H2 in H. exact (proj1 H).
Defined.

End PartyFacts.

(** ** Time, restaurant name and the entry point *)

Module ParserFacts.
Import Datetime NlpParser Props ReFacts NameProps AtFacts.

Local Open Scope string_scope.

(** ** Time *)

Lemma parse_time_unfold text :
  _parse_time text =
    match colon_time (time_text text) with
    | Some t => t
    | None =>
        match bare_hour_time (time_text text) with
        | Some t => t
        | None => ""
        end
    end.
Proof. reflexivity. Qed.

(** C3.  For every text, the time extractor first tries the colon form
    (H:MM or HH:MM, optional seconds, optional am/pm) on the text without
    its dates: it converts to 24 hours ([pm] adds 12 unless the hour is 12,
    [am] turns 12 into 0) and answers HH:MM when the hour is at most 23 and
    the minute at most 59; otherwise the colon rule gives nothing and the
    bare hour with am/pm is tried, with the same conversion and minutes 00;
    otherwise the answer is empty.  "7:30pm" gives "19:30", "12:00 am"
    "00:00", "20:30" "20:30", "8pm" "20:00" and "12pm" "12:00". *)
Theorem time_extraction :
  (forall text mt,
      Re.search_i "\b(\d{1,2}):(\d{2})(?::\d{2})?\s*(am|pm)?\b"
        (time_text text) = Some mt ->
      let hour := to_24h (PyStr.int (group_str mt 1))
                    (PyStr.lower (group_str mt 3)) in
      let minute := PyStr.int (group_str mt 2) in
      ((0 <= hour <= 23)%Z -> (0 <= minute <= 59)%Z ->
       _parse_time text = PyStr.fmt02 hour ++ ":" ++ PyStr.fmt02 minute)
      /\ ((23 < hour)%Z \/ (59 < minute)%Z ->
          colon_time (time_text text) = None))
  /\ (forall text mt,
      colon_time (time_text text) = None ->
      Re.search_i "\b(\d{1,2})\s*(am|pm)\b" (time_text text) = Some mt ->
      let hour := to_24h (PyStr.int (group_str mt 1))
                    (PyStr.lower (group_str mt 2)) in
      ((0 <= hour <= 23)%Z ->
       _parse_time text = PyStr.fmt02 hour ++ ":00")
      /\ ((23 < hour)%Z -> _parse_time text = ""))
  /\ (forall text,
      colon_time (time_text text) = None ->
      Re.search_i "\b(\d{1,2})\s*(am|pm)\b" (time_text text) = None ->
      _parse_time text = "")
  /\ (forall hour meridiem,
      to_24h hour meridiem =
        if (meridiem =? "pm") && negb (hour =? 12)%Z then (hour + 12)%Z
        else if (meridiem =? "am") && (hour =? 12)%Z then 0%Z
        else hour)
  /\ _parse_time "7:30pm" = "19:30"
  /\ _parse_time "12:00 am" = "00:00"
  /\ _parse_time "20:30" = "20:30"
  /\ _parse_time "8pm" = "20:00"
  /\ _parse_time "12pm" = "12:00"
  /\ _parse_time "12:30pm" = "12:30"
  /\ _parse_time "7:30:15 pm" = "19:30"
  /\ _parse_time "24:00" = ""
  /\ _parse_time "7:75" = ""
  /\ _parse_time "13:00 pm" = "12:00".
Proof.
  split; [|split; [|split; [|split]]].
  - intros text mt Hm hour minute. split.
    + intros Hh Hmi. rewrite parse_time_unfold. unfold colon_time.
      rewrite Hm. cbv zeta. fold hour minute.
      destruct (Z.leb_spec 0 hour), (Z.leb_spec hour 23),
        (Z.leb_spec 0 minute), (Z.leb_spec minute 59); try lia.
      reflexivity.
    + intros Hr. unfold colon_time. rewrite Hm. cbv zeta. fold hour minute.
      destruct (Z.leb_spec hour 23), (Z.leb_spec minute 59);
        try lia; rewrite ?andb_false_r; reflexivity.
  - intros text mt Hc Hm hour. rewrite parse_time_unfold, Hc.
    unfold bare_hour_time. rewrite Hm. cbv zeta. fold hour. split.
    + intros Hh.
      destruct (Z.leb_spec 0 hour), (Z.leb_spec hour 23); try lia.
      reflexivity.
    + intros Hh. destruct (Z.leb_spec hour 23); try lia.
      rewrite andb_false_r. reflexivity.
  - intros text Hc Hb. rewrite parse_time_unfold, Hc.
    unfold bare_hour_time. now rewrite Hb.
  - reflexivity.
  - repeat split; vm_compute; reflexivity.
Qed.

Lemma time_extraction_witness :
  Re.search_i "\b(\d{1,2}):(\d{2})(?::\d{2})?\s*(am|pm)?\b"
    (time_text "dinner at 9:15 PM") <> None
  /\ _parse_time "dinner at 9:15 PM" = "21:15".
Proof.
  split; [vm_compute; discriminate|].
  destruct (Re.search_i "\b(\d{1,2}):(\d{2})(?::\d{2})?\s*(am|pm)?\b"
              (time_text "dinner at 9:15 PM")) as [mt|] eqn:E;
    [|vm_compute in E; discriminate E].
  rewrite (proj1 (proj1 time_extraction "dinner at 9:15 PM" mt E)).
  - vm_compute in E. injection E as <-. vm_compute; reflexivity.
  - vm_compute in E. injection E as <-. vm_compute. split; discriminate.
  - vm_compute in E. injection E as <-. vm_compute. split; discriminate.
Defined.


(** ** Restaurant name *)

Lemma forallb_rev_eq (A : Type) (f : A -> bool) l :
  forallb f (rev l) = forallb f l.
Proof.
  induction l as [|a l IH]; [reflexivity|].
  simpl. rewrite forallb_app, IH. simpl.
  rewrite andb_true_r. apply andb_comm.
Qed.

Lemma pop_noise_all ws :
  forallb is_noise_word ws = true -> pop_noise (rev ws) = [].
Proof.
  intros H. rewrite <- forallb_rev_eq in H.
  induction (rev ws) as [|w l IH]; [reflexivity|].
  simpl in H. apply andb_true_iff in H as [Hw H].
  cbn [pop_noise]. unfold is_noise_word in Hw. rewrite Hw. now apply IH.
Qed.

(** What the trailing-word loop leaves: a prefix of the parts, cut where
    only noise words follow, and not ending in a noise word. *)
Lemma pop_noise_spec l :
  exists dropped,
    l = (dropped ++ pop_noise l)%list
    /\ forallb is_noise_word dropped = true
    /\ match pop_noise l with
       | w :: _ => is_noise_word w = false
       | [] => True
       end.
Proof.
  induction l as [|w l (dropped & E & Hd & Hk)].
  - now exists [].
  - cbn [pop_noise]. destruct (in_noise (PyStr.lower w)) eqn:N.
    + exists (w :: dropped). simpl. rewrite <- E.
      unfold is_noise_word at 1. rewrite N. auto.
    + exists []. simpl. auto.
Qed.

Lemma clean_restaurant_name_spec name :
  exists kept dropped,
    PyStr.split name = (kept ++ dropped)%list
    /\ forallb is_noise_word dropped = true
    /\ (forall w, last_word kept = Some w -> is_noise_word w = false)
    /\ _clean_restaurant_name name = PyStr.join " " kept.
Proof.
  unfold _clean_restaurant_name. cbv zeta.
  destruct (pop_noise_spec (rev (PyStr.split name))) as (dropped & E & Hd & Hk).
  exists (rev (pop_noise (rev (PyStr.split name)))), (rev dropped).
  repeat split.
  - rewrite <- rev_app_distr, <- E. now rewrite rev_involutive.
  - now rewrite forallb_rev_eq.
  - intros w. unfold last_word. rewrite rev_involutive.
    destruct (pop_noise _) as [|w' ?]; [discriminate|].
    simpl. now intros [= <-].
Qed.

Lemma parse_restaurant_name_at text mt :
  Re.search_i at_pattern text = Some mt ->
  in_noise (PyStr.lower (PyStr.strip (group_str mt 1))) = false ->
  _parse_restaurant_name text =
    _clean_restaurant_name (PyStr.strip (group_str mt 1)).
Proof.
  intros Hm Hn. unfold _parse_restaurant_name, at_name.
  rewrite Hm. cbv zeta. now rewrite Hn.
Qed.

(** What the "at" pattern captures: a letter followed by at least one
    more character, each a letter, a space, an apostrophe or a hyphen. *)
Lemma at_capture_shape text mt :
  Re.search_i at_pattern text = Some mt ->
  exists x xs,
    group_str mt 1 = string_of_list_ascii (x :: xs)
    /\ is_name_start x = true
    /\ xs <> []
    /\ forallb is_name_char xs = true.
Proof.
  unfold Re.search_i, Re.search_re. cbv zeta.
  set (subj := list_ascii_of_string text). clearbody subj.
  set (R := Re.compile at_pattern). vm_compute in R.
  destruct (Re.scan true R [] subj) as [[[a c] g]|] eqn:E; [|discriminate].
  apply scan_sound in E as (bef & aft & Esub & -> & Em).
  simpl rev in Esub. simpl app in Esub. subst subj R.
  rewrite m_seq in Em. apply m_bow in Em.
  rewrite m_seq in Em. apply m_lit in Em as (a1 & r1 & E1 & _ & Em).
  rewrite m_seq in Em. apply m_lit in Em as (a2 & r2 & E2 & _ & Em).
  rewrite m_seq in Em. apply m_rep_cls in Em as (sp & r3 & E3 & _ & _ & Em).
  rewrite m_seq, m_group, m_seq in Em.
  apply m_cls in Em as (x & r4 & E4 & Hx & Em).
  apply m_rep_cls in Em as (xs & r5 & E5 & Hxs & Hlen & Em).
  apply m_keeps in Em as [c' Em]; [|reflexivity].
  unfold Re.accept in Em. injection Em as <- <-.
  cbn [Re.after Re.before] in *. subst aft r1 r2 r3 r4.
  intros [= <-]. exists x, xs.
  split; [|split; [|split]].
  - unfold group_str, Re.group.
    cbn [Re.m_caps Re.span_of Nat.eqb Re.m_subject]. unfold Re.pos.
    cbn [Re.before].
    set (bef1 := (rev sp ++ a2 :: a1 :: bef)%list).
    replace (rev bef ++ a1 :: a2 :: sp ++ x :: xs ++ r5)%list
      with (rev bef1 ++ (x :: xs) ++ r5)%list.
    + replace (rev xs ++ x :: bef1)%list with (rev (x :: xs) ++ bef1)%list
        by (simpl; now rewrite <- app_assoc).
      apply slice_run.
    + subst bef1. rewrite rev_app_distr, rev_involutive. simpl.
      rewrite <- !app_assoc. reflexivity.
  - now rewrite <- name_start_class.
  - destruct xs; [simpl in Hlen; lia|discriminate].
  - clear -Hxs. induction xs as [|y ys IH]; [reflexivity|].
    cbn [forallb] in *. rewrite name_char_class in Hxs.
    apply andb_true_iff in Hxs as [H1 H2]. rewrite H1. now apply IH.
Qed.

(** X19.  For every text, what the pattern "at <Name>" captures is the
    name after the first "at" that has one: "at" in any case, not right
    after a letter, a digit or an underscore, then white space, then a
    letter and the fewest further letters, spaces, apostrophes and hyphens
    (one at least) after which the name ends; a name ends where only
    white space is left, at one of the marks , . ! ?, or at white space
    followed by a digit or by the letters "on", "this", "next", "tonight",
    "tomorrow", whether or not a longer word goes on after them.  The
    pattern matches nowhere exactly when there is no such name.  When the
    stripped capture, lower-cased, is a noise word the rule gives
    nothing; otherwise the extracted name is the capture with its
    trailing noise words removed: its words up to the last one that is
    not noise, joined by spaces.  "book 2 tonight 8pm at Prozdor" gives
    "Prozdor" and "reservation for 4 tomorrow 7:30pm at Machneyuda" gives
    "Machneyuda". *)
Theorem at_rule_extraction :
  at_pattern =
    "\bat\s+([A-Za-z][A-Za-z '\-]+?)(?:\s*$|[,.\!?]|\s+(?:on|this|next|tonight|tomorrow|\d))"
  /\ (forall text,
      option_map (fun mt => group_str mt 1) (Re.search_i at_pattern text)
      = first_name_after_at text)
  /\ (forall text,
      match first_name_after_at text with
      | None => at_name text = None
      | Some cap =>
          let name := PyStr.strip cap in
          if in_noise (PyStr.lower name) then at_name text = None
          else
            at_name text = Some name
            /\ exists kept dropped,
                 PyStr.split name = (kept ++ dropped)%list
                 /\ forallb is_noise_word dropped = true
                 /\ (forall w, last_word kept = Some w ->
                               is_noise_word w = false)
                 /\ _parse_restaurant_name text = PyStr.join " " kept
      end)
  /\ first_name_after_at "book 2 tonight 8pm at Prozdor" = Some "Prozdor"
  /\ first_name_after_at "lunch at Cafe Noir for 2" = Some "Cafe Noir for"
  /\ first_name_after_at "at Taizu Bar tonight for 3" = Some "Taizu Bar"
  /\ first_name_after_at "AT   O'Neil-s, 8pm" = Some "O'Neil-s"
  /\ first_name_after_at "book at Cafe Onyx" = Some "Cafe"
  /\ first_name_after_at "book at Cafe  " = Some "Cafe"
  /\ first_name_after_at "meet at 5 at Nobu" = Some "Nobu"
  /\ first_name_after_at "great Nobu" = None
  /\ first_name_after_at "book at X" = None
  /\ first_name_after_at "book at Nobu7" = None
  /\ _parse_restaurant_name "book 2 tonight 8pm at Prozdor" = "Prozdor"
  /\ _parse_restaurant_name "reservation for 4 tomorrow 7:30pm at Machneyuda"
     = "Machneyuda"
  /\ _parse_restaurant_name "dinner next Friday 9pm, 3 people, at Taizu Bar"
     = "Taizu Bar"
  /\ _parse_restaurant_name "at Taizu Bar tonight for 3" = "Taizu Bar"
  /\ _parse_restaurant_name "tonight 8pm at Prozdor for 2" = "Prozdor"
  /\ _parse_restaurant_name "see you at O'Neil-s, 8pm" = "O'Neil-s".
Proof.
  split; [reflexivity|]. split; [exact at_capture|]. split.
  - intros text. pose proof (at_name_spec text) as A.
    destruct (first_name_after_at text) as [cap|]; [|exact A].
    cbv zeta in A |- *.
    destruct (in_noise (PyStr.lower (PyStr.strip cap))) eqn:Hn;
      cbn [negb] in A; [exact A|].
    split; [exact A|].
    unfold _parse_restaurant_name. rewrite A.
    apply clean_restaurant_name_spec.
  - repeat match goal with |- _ /\ _ => split end; vm_compute; reflexivity.
Qed.

Lemma at_rule_extraction_witness :
  first_name_after_at "lunch at Cafe Noir for 2" = Some "Cafe Noir for"
  /\ at_name "lunch at Cafe Noir for 2" = Some "Cafe Noir for"
  /\ exists kept dropped,
       PyStr.split "Cafe Noir for" = (kept ++ dropped)%list
       /\ forallb is_noise_word dropped = true
       /\ (forall w, last_word kept = Some w -> is_noise_word w = false)
       /\ _parse_restaurant_name "lunch at Cafe Noir for 2"
          = PyStr.join " " kept.
Proof.
  assert (E : first_name_after_at "lunch at Cafe Noir for 2"
              = Some "Cafe Noir for") by (vm_compute; reflexivity).
  split; [exact E|].
  pose proof (proj1 (proj2 (proj2 at_rule_extraction))
                "lunch at Cafe Noir for 2") as H.
  rewrite E in H. cbv zeta in H.
  change (PyStr.strip "Cafe Noir for") with "Cafe Noir for" in H.
  change (in_noise (PyStr.lower "Cafe Noir for")) with false in H.
  exact H.
Defined.

(** C5, the failing input.  The words that end a name after "at" ("on",
    "this", "next", "tonight", "tomorrow") are not required to be whole
    words in the pattern, so a name is cut before any word that begins
    with one of them: "book at Cafe Onyx" gives "Cafe", where the run of
    letters and spaces after "at", which ends with the text, is "Cafe
    Onyx".  A name without such a word is taken whole, and the words
    themselves do end a name. *)
Theorem at_name_cut_before_keyword_prefix :
  at_name "book at Cafe Onyx" = Some "Cafe"
  /\ _parse_restaurant_name "book at Cafe Onyx" = "Cafe"
  /\ _parse_restaurant_name "dinner at Thistle Nextdoor" = "Thistle"
  /\ _parse_restaurant_name "lunch at Bistro Onion tomorrow" = "Bistro"
  /\ _parse_restaurant_name "book at Cafe Roma" = "Cafe Roma"
  /\ _parse_restaurant_name "book at Cafe Roma on friday" = "Cafe Roma".
Proof.
  repeat match goal with |- _ /\ _ => split end; vm_compute; reflexivity.
Qed.

(** C10.  When the "at <Name>" pattern captures a phrase that is not a
    noise word as a whole but whose words are all noise words (as in "at
    the restaurant"), the extracted name is the empty string: the "in
    <Name>" rule and the capitalised-word fallback are not consulted, even
    where they would have found a name. *)
Theorem at_name_all_noise :
  (forall text mt,
      Re.search_i at_pattern text = Some mt ->
      let name := PyStr.strip (group_str mt 1) in
      in_noise (PyStr.lower name) = false ->
      forallb is_noise_word (PyStr.split name) = true ->
      _parse_restaurant_name text = "")
  /\ _parse_restaurant_name "at the restaurant" = ""
  /\ in_words "dinner in Paris, at the restaurant" = Some ["Paris"]
  /\ _parse_restaurant_name "dinner in Paris, at the restaurant" = ""
  /\ capitalised_words "Book Taizu at the restaurant" = ["Taizu"]
  /\ _parse_restaurant_name "Book Taizu at the restaurant" = "".
Proof.
  split.
  - intros text mt Hm name Hn Hall.
    rewrite (@parse_restaurant_name_at text mt Hm Hn).
    unfold _clean_restaurant_name. cbv zeta.
    fold name. now rewrite (@pop_noise_all _ Hall).
  - repeat split; vm_compute; reflexivity.
Qed.

Lemma at_name_all_noise_witness :
  Re.search_i at_pattern "Sushi, at a table for us" <> None
  /\ _parse_restaurant_name "Sushi, at a table for us" = "".
Proof.
  split; [vm_compute; discriminate|].
  destruct (Re.search_i at_pattern "Sushi, at a table for us") as [mt|] eqn:E;
    [|vm_compute in E; discriminate E].
  apply (proj1 at_name_all_noise "Sushi, at a table for us" mt E);
    vm_compute in E; injection E as <-; vm_compute; reflexivity.
Defined.

(** ** The entry point *)

(** C7.  For every reference instant (given or read from the clock),
    parsing the empty text yields the empty restaurant name, no date, the
    time "20:00" and the party size 2. *)
Theorem parse_empty_text :
  forall clock now,
    parse_reservation_request clock "" now =
      Ok (mkParsedRequest "" None "20:00" 2 "").
Proof. intros clock now. vm_compute. reflexivity. Qed.

(** C8.  For every text and every reference instant, the result of the
    entry point is a function of the text and the reference instant alone:
    two invocations agree whatever the wall clock reads at either. *)
Theorem parse_deterministic :
  forall clock1 clock2 text t,
    parse_reservation_request clock1 text (Some t)
    = parse_reservation_request clock2 text (Some t).
Proof. intros clock1 clock2 text t. reflexivity. Qed.

End ParserFacts.

(* ------------------------------------------------------------------ *)
(** * Further properties: the formats of time and date *)
(* ------------------------------------------------------------------ *)

Module FormatFacts.
Import Datetime NlpParser Props DatetimeFacts PyStrMore ParsedRequestMethods
  OntopoClient Bookaboo MoreProps.

Local Open Scope string_scope.

Lemma hours_checked : all_from 24 0%Z hour_ok = true.
Proof. vm_compute. reflexivity. Qed.

Lemma years_checked : all_from (Z.to_nat 9000) 1000%Z year_ok = true.
Proof. vm_compute. reflexivity. Qed.

Lemma two_digits_checked : all_from 100 0%Z two_digits_ok = true.
Proof. vm_compute. reflexivity. Qed.

Lemma hhmm_facts h m :
  (0 <= h <= 23)%Z -> (0 <= m <= 59)%Z -> hhmm_ok h m = true.
Proof.
  intros Hh Hm.
  pose proof (@all_from_spec _ _ _ hours_checked h ltac:(simpl; lia)) as H.
  unfold hour_ok in H.
  exact (@all_from_spec _ _ _ H m ltac:(simpl; lia)).
Qed.


Lemma year_facts y : (1000 <= y <= 9999)%Z -> year_ok y = true.
Proof.
  intros H. apply (@all_from_spec _ _ _ years_checked y).
  rewrite Z2Nat.id; lia.
Qed.

Lemma two_digits_facts n : (0 <= n <= 99)%Z -> two_digits_ok n = true.
Proof.
  intros H. apply (@all_from_spec _ _ _ two_digits_checked n). simpl. lia.
Qed.

(** ** Time of day *)

(** What the time extractor returns is empty or a time of day HH:MM. *)
Lemma parse_time_shape text :
  _parse_time text = ""
  \/ exists h m, (0 <= h <= 23)%Z /\ (0 <= m <= 59)%Z
                 /\ _parse_time text = hhmm h m.
Proof.
  unfold _parse_time. cbv zeta.
  set (lower := PyStr.lower _). clearbody lower.
  unfold colon_time.
  destruct (Re.search_i _ lower) as [mt|].
  - cbv zeta.
    set (h := to_24h _ _). set (m := PyStr.int (group_str mt 2)).
    destruct (Z.leb_spec 0 h), (Z.leb_spec h 23), (Z.leb_spec 0 m),
      (Z.leb_spec m 59); cbn [andb];
      try (right; exists h, m; repeat split; (lia || reflexivity)).
    all: unfold bare_hour_time;
      destruct (Re.search_i _ lower) as [mt'|]; [|now left]; cbv zeta;
      set (h' := to_24h _ _);
      destruct (Z.leb_spec 0 h'), (Z.leb_spec h' 23); cbn [andb];
      try (now left);
      right; exists h', 0%Z; repeat split; (lia || reflexivity).
  - unfold bare_hour_time.
    destruct (Re.search_i _ lower) as [mt'|]; [|now left]. cbv zeta.
    set (h' := to_24h _ _).
    destruct (Z.leb_spec 0 h'), (Z.leb_spec h' 23); cbn [andb];
      try (now left).
    right. exists h', 0%Z. repeat split; (lia || reflexivity).
Qed.

(** The time the record gets, the default included, is a time of day. *)
Lemma time_of_day_shape text :
  exists h m, (0 <= h <= 23)%Z /\ (0 <= m <= 59)%Z
              /\ (if _parse_time text =? "" then "20:00"
                  else _parse_time text) = hhmm h m.
Proof.
  destruct (parse_time_shape text) as [E | (h & m & Hh & Hm & E)].
  - rewrite E. exists 20%Z, 0%Z. repeat split; (lia || reflexivity).
  - rewrite E. exists h, m. repeat split; try lia.
    destruct (hhmm h m =? "") eqn:Q; [|reflexivity].
    apply String.eqb_eq in Q.
    pose proof (hhmm_facts Hh Hm) as F. unfold hhmm_ok in F.
    repeat (apply andb_true_iff in F as [F ?]).
    rewrite Q in *. discriminate.
Qed.

(** X1.  The record's time is always a time of day HH:MM; [time_hhmm] gives
    its four digits HHMM, which read back as the hour and the minute, and
    the normalisation [reserve] applies to a slot time gives HH:MM
    back. *)
Theorem parsed_time_well_formed clock text now req :
  parse_reservation_request clock text now = Ok req ->
  exists h m,
    (0 <= h <= 23)%Z /\ (0 <= m <= 59)%Z
    /\ time_str req = hhmm h m
    /\ time_hhmm req = hhmm_compact h m
    /\ String.length (time_hhmm req) = 4%nat
    /\ all_digits (time_hhmm req) = true
    /\ minutes_of (time_hhmm req) = Some (h * 60 + m)%Z
    /\ slot_time_display (time_hhmm req) = time_str req.
Proof.
  unfold parse_reservation_request.
  destruct (_parse_date clock text now) as [d|]; [|discriminate].
  cbv zeta. destruct (_parse_party_size text) as [n|]; [|discriminate].
  intros [= <-]. unfold time_hhmm. cbn [time_str].
  destruct (time_of_day_shape text) as (h & m & Hh & Hm & ->). exists h, m.
  pose proof (hhmm_facts Hh Hm) as F. unfold hhmm_ok in F.
  repeat (apply andb_true_iff in F as [F ?]).
  apply String.eqb_eq in F.
  repeat match goal with
         | H : (_ =? _)%string = true |- _ => apply String.eqb_eq in H
         | H : Nat.eqb _ _ = true |- _ => apply Nat.eqb_eq in H
         end.
  rewrite F.
  destruct (minutes_of (hhmm_compact h m)) as [v|] eqn:Mv; [|discriminate].
  repeat split; try lia; try assumption.
  f_equal. lia.
Qed.

Lemma parsed_time_well_formed_witness :
  exists req,
    parse_reservation_request NOW "lunch at Cafe Noir, 12:45pm" (Some NOW)
      = Ok req
    /\ exists h m,
         (0 <= h <= 23)%Z /\ (0 <= m <= 59)%Z
         /\ time_str req = hhmm h m
         /\ time_hhmm req = hhmm_compact h m
         /\ String.length (time_hhmm req) = 4%nat
         /\ all_digits (time_hhmm req) = true
         /\ minutes_of (time_hhmm req) = Some (h * 60 + m)%Z
         /\ slot_time_display (time_hhmm req) = time_str req.
Proof.
  destruct (parse_reservation_request NOW "lunch at Cafe Noir, 12:45pm"
              (Some NOW)) as [req|] eqn:E; [|vm_compute in E; discriminate E].
  exists req. split; [reflexivity|].
  exact (parsed_time_well_formed _ _ _ E).
Defined.


(** ** Dates *)

Lemma chars_app (a b : string) :
  list_ascii_of_string (a ++ b)
  = (list_ascii_of_string a ++ list_ascii_of_string b)%list.
Proof. induction a as [|c a IH]; simpl; [reflexivity|now rewrite IH]. Qed.

Lemma chars_length (a : string) :
  List.length (list_ascii_of_string a) = String.length a.
Proof. induction a as [|c a IH]; simpl; [reflexivity|now rewrite IH]. Qed.

Lemma slice_to_app (a b : string) n :
  String.length a = n -> slice_to n (a ++ b) = a.
Proof.
  intros <-. unfold slice_to. rewrite chars_app, <- chars_length.
  rewrite firstn_app, Nat.sub_diag, firstn_all. simpl.
  rewrite app_nil_r. apply string_of_list_ascii_of_string.
Qed.

Lemma slice_from_app (a b : string) n :
  String.length a = n -> slice_from n (a ++ b) = b.
Proof.
  intros <-. unfold slice_from. rewrite chars_app, <- chars_length.
  rewrite skipn_app, Nat.sub_diag, skipn_all. simpl.
  apply string_of_list_ascii_of_string.
Qed.

Lemma all_digits_app a b :
  all_digits (a ++ b) = all_digits a && all_digits b.
Proof. unfold all_digits. now rewrite chars_app, forallb_app. Qed.

Lemma string_length_app (a b : string) :
  String.length (a ++ b) = (String.length a + String.length b)%nat.
Proof. induction a as [|c a IH]; simpl; [reflexivity|now rewrite IH]. Qed.

Lemma string_app_assoc (a b c : string) : (a ++ b) ++ c = a ++ b ++ c.
Proof. induction a as [|x a IH]; simpl; [reflexivity|now rewrite IH]. Qed.

Lemma valid_date_bounds d :
  valid_date d = true ->
  (1 <= year d <= 9999 /\ 1 <= month d <= 12 /\ 1 <= day d <= 31)%Z.
Proof.
  destruct d as [y m a]. unfold valid_date, valid_ymd. simpl. intros V.
  repeat (apply andb_true_iff in V as [V ?]).
  assert (Hm : (1 <= m <= 12)%Z) by lia.
  assert (_days_in_month y m <= 31)%Z.
  { unfold _days_in_month. each_month m Hm; destruct (_is_leap y); simpl; lia. }
  unfold MINYEAR, MAXYEAR in *. lia.
Qed.

Lemma strftime_Ymd_facts d :
  valid_date d = true ->
  (1000 <= year d)%Z ->
  let s := strftime_Ymd d in
  String.length s = 8%nat
  /\ all_digits s = true
  /\ int_literal (slice_to 4 s) = Some (year d)
  /\ int_literal (slice_mid 4 6 s) = Some (month d)
  /\ int_literal (slice_from 6 s) = Some (day d).
Proof.
  intros V Hy s. subst s.
  unfold strftime_Ymd.
  destruct (valid_date_bounds d V) as (By & Bm & Bd).
  pose proof (@year_facts (year d) ltac:(lia)) as Fy.
  pose proof (@two_digits_facts (month d) ltac:(lia)) as Fm.
  pose proof (@two_digits_facts (day d) ltac:(lia)) as Fd.
  unfold year_ok in Fy. unfold two_digits_ok in Fm, Fd.
  repeat (apply andb_true_iff in Fy as [Fy ?]).
  repeat (apply andb_true_iff in Fm as [Fm ?]).
  repeat (apply andb_true_iff in Fd as [Fd ?]).
  apply Nat.eqb_eq in Fy, Fm, Fd.
  destruct (int_literal (PyStr.dec (year d))) as [vy|] eqn:Ey; [|discriminate].
  destruct (int_literal (PyStr.fmt02 (month d))) as [vm|] eqn:Em;
    [|discriminate].
  destruct (int_literal (PyStr.fmt02 (day d))) as [vd|] eqn:Ed;
    [|discriminate].
  repeat match goal with
         | H : (_ =? _)%Z = true |- _ => apply Z.eqb_eq in H; subst
         end.
  split; [|split; [|split; [|split]]].
  - rewrite !string_length_app. lia.
  - rewrite !all_digits_app.
    repeat match goal with H : all_digits _ = true |- _ => rewrite H end.
    reflexivity.
  - rewrite (slice_to_app _ _ Fy). exact Ey.
  - unfold slice_mid. rewrite (slice_from_app _ _ Fy).
    rewrite (slice_to_app _ _ Fm). exact Em.
  - rewrite <- string_app_assoc.
    rewrite slice_from_app; [exact Ed|].
    rewrite string_length_app. lia.
Qed.

(** X2.  The compact date of a record: for a calendar date from the year 1000
    on it is eight digits, and the three slices that [build_event] and
    [generate_google_calendar_url] take of it read back as the year, the
    month and the day. *)
Theorem date_yyyymmdd_round_trip req d :
  NlpParser.date req = Some d ->
  valid_date d = true ->
  (1000 <= year d)%Z ->
  let s := date_yyyymmdd req in
  String.length s = 8%nat
  /\ all_digits s = true
  /\ int_literal (slice_to 4 s) = Some (year d)
  /\ int_literal (slice_mid 4 6 s) = Some (month d)
  /\ int_literal (slice_from 6 s) = Some (day d).
Proof.
  intros Hd V Hy. unfold date_yyyymmdd. rewrite Hd.
  exact (@strftime_Ymd_facts d V Hy).
Qed.

Lemma date_yyyymmdd_round_trip_witness :
  valid_date (mkdate 2025 3 7) = true
  /\ (1000 <= year (mkdate 2025 3 7))%Z
  /\ String.length
       (date_yyyymmdd
          (mkParsedRequest "Prozdor" (Some (mkdate 2025 3 7)) "20:00" 2 ""))
     = 8%nat.
Proof.
  split; [reflexivity|]. split; [simpl; lia|].
  exact (proj1 (@date_yyyymmdd_round_trip
                  (mkParsedRequest "Prozdor" (Some (mkdate 2025 3 7))
                     "20:00" 2 "")
                  (mkdate 2025 3 7) eq_refl eq_refl ltac:(simpl; lia))).
Defined.

End FormatFacts.

(* ------------------------------------------------------------------ *)
(** * Further properties: the date rules *)
(* ------------------------------------------------------------------ *)

Module MoreDateFacts.
Import Datetime NlpParser Props DatetimeFacts DateFacts PyStrMore
  ParsedRequestMethods MoreProps.

Local Open Scope string_scope.

Lemma new_date_valid y m d x :
  new_date y m d = Ok x -> valid_date x = true.
Proof.
  unfold new_date. destruct (valid_ymd y m d) eqn:V; [|discriminate].
  intros [= <-]. exact V.
Qed.

Lemma this_or_next_year_valid today y m d x :
  this_or_next_year today y m d = Ok x -> valid_date x = true.
Proof.
  unfold this_or_next_year.
  destruct (new_date y m d) as [d0|] eqn:E0; [|discriminate].
  destruct (date_lt d0 today).
  - apply new_date_valid.
  - intros [= <-]. eapply new_date_valid; exact E0.
Qed.

(** The date that adding days yields is the one with the ordinal asked
    for. *)
Lemma add_days_ordinal d k d' :
  add_days d k = Ok d' ->
  valid_date d' = true /\ toordinal d' = (toordinal d + k)%Z.
Proof.
  unfold add_days. cbv zeta.
  destruct ((0 <? toordinal d + k)%Z && (toordinal d + k <=? _MAXORDINAL)%Z)
    eqn:R; [|discriminate].
  intros [= <-]. apply andb_true_iff in R as [R1 R2].
  pose proof (@ord2ymd_sound (toordinal d + k)%Z ltac:(lia)) as S.
  unfold fromordinal. destruct (_ord2ymd (toordinal d + k)) as [[y m] a].
  exact S.
Qed.

Lemma add_days_raises d k e :
  add_days d k = Raise e ->
  e = OverflowError
  /\ ((toordinal d + k <= 0)%Z \/ (_MAXORDINAL < toordinal d + k)%Z).
Proof.
  unfold add_days. cbv zeta.
  destruct (Z.ltb_spec 0 (toordinal d + k)),
    (Z.leb_spec (toordinal d + k) _MAXORDINAL); cbn [andb];
    try discriminate; intros [= <-]; split; (reflexivity || lia).
Qed.

Lemma weekday_numbers_checked :
  forallb weekday_number_ok _WEEKDAY_MAP = true.
Proof. reflexivity. Qed.

Lemma first_weekday_number lower e :
  first_weekday lower = Some e -> (0 <= snd e <= 6)%Z.
Proof.
  unfold first_weekday. intros H. apply find_some in H as [Hin _].
  pose proof (proj1 (forallb_forall _ _) weekday_numbers_checked e Hin) as W.
  unfold weekday_number_ok in W. lia.
Qed.

(** Adding the days the weekday rule asks for lands on the target
    weekday, one to seven days on. *)
Lemma days_ahead_lands today target d :
  (0 <= target <= 6)%Z ->
  add_days today (days_ahead_of target (weekday today)) = Ok d ->
  valid_date d = true
  /\ weekday d = target
  /\ (1 <= toordinal d - toordinal today <= 7)%Z.
Proof.
  intros Ht E. apply add_days_ordinal in E as [Vd Eo].
  pose proof (days_ahead_range target (weekday today)) as Hr.
  split; [exact Vd|]. split; [|lia].
  unfold weekday at 1. rewrite Eo.
  unfold days_ahead_of in *. cbv zeta in *. unfold weekday in *.
  destruct (Z.eqb_spec ((target - (toordinal today + 6) mod 7) mod 7) 0);
    Z.div_mod_to_equations; lia.
Qed.

(** X3.  The weekday rule lands on the weekday it was asked for, one to seven
    days after the reference date. *)
Theorem weekday_rule_lands_on_weekday clock text now name target d :
  no_relative_keyword (PyStr.lower text) ->
  first_weekday (PyStr.lower text) = Some (name, target) ->
  _parse_date clock text now = Ok (Some d) ->
  valid_date d = true
  /\ weekday d = target
  /\ (1 <= toordinal d - toordinal (_today clock now) <= 7)%Z.
Proof.
  intros Hk Hf. rewrite (@parse_date_weekday clock text now _ Hk Hf).
  cbn [snd].
  destruct (add_days (_today clock now) _) as [d1|] eqn:E; [|discriminate].
  cbn [some_date]. intros [= <-].
  pose proof (first_weekday_number _ Hf) as Ht. cbn [snd] in Ht.
  exact (days_ahead_lands _ Ht E).
Qed.

Lemma weekday_rule_lands_on_weekday_witness :
  no_relative_keyword (PyStr.lower "Sushi on Sun at 7pm")
  /\ first_weekday (PyStr.lower "Sushi on Sun at 7pm") = Some ("sun", 6%Z)
  /\ _parse_date NOW "Sushi on Sun at 7pm" (Some NOW)
     = Ok (Some (mkdate 2025 3 9))
  /\ weekday (mkdate 2025 3 9) = 6%Z.
Proof.
  assert (Hk : no_relative_keyword (PyStr.lower "Sushi on Sun at 7pm"))
    by (split; vm_compute; reflexivity).
  assert (Hf : first_weekday (PyStr.lower "Sushi on Sun at 7pm")
               = Some ("sun", 6%Z)) by (vm_compute; reflexivity).
  assert (E : _parse_date NOW "Sushi on Sun at 7pm" (Some NOW)
              = Ok (Some (mkdate 2025 3 9))) by (vm_compute; reflexivity).
  repeat (split; [assumption|]).
  exact (proj1 (proj2 (weekday_rule_lands_on_weekday NOW "Sushi on Sun at 7pm"
                         (Some NOW) Hk Hf E))).
Defined.

Lemma month_rule_valid today lower entries x :
  month_rule today lower entries = Ok (Some x) -> valid_date x = true.
Proof.
  induction entries as [|[name num] rest IH]; [discriminate|].
  cbn [month_rule]. cbv zeta.
  destruct (match Re.search _ lower with Some mt => Some mt | None => _ end)
    as [mt|]; [|exact IH].
  destruct (this_or_next_year _ _ _ _) as [d|[]] eqn:E; try exact IH.
  - intros [= <-]. eapply this_or_next_year_valid; exact E.
  - discriminate.
Qed.

Lemma slash_guess_valid today guesses x :
  slash_guess today guesses = Ok (Some x) -> valid_date x = true.
Proof.
  induction guesses as [|[mo da] rest IH]; [discriminate|].
  cbn [slash_guess].
  destruct ((1 <=? mo) && (mo <=? 12) && (1 <=? da) && (da <=? 31))%Z;
    [|exact IH].
  destruct (this_or_next_year _ _ _ _) as [d|[]] eqn:E; try exact IH.
  - intros [= <-]. eapply this_or_next_year_valid; exact E.
  - discriminate.
Qed.

Lemma parse_date_valid clock text now d :
  valid_date (_today clock now) = true ->
  _parse_date clock text now = Ok (Some d) ->
  valid_date d = true.
Proof.
  intros V. unfold _parse_date. cbv zeta.
  set (today := _today clock now) in *.
  destruct (found (Re.search "\btonight\b|\btoday\b" _)).
  { now intros [= <-]. }
  destruct (found (Re.search "\btomorrow\b" _)).
  { destruct (add_days today 1) as [d1|] eqn:E; [|discriminate].
    intros [= <-]. exact (proj1 (add_days_ordinal _ _ E)). }
  rewrite weekday_rule_find.
  destruct (find _ _WEEKDAY_MAP) as [e|].
  { destruct (add_days today _) as [d1|] eqn:E; [|discriminate].
    intros [= <-]. exact (proj1 (add_days_ordinal _ _ E)). }
  destruct (month_rule today _ _MONTH_MAP) as [[d1|]|] eqn:E; try discriminate.
  { intros [= <-]. eapply month_rule_valid; exact E. }
  unfold iso_rule. destruct (Re.search _ text) as [mt|].
  - destruct (new_date _ _ _) as [d1|[]] eqn:I; try discriminate.
    + intros [= <-]. eapply new_date_valid; exact I.
    + unfold slash_rule. destruct (Re.search _ text) as [mt'|]; [|discriminate].
      cbv zeta. apply slash_guess_valid.
  - unfold slash_rule. destruct (Re.search _ text) as [mt'|]; [|discriminate].
    cbv zeta. apply slash_guess_valid.
Qed.

(** X4.  The date of every parsed request is a date of the calendar (never a
    30 February, a month 13 or a year 0), whatever rule produced it: its
    year lies in 1..9999, its month in 1..12 and its day within the
    month. *)
Theorem parsed_date_is_calendar_date clock text now req d :
  valid_date (_today clock now) = true ->
  parse_reservation_request clock text now = Ok req ->
  NlpParser.date req = Some d ->
  valid_date d = true
  /\ (1 <= year d <= 9999)%Z
  /\ (1 <= month d <= 12)%Z
  /\ (1 <= day d <= _days_in_month (year d) (month d))%Z.
Proof.
  intros V. unfold parse_reservation_request.
  destruct (_parse_date clock text now) as [od|] eqn:E; [|discriminate].
  cbv zeta. destruct (_parse_party_size text) as [n|]; [|discriminate].
  intros [= <-]. cbn [NlpParser.date]. intros ->.
  pose proof (parse_date_valid clock text now V E) as Vd.
  split; [exact Vd|].
  destruct d as [y m a]. unfold valid_date, valid_ymd in Vd.
  cbn [year month day] in *. unfold MINYEAR, MAXYEAR in Vd. lia.
Qed.

Lemma parsed_date_is_calendar_date_witness :
  valid_date (_today NOW (Some NOW)) = true
  /\ exists req,
       parse_reservation_request NOW "brunch on 1/3" (Some NOW) = Ok req
       /\ NlpParser.date req = Some (mkdate 2026 3 1)
       /\ valid_date (mkdate 2026 3 1) = true.
Proof.
  assert (V : valid_date (_today NOW (Some NOW)) = true) by reflexivity.
  split; [exact V|].
  destruct (parse_reservation_request NOW "brunch on 1/3" (Some NOW))
    as [req|] eqn:E; [|vm_compute in E; discriminate E].
  assert (Hd : NlpParser.date req = Some (mkdate 2026 3 1))
    by (vm_compute in E; injection E as <-; reflexivity).
  exists req. split; [reflexivity|]. split; [exact Hd|].
  exact (proj1 (parsed_date_is_calendar_date NOW "brunch on 1/3" (Some NOW)
                  V E Hd)).
Defined.

(** X5.  The date extractor raises exactly when the relative rule that
    applies ("tomorrow" or a weekday name) asks for a day beyond the last
    one of the calendar; the exception is [OverflowError].  Texts with
    "tonight" or "today", and texts with no relative expression, never
    make it raise: a day or month that does not exist is passed over. *)
Theorem parse_date_raises_iff clock text now e :
  valid_date (_today clock now) = true ->
  (_parse_date clock text now = Raise e
   <-> e = OverflowError
       /\ exists k,
            days_requested (_today clock now) (PyStr.lower text) = Some k
            /\ (_MAXORDINAL < toordinal (_today clock now) + k)%Z).
Proof.
  intros V.
  unfold _parse_date, days_requested. cbv zeta.
  set (today := _today clock now) in *.
  pose proof (@valid_date_ordinal _ V) as Ho. fold today in Ho.
  destruct (found (Re.search "\btonight\b|\btoday\b" _)).
  { split; [discriminate|]. intros (_ & k & [=] & _). }
  destruct (found (Re.search "\btomorrow\b" _)).
  { destruct (add_days today 1) as [d1|e1] eqn:E.
    - split; [discriminate|]. intros (_ & k & [= <-] & Hk).
      unfold add_days in E. cbv zeta in E.
      destruct (Z.ltb_spec 0 (toordinal today + 1)),
        (Z.leb_spec (toordinal today + 1) _MAXORDINAL); cbn [andb] in E;
        (discriminate || lia).
    - apply add_days_raises in E as [-> [E|E]]; [lia|].
      split.
      + intros [= <-]. split; [reflexivity|]. now exists 1%Z.
      + now intros [-> _]. }
  rewrite weekday_rule_find. unfold first_weekday.
  destruct (find _ _WEEKDAY_MAP) as [w|].
  { pose proof (days_ahead_range (snd w) (weekday today)) as Hr.
    destruct (add_days today _) as [d1|e1] eqn:E.
    - split; [discriminate|]. intros (_ & k & [= <-] & Hk).
      unfold add_days in E. cbv zeta in E.
      destruct (Z.ltb_spec 0 (toordinal today + days_ahead_of (snd w) (weekday today))),
        (Z.leb_spec (toordinal today + days_ahead_of (snd w) (weekday today)) _MAXORDINAL);
        cbn [andb] in E; (discriminate || lia).
    - apply add_days_raises in E as [-> [E|E]]; [lia|].
      split.
      + intros [= <-]. split; [reflexivity|]. eexists; split; [reflexivity|exact E].
      + now intros [-> _]. }
  split; [|intros (_ & k & [=] & _)].
  destruct (month_rule_total today (PyStr.lower text) _MONTH_MAP) as [[d1|] ->];
    [discriminate|].
  destruct (iso_rule_total text) as [[d1|] ->]; [discriminate|].
  unfold slash_rule. destruct (Re.search _ text) as [mt|]; [|discriminate].
  cbv zeta. destruct (slash_guess_total today
    [(PyStr.int (group_str mt 2), PyStr.int (group_str mt 1));
     (PyStr.int (group_str mt 1), PyStr.int (group_str mt 2))]) as [o ->].
  discriminate.
Qed.

Lemma parse_date_raises_iff_witness :
  valid_date (_today NOW (Some LAST)) = true
  /\ (_parse_date NOW "see you tomorrow" (Some LAST)
      = Raise OverflowError
      <-> OverflowError = OverflowError
          /\ exists k,
               days_requested (_today NOW (Some LAST))
                 (PyStr.lower "see you tomorrow") = Some k
               /\ (_MAXORDINAL < toordinal (_today NOW (Some LAST)) + k)%Z).
Proof.
  split; [reflexivity|].
  exact (@parse_date_raises_iff NOW "see you tomorrow" (Some LAST)
           OverflowError
           eq_refl).
Defined.


Lemma this_or_next_year_shape today y m d x :
  this_or_next_year today y m d = Ok x ->
  month x = m /\ day x = d /\ valid_date x = true
  /\ ((year x = y /\ date_lt x today = false)
      \/ (year x = (y + 1)%Z /\ date_lt (mkdate y m d) today = true)).
Proof.
  intros H. pose proof (this_or_next_year_valid _ _ _ _ H) as V.
  unfold this_or_next_year in H.
  destruct (new_date y m d) as [d0|] eqn:E0; [|discriminate].
  apply new_date_inv in E0. subst d0.
  destruct (date_lt (mkdate y m d) today) eqn:L.
  - apply new_date_inv in H. subst x. simpl. auto 6.
  - injection H as <-. simpl. auto 6.
Qed.

Lemma month_rule_entry today lower entries d :
  month_rule today lower entries = Ok (Some d) ->
  exists name num mt,
    In (name, num) entries
    /\ month_match lower name = Some mt
    /\ this_or_next_year today (year today) num (PyStr.int (group_str mt 1))
       = Ok d.
Proof.
  induction entries as [|[name num] rest IH]; [discriminate|].
  cbn [month_rule]. cbv zeta. fold (month_match lower name).
  destruct (month_match lower name) as [mt|] eqn:M.
  - destruct (this_or_next_year _ _ _ _) as [d1|[]] eqn:E.
    + intros [= <-]. exists name, num, mt. simpl. auto.
    + intros H. destruct (IH H) as (n & k & mt' & Hin & Hm & Ht).
      exists n, k, mt'. simpl. auto.
    + discriminate.
  - intros H. destruct (IH H) as (n & k & mt' & Hin & Hm & Ht).
    exists n, k, mt'. simpl. auto.
Qed.

(** X6.  The month-name rule: the date it yields has the month of a name that
    occurs next to a number, that number as its day, and the reference
    year, or the next year when the date would otherwise be past. *)
Theorem month_rule_result clock text now d :
  no_relative_keyword (PyStr.lower text) ->
  first_weekday (PyStr.lower text) = None ->
  month_rule (_today clock now) (PyStr.lower text) _MONTH_MAP = Ok (Some d) ->
  _parse_date clock text now = Ok (Some d)
  /\ exists name num mt,
       In (name, num) _MONTH_MAP
       /\ month_match (PyStr.lower text) name = Some mt
       /\ month d = num
       /\ day d = PyStr.int (group_str mt 1)
       /\ valid_date d = true
       /\ ((year d = year (_today clock now)
            /\ date_le (_today clock now) d = true)
           \/ (year d = (year (_today clock now) + 1)%Z
               /\ date_lt (mkdate (year (_today clock now)) num (day d))
                    (_today clock now) = true)).
Proof.
  intros [H1 H2] Hf Hm. split.
  - unfold _parse_date. cbv zeta. rewrite H1, H2, weekday_rule_find.
    unfold first_weekday in Hf. rewrite Hf, Hm. reflexivity.
  - apply month_rule_entry in Hm as (name & num & mt & Hin & Hmm & Ht).
    apply this_or_next_year_shape in Ht as (Em & Ed & V & Hy).
    exists name, num, mt. repeat split; try assumption.
    destruct Hy as [[Ey L] | [Ey L]].
    + left. split; [exact Ey|]. unfold date_le. now rewrite L.
    + right. split; [exact Ey|]. now rewrite Ed.
Qed.

Lemma month_rule_result_witness :
  no_relative_keyword (PyStr.lower "Table for 2 on 3 March")
  /\ first_weekday (PyStr.lower "Table for 2 on 3 March") = None
  /\ month_rule (_today NOW (Some NOW)) (PyStr.lower "Table for 2 on 3 March")
       _MONTH_MAP = Ok (Some (mkdate 2026 3 3))
  /\ _parse_date NOW "Table for 2 on 3 March" (Some NOW)
     = Ok (Some (mkdate 2026 3 3)).
Proof.
  assert (Hk : no_relative_keyword (PyStr.lower "Table for 2 on 3 March"))
    by (split; vm_compute; reflexivity).
  assert (Hf : first_weekday (PyStr.lower "Table for 2 on 3 March") = None)
    by (vm_compute; reflexivity).
  assert (Hm : month_rule (_today NOW (Some NOW))
                 (PyStr.lower "Table for 2 on 3 March") _MONTH_MAP
               = Ok (Some (mkdate 2026 3 3))) by (vm_compute; reflexivity).
  repeat (split; [assumption|]).
  exact (proj1 (@month_rule_result NOW "Table for 2 on 3 March" (Some NOW)
                  _ Hk Hf Hm)).
Defined.

Lemma slash_guess_pair today a b d :
  slash_guess today [(b, a); (a, b)] = Ok (Some d) ->
  (reading_accepted today b a = true /\ month d = b /\ day d = a)
  \/ (reading_accepted today b a = false
      /\ reading_accepted today a b = true /\ month d = a /\ day d = b).
Proof.
  cbn [slash_guess]. unfold reading_accepted.
  destruct ((1 <=? b) && (b <=? 12) && (1 <=? a) && (a <=? 31))%Z.
  - destruct (this_or_next_year today (year today) b a) as [d1|[]] eqn:E1.
    + intros [= <-]. left.
      apply this_or_next_year_shape in E1 as (Em & Ed & _). auto.
    + destruct ((1 <=? a) && (a <=? 12) && (1 <=? b) && (b <=? 31))%Z;
        [|discriminate].
      destruct (this_or_next_year today (year today) a b) as [d2|[]] eqn:E2;
        try discriminate.
      intros [= <-]. right.
      apply this_or_next_year_shape in E2 as (Em & Ed & _). auto.
    + discriminate.
  - destruct ((1 <=? a) && (a <=? 12) && (1 <=? b) && (b <=? 31))%Z;
      [|discriminate].
    destruct (this_or_next_year today (year today) a b) as [d2|[]] eqn:E2;
      try discriminate.
    intros [= <-]. right.
    apply this_or_next_year_shape in E2 as (Em & Ed & _). auto.
Qed.

(** X7.  The numeric-pair rule, reached when no other rule yields a date,
    reads "A/B" (or "A-B") day first: the date has month B and day A
    whenever that reading is accepted, and month A and day B only when it
    is not; the year is the reference year, or the next one when the date
    would otherwise be past. *)
Theorem slash_rule_result clock text now d :
  no_relative_keyword (PyStr.lower text) ->
  first_weekday (PyStr.lower text) = None ->
  month_rule (_today clock now) (PyStr.lower text) _MONTH_MAP = Ok None ->
  iso_rule text = Ok None ->
  _parse_date clock text now = Ok (Some d) ->
  exists mt,
    Re.search "\b(\d{1,2})[/\-](\d{1,2})\b" text = Some mt
    /\ let today := _today clock now in
       let a := PyStr.int (group_str mt 1) in
       let b := PyStr.int (group_str mt 2) in
       ((reading_accepted today b a = true /\ month d = b /\ day d = a)
        \/ (reading_accepted today b a = false
            /\ reading_accepted today a b = true
            /\ month d = a /\ day d = b))
       /\ valid_date d = true
       /\ date_le today d = true
       /\ (year today <= year d <= year today + 1)%Z.
Proof.
  intros [H1 H2] Hf Hm Hi. unfold _parse_date. cbv zeta.
  rewrite H1, H2, weekday_rule_find. unfold first_weekday in Hf.
  rewrite Hf, Hm, Hi. set (today := _today clock now).
  unfold slash_rule. destruct (Re.search _ text) as [mt|]; [|discriminate].
  cbv zeta. intros H. exists mt. split; [reflexivity|].
  split; [exact (slash_guess_pair _ _ _ H)|].
  split; [eapply slash_guess_valid; exact H|].
  split; [eapply slash_guess_not_before; exact H|].
  revert H. cbn [slash_guess].
  repeat match goal with
         | |- context [if ?c then _ else _] => destruct c
         | |- context [this_or_next_year ?t ?y ?m ?k] =>
             let E := fresh "E" in
             destruct (this_or_next_year t y m k) as [?|[]] eqn:E;
             [apply this_or_next_year_shape in E as (_ & _ & _ & [[E _]|[E _]])
             | | ]
         end; try discriminate; intros [= <-]; lia.
Qed.

Lemma slash_rule_result_witness :
  no_relative_keyword (PyStr.lower "dinner 3/4 at Taizu")
  /\ first_weekday (PyStr.lower "dinner 3/4 at Taizu") = None
  /\ month_rule (_today NOW (Some NOW)) (PyStr.lower "dinner 3/4 at Taizu")
       _MONTH_MAP = Ok None
  /\ iso_rule "dinner 3/4 at Taizu" = Ok None
  /\ _parse_date NOW "dinner 3/4 at Taizu" (Some NOW)
     = Ok (Some (mkdate 2025 4 3))
  /\ exists mt,
       Re.search "\b(\d{1,2})[/\-](\d{1,2})\b" "dinner 3/4 at Taizu" = Some mt
       /\ PyStr.int (group_str mt 1) = 3%Z
       /\ PyStr.int (group_str mt 2) = 4%Z.
Proof.
  assert (Hk : no_relative_keyword (PyStr.lower "dinner 3/4 at Taizu"))
    by (split; vm_compute; reflexivity).
  assert (Hf : first_weekday (PyStr.lower "dinner 3/4 at Taizu") = None)
    by (vm_compute; reflexivity).
  assert (Hm : month_rule (_today NOW (Some NOW))
                 (PyStr.lower "dinner 3/4 at Taizu") _MONTH_MAP = Ok None)
    by (vm_compute; reflexivity).
  assert (Hi : iso_rule "dinner 3/4 at Taizu" = Ok None)
    by (vm_compute; reflexivity).
  assert (E : _parse_date NOW "dinner 3/4 at Taizu" (Some NOW)
              = Ok (Some (mkdate 2025 4 3))) by (vm_compute; reflexivity).
  repeat (split; [assumption|]).
  destruct (@slash_rule_result NOW _ (Some NOW) _ Hk Hf Hm Hi E)
    as (mt & Hs & _).
  exists mt. split; [exact Hs|].
  vm_compute in Hs. injection Hs as <-. split; reflexivity.
Defined.

End MoreDateFacts.

(* ------------------------------------------------------------------ *)
(** * Further properties: the relative keywords *)
(* ------------------------------------------------------------------ *)

Module KeywordFacts.
Import PyStr Re Datetime NlpParser Props ReFacts DatetimeFacts DateFacts
  PyStrMore ParsedRequestMethods MoreProps.

(** A match anywhere at or after the cursor makes [scan] succeed. *)
Lemma scan_complete ic r : forall pre bef post,
  m ic r accept (mkcursor (rev pre ++ bef) post) [] <> None ->
  scan ic r bef (pre ++ post) <> None.
Proof.
  induction pre as [|x pre IH]; intros bef post H.
  - simpl in *. destruct post as [|y post]; cbn [scan];
      destruct (m ic r accept _ []) as [[c g]|]; congruence.
  - simpl app. cbn [scan].
    destruct (m ic r accept (mkcursor bef (x :: pre ++ post)) [])
      as [[c g]|]; [discriminate|].
    apply IH. simpl rev in H. now rewrite <- app_assoc in H.
Qed.

Lemma search_re_complete ic r (s : string) pre post :
  list_ascii_of_string s = (pre ++ post)%list ->
  m ic r accept (mkcursor (rev pre) post) [] <> None ->
  search_re ic r s <> None.
Proof.
  intros Es H. unfold search_re. cbv zeta. rewrite Es.
  pose proof (@scan_complete ic r pre [] post) as C.
  rewrite app_nil_r in C. specialize (C H).
  destruct (scan ic r [] (pre ++ post)) as [[[a c] g]|]; congruence.
Qed.

Lemma is_word_lower c : is_word (lower_char c) = is_word c.
Proof. destruct c as [[] [] [] [] [] [] [] []]; reflexivity. Qed.

Lemma word_at_lower l : word_at (lower_chars l) = word_at l.
Proof. destruct l as [|c l]; [reflexivity|]. simpl. apply is_word_lower. Qed.

Lemma lower_chars_of (s : string) :
  list_ascii_of_string (PyStr.lower s)
  = lower_chars (list_ascii_of_string s).
Proof. unfold PyStr.lower. apply list_ascii_of_string_of_list_ascii. Qed.

(** A word of the text, in any case, is in the lower-cased text in lower
    case, between the same kind of neighbours. *)
Lemma word_in_lower w text :
  word_in w text ->
  exists A B,
    list_ascii_of_string (PyStr.lower text)
    = (rev A ++ list_ascii_of_string w ++ B)%list
    /\ word_at A = false /\ word_at B = false.
Proof.
  intros (a & x & b & Et & Ex & Ha & Hb).
  exists (rev (lower_chars a)), (lower_chars b).
  rewrite lower_chars_of, Et. unfold lower_chars in *.
  rewrite !map_app, Ex, rev_involutive. split; [reflexivity|].
  rewrite <- map_rev. fold (lower_chars (rev a)). fold (lower_chars b).
  now rewrite !word_at_lower.
Qed.

Local Open Scope string_scope.

Lemma m_lit_ok ic ch k bef x aft g :
  lit_match ic ch x = true ->
  m ic (Lit ch) k (mkcursor bef (x :: aft)) g = k (mkcursor (x :: bef) aft) g.
Proof. intros H. cbn [m step after before]. now rewrite H. Qed.

Lemma m_bow_ok ic k c g :
  at_boundary c = true -> m ic Bow k c g = k c g.
Proof. intros H. cbn [m]. now rewrite H. Qed.

Lemma m_alt_left ic r1 r2 k c g :
  m ic r1 k c g <> None -> m ic (Alt r1 r2) k c g <> None.
Proof. cbn [m]. destruct (m ic r1 k c g); congruence. Qed.

Lemma m_alt_right ic r1 r2 k c g :
  m ic r2 k c g <> None -> m ic (Alt r1 r2) k c g <> None.
Proof. cbn [m]. destruct (m ic r1 k c g); congruence. Qed.

Lemma found_of_search p s :
  Re.search p s <> None -> found (Re.search p s) = true.
Proof. unfold found. destruct (Re.search p s); congruence. Qed.

(** Walks a pattern made of word boundaries and literal characters along
    the subject. *)
Ltac walk HA HB :=
  repeat first
    [ rewrite m_seq; cbv beta
    | rewrite m_lit_ok by reflexivity; cbv beta
    | rewrite m_bow_ok
        by (unfold at_boundary; cbn [before after word_at];
            rewrite ?HA, ?HB; reflexivity);
      cbv beta ];
  unfold accept; discriminate.

Ltac found_word H side :=
  destruct H as (A & B & El & HA & HB);
  apply found_of_search; unfold Re.search;
  apply (@search_re_complete _ _ _ (rev A) _ El);
  rewrite rev_involutive; vm_compute compile;
  cbn [list_ascii_of_string app];
  side; walk HA HB.

Lemma found_tonight lower :
  (exists A B,
      list_ascii_of_string lower
      = (rev A ++ list_ascii_of_string "tonight" ++ B)%list
      /\ word_at A = false /\ word_at B = false) ->
  found (Re.search "\btonight\b|\btoday\b" lower) = true.
Proof. intros H. found_word H ltac:(apply m_alt_left). Qed.

Lemma found_today lower :
  (exists A B,
      list_ascii_of_string lower
      = (rev A ++ list_ascii_of_string "today" ++ B)%list
      /\ word_at A = false /\ word_at B = false) ->
  found (Re.search "\btonight\b|\btoday\b" lower) = true.
Proof. intros H. found_word H ltac:(apply m_alt_right). Qed.

Lemma found_tomorrow lower :
  (exists A B,
      list_ascii_of_string lower
      = (rev A ++ list_ascii_of_string "tomorrow" ++ B)%list
      /\ word_at A = false /\ word_at B = false) ->
  found (Re.search "\btomorrow\b" lower) = true.
Proof. intros H. found_word H idtac. Qed.

(** X8.  Wherever the word "tonight" or "today" stands in a text, in any mix
    of cases, the date is the reference date: the other date expressions
    of the text play no part. *)
Theorem tonight_today_is_reference_date clock text now :
  word_in "tonight" text \/ word_in "today" text ->
  _parse_date clock text now = Ok (Some (_today clock now)).
Proof.
  intros H. unfold _parse_date. cbv zeta.
  assert (F : found (Re.search "\btonight\b|\btoday\b" (PyStr.lower text))
              = true).
  { destruct H as [H|H]; apply word_in_lower in H;
      [now apply found_tonight|now apply found_today]. }
  now rewrite F.
Qed.

Lemma tonight_today_is_reference_date_witness :
  word_in "tonight" "Sushi TONIGHT, not tomorrow or 2025-04-01"
  /\ _parse_date NOW "Sushi TONIGHT, not tomorrow or 2025-04-01" (Some NOW)
     = Ok (Some (mkdate 2025 3 5)).
Proof.
  assert (W : word_in "tonight" "Sushi TONIGHT, not tomorrow or 2025-04-01").
  { exists (list_ascii_of_string "Sushi "),
      (list_ascii_of_string "TONIGHT"),
      (list_ascii_of_string ", not tomorrow or 2025-04-01").
    repeat split; reflexivity. }
  split; [exact W|].
  exact (tonight_today_is_reference_date NOW (Some NOW) (or_introl W)).
Defined.

(** X9.  Wherever the word "tomorrow" stands in a text without "tonight" or
    "today", the date is the day after the reference date. *)
Theorem tomorrow_is_next_day clock text now d :
  word_in "tomorrow" text ->
  found (Re.search "\btonight\b|\btoday\b" (PyStr.lower text)) = false ->
  _parse_date clock text now = Ok (Some d) ->
  valid_date d = true
  /\ toordinal d = (toordinal (_today clock now) + 1)%Z.
Proof.
  intros W F. unfold _parse_date. cbv zeta. rewrite F.
  apply word_in_lower in W. rewrite (@found_tomorrow _ W).
  destruct (add_days _ 1) as [d1|] eqn:E; [|discriminate].
  intros [= <-].
  unfold add_days in E. cbv zeta in E.
  destruct ((0 <? _)%Z && (_ <=? _MAXORDINAL)%Z) eqn:R; [|discriminate].
  injection E as <-. apply andb_true_iff in R as [R1 R2].
  pose proof (@ord2ymd_sound (toordinal (_today clock now) + 1)%Z
                ltac:(lia)) as S.
  unfold fromordinal.
  destruct (_ord2ymd (toordinal (_today clock now) + 1)) as [[y mo] a].
  exact S.
Qed.

Lemma tomorrow_is_next_day_witness :
  word_in "tomorrow" "Tomorrow 7pm at Prozdor"
  /\ found (Re.search "\btonight\b|\btoday\b"
              (PyStr.lower "Tomorrow 7pm at Prozdor")) = false
  /\ _parse_date NOW "Tomorrow 7pm at Prozdor" (Some NOW)
     = Ok (Some (mkdate 2025 3 6))
  /\ toordinal (mkdate 2025 3 6) = (toordinal (_today NOW (Some NOW)) + 1)%Z.
Proof.
  assert (W : word_in "tomorrow" "Tomorrow 7pm at Prozdor").
  { exists [], (list_ascii_of_string "Tomorrow"),
      (list_ascii_of_string " 7pm at Prozdor").
    repeat split; reflexivity. }
  assert (F : found (Re.search "\btonight\b|\btoday\b"
                       (PyStr.lower "Tomorrow 7pm at Prozdor")) = false)
    by (vm_compute; reflexivity).
  assert (E : _parse_date NOW "Tomorrow 7pm at Prozdor" (Some NOW)
              = Ok (Some (mkdate 2025 3 6))) by (vm_compute; reflexivity).
  repeat (split; [assumption|]).
  exact (proj2 (@tomorrow_is_next_day NOW _ (Some NOW) _ W F E)).
Defined.

End KeywordFacts.

(* ------------------------------------------------------------------ *)
(** * Further properties: what a rule needs in the text *)
(* ------------------------------------------------------------------ *)

Module NeedFacts.
Import PyStr Re NlpParser Props ReFacts CaptureFacts PyStrMore MoreProps.

Lemma rep_loop_forwards body lo hi greedy k :
  forwards body ->
  forall fuel count c g res,
    rep_loop body lo hi greedy k fuel count c g = Some res ->
    exists c' g' pre,
      k c' g' = Some res /\ after c = (pre ++ after c')%list.
Proof.
  intros Hb. induction fuel as [|fuel IH]; intros count c g res; [discriminate|].
  intros H. apply rep_loop_cases in H as [[_ H] | [_ H]].
  - apply Hb in H as (c1 & g1 & p1 & H & E1).
    destruct (pos c <? pos c1)%nat; [|discriminate].
    apply IH in H as (c2 & g2 & p2 & H & E2).
    exists c2, g2, (p1 ++ p2)%list. split; [exact H|].
    now rewrite E1, E2, app_assoc.
  - exists c, g, []. auto.
Qed.

(** The matcher of every pattern moves forward in its input. *)
Lemma m_forwards ic r : forwards (m ic r).
Proof.
  induction r as [| ch | neg its | | | r1 IH1 r2 IH2 | r1 IH1 r2 IH2
                  | lo hi greedy r1 IH1 | n r1 IH1 | r1 IH1 | r1 IH1];
    intros k c g res.
  - cbn [m]. intros H. exists c, g, []. auto.
  - intros H. apply m_lit in H as (x & rest & Ea & _ & H).
    exists (mkcursor (x :: before c) rest), g, [x]. now rewrite Ea.
  - intros H. apply m_cls in H as (x & rest & Ea & _ & H).
    exists (mkcursor (x :: before c) rest), g, [x]. now rewrite Ea.
  - intros H. apply m_bow in H. exists c, g, []. auto.
  - cbn [m]. destruct (at_end c); [|discriminate]. intros H.
    exists c, g, []. auto.
  - rewrite m_seq. intros H.
    apply IH1 in H as (c1 & g1 & p1 & H & E1).
    apply IH2 in H as (c2 & g2 & p2 & H & E2).
    exists c2, g2, (p1 ++ p2)%list. split; [exact H|].
    now rewrite E1, E2, app_assoc.
  - cbn [m]. destruct (m ic r1 k c g) as [r|] eqn:E.
    + intros [= <-]. now apply IH1 in E.
    + intros H. now apply IH2 in H.
  - cbn [m]. now apply rep_loop_forwards.
  - rewrite m_group. intros H. apply IH1 in H as (c1 & g1 & p1 & H & E1).
    now exists c1, ((n, (pos c, pos c1)) :: g1), p1.
  - intros H. apply m_not_ahead in H. exists c, g, []. auto.
  - intros H. apply m_not_behind in H. exists c, g, []. auto.
Qed.

(** [requires] is sound: a pattern that requires a character with the
    property consumes one in every match. *)
Lemma requires_sound P ic r : requires P ic r = true -> consumes P (m ic r).
Proof.
  induction r as [| ch | neg its | | | r1 IH1 r2 IH2 | r1 IH1 r2 IH2
                  | lo hi greedy r1 IH1 | n r1 IH1 | r1 IH1 | r1 IH1];
    cbn [requires]; intros Hr k c g res; try discriminate.
  - intros H. apply m_lit in H as (x & rest & Ea & Hx & _).
    exists x. split; [rewrite Ea; now left|].
    pose proof (forallb_all_ascii _ x Hr) as I. cbv beta in I.
    now rewrite Hx in I.
  - intros H. apply m_cls in H as (x & rest & Ea & Hx & _).
    exists x. split; [rewrite Ea; now left|].
    pose proof (forallb_all_ascii _ x Hr) as I. cbv beta in I.
    now rewrite Hx in I.
  - rewrite m_seq. intros H. apply orb_true_iff in Hr as [Hr|Hr].
    + exact (IH1 Hr _ _ _ _ H).
    + apply m_forwards in H as (c1 & g1 & p1 & H & E1).
      apply (IH2 Hr) in H as (x & Hin & Hx).
      exists x. split; [|exact Hx]. rewrite E1. apply in_or_app. now right.
  - apply andb_true_iff in Hr as [H1 H2]. cbn [m].
    destruct (m ic r1 k c g) as [r|] eqn:E.
    + intros [= <-]. exact (IH1 H1 _ _ _ _ E).
    + intros H. exact (IH2 H2 _ _ _ _ H).
  - apply andb_true_iff in Hr as [Hlo Hr]. apply Nat.leb_le in Hlo.
    cbn [m]. intros H. apply rep_loop_cases in H as [[_ H] | [Hc _]]; [|lia].
    exact (IH1 Hr _ _ _ _ H).
  - rewrite m_group. intros H. exact (IH1 Hr _ _ _ _ H).
Qed.

(** Hence a search with such a pattern succeeds only on a subject that
    has a character with the property. *)
Lemma search_re_needs P ic r (s : string) mt :
  requires P ic r = true ->
  search_re ic r s = Some mt ->
  exists x, In x (list_ascii_of_string s) /\ P x = true.
Proof.
  intros Hr. unfold search_re. cbv zeta.
  destruct (scan ic r [] (list_ascii_of_string s)) as [[[a c] g]|] eqn:E;
    [|discriminate].
  intros _. apply scan_sound in E as (bef & aft & Es & _ & Em).
  apply (requires_sound _ _ _ Hr) in Em as (x & Hin & Hx).
  exists x. split; [|exact Hx]. simpl in Es. rewrite <- Es.
  apply in_or_app. now right.
Qed.

Lemma search_re_none P ic r (s : string) :
  requires P ic r = true ->
  (forall x, In x (list_ascii_of_string s) -> P x = false) ->
  search_re ic r s = None.
Proof.
  intros Hr Hs. destruct (search_re ic r s) as [mt|] eqn:E; [|reflexivity].
  apply (search_re_needs _ _ _ _ Hr) in E as (x & Hin & Hx).
  rewrite (Hs x Hin) in Hx. discriminate.
Qed.

(** What [re.sub] with an empty replacement leaves was in the subject. *)
Lemma cut_incl : forall sp at_ s x, In x (cut at_ sp s) -> In x s.
Proof.
  induction sp as [|[a b] sp IH]; intros at_ s x; cbn [cut]; [trivial|].
  intros H. apply in_app_or in H as [H|H].
  - rewrite <- (firstn_skipn (a - at_) s). apply in_or_app. now left.
  - apply IH in H. rewrite <- (firstn_skipn (b - at_) s).
    apply in_or_app. now right.
Qed.

Lemma sub_empty_re_incl ic r s x :
  In x (list_ascii_of_string (sub_empty_re ic r s)) ->
  In x (list_ascii_of_string s).
Proof.
  unfold sub_empty_re. cbv zeta. rewrite list_ascii_of_string_of_list_ascii.
  apply cut_incl.
Qed.

Lemma lower_incl s x :
  In x (list_ascii_of_string (PyStr.lower s)) ->
  exists y, In y (list_ascii_of_string s) /\ x = lower_char y.
Proof.
  unfold PyStr.lower. rewrite list_ascii_of_string_of_list_ascii.
  unfold lower_chars. intros H. apply in_map_iff in H as (y & E & Hin).
  now exists y.
Qed.


Lemma free_of_spec P text :
  free_of P text = true ->
  forall x, In x (list_ascii_of_string text) -> P x = false.
Proof.
  unfold free_of. intros H x Hin.
  pose proof (proj1 (forallb_forall _ _) H x Hin) as N. cbv beta in N.
  now apply negb_true_iff in N.
Qed.

(** A property that lower-casing neither creates nor destroys stays
    absent through [lower] and through [re.sub]. *)
Lemma free_of_lower P text :
  (forall y, P (lower_char y) = P y) ->
  free_of P text = true ->
  forall x, In x (list_ascii_of_string (PyStr.lower text)) -> P x = false.
Proof.
  intros HP Hf x Hin. apply lower_incl in Hin as (y & Hy & ->).
  rewrite HP. exact (free_of_spec _ _ Hf y Hy).
Qed.

Lemma is_digit_lower y : is_digit (lower_char y) = is_digit y.
Proof. destruct y as [[] [] [] [] [] [] [] []]; reflexivity. Qed.

Lemma is_colon_lower y : is_colon (lower_char y) = is_colon y.
Proof. destruct y as [[] [] [] [] [] [] [] []]; reflexivity. Qed.

Lemma is_letter_m_lower y : is_letter_m (lower_char y) = is_letter_m y.
Proof. destruct y as [[] [] [] [] [] [] [] []]; reflexivity. Qed.

Local Open Scope string_scope.

Lemma time_text_incl text x :
  In x (list_ascii_of_string (time_text text)) ->
  exists y, In y (list_ascii_of_string text) /\ x = lower_char y.
Proof.
  unfold time_text. intros H. apply lower_incl in H as (y & Hy & ->).
  exists y. split; [|reflexivity].
  unfold Re.sub_empty in Hy. now do 2 apply sub_empty_re_incl in Hy.
Qed.

Lemma time_text_free P text :
  (forall y, P (lower_char y) = P y) ->
  free_of P text = true ->
  forall x, In x (list_ascii_of_string (time_text text)) -> P x = false.
Proof.
  intros HP Hf x Hin. apply time_text_incl in Hin as (y & Hy & ->).
  rewrite HP. exact (free_of_spec _ _ Hf y Hy).
Qed.

Lemma colon_needs_colon :
  requires is_colon true
    (Re.compile "\b(\d{1,2}):(\d{2})(?::\d{2})?\s*(am|pm)?\b") = true.
Proof. vm_compute. reflexivity. Qed.

Lemma colon_needs_digit :
  requires is_digit true
    (Re.compile "\b(\d{1,2}):(\d{2})(?::\d{2})?\s*(am|pm)?\b") = true.
Proof. vm_compute. reflexivity. Qed.

Lemma bare_needs_m :
  requires is_letter_m true (Re.compile "\b(\d{1,2})\s*(am|pm)\b") = true.
Proof. vm_compute. reflexivity. Qed.

Lemma bare_needs_digit :
  requires is_digit true (Re.compile "\b(\d{1,2})\s*(am|pm)\b") = true.
Proof. vm_compute. reflexivity. Qed.

Lemma parse_time_none text :
  Re.search_i "\b(\d{1,2}):(\d{2})(?::\d{2})?\s*(am|pm)?\b" (time_text text)
    = None ->
  Re.search_i "\b(\d{1,2})\s*(am|pm)\b" (time_text text) = None ->
  _parse_time text = "".
Proof.
  intros H1 H2. change (_parse_time text) with
    (match colon_time (time_text text) with
     | Some t => t
     | None => match bare_hour_time (time_text text) with
               | Some t => t
               | None => ""
               end
     end).
  unfold colon_time, bare_hour_time. now rewrite H1, H2.
Qed.

(** X10.  A number that has neither a colon nor "am"/"pm" with it is never read
    as a time: a text without a colon and without the letter m yields no
    time, and the record gets the default "20:00". *)
Theorem bare_numbers_are_not_times text :
  free_of is_colon text = true ->
  free_of is_letter_m text = true ->
  _parse_time text = ""
  /\ forall clock now req,
       parse_reservation_request clock text now = Ok req ->
       time_str req = "20:00".
Proof.
  intros Hc Hm.
  assert (E : _parse_time text = "").
  { apply parse_time_none.
    - apply (@search_re_none _ _ _ _ colon_needs_colon).
      apply time_text_free; [exact is_colon_lower|exact Hc].
    - apply (@search_re_none _ _ _ _ bare_needs_m).
      apply time_text_free; [exact is_letter_m_lower|exact Hm]. }
  split; [exact E|].
  intros clock now req. unfold parse_reservation_request.
  destruct (_parse_date clock text now); [|discriminate].
  cbv zeta. destruct (_parse_party_size text); [|discriminate].
  rewrite E. now intros [= <-].
Qed.

Lemma bare_numbers_are_not_times_witness :
  free_of is_colon "book 2 on 2025-03-10, 8 or 9 o'clock" = true
  /\ free_of is_letter_m "book 2 on 2025-03-10, 8 or 9 o'clock" = true
  /\ _parse_time "book 2 on 2025-03-10, 8 or 9 o'clock" = "".
Proof.
  split; [reflexivity|]. split; [reflexivity|].
  exact (proj1 (@bare_numbers_are_not_times
                  "book 2 on 2025-03-10, 8 or 9 o'clock" eq_refl eq_refl)).
Defined.

Lemma months_need_digit : forallb month_needs_digit _MONTH_MAP = true.
Proof. vm_compute. reflexivity. Qed.

Lemma parties_need_digit : forallb party_needs_digit party_patterns = true.
Proof. vm_compute. reflexivity. Qed.

Lemma lone_needs_digit :
  requires is_digit false (Re.compile "(?<![:\d])(\b[2-9]\b)(?![\d:])") = true.
Proof. vm_compute. reflexivity. Qed.

Lemma iso_needs_digit :
  requires is_digit false (Re.compile "\b(\d{4})-(\d{2})-(\d{2})\b") = true.
Proof. vm_compute. reflexivity. Qed.

Lemma slash_needs_digit :
  requires is_digit false (Re.compile "\b(\d{1,2})[/\-](\d{1,2})\b") = true.
Proof. vm_compute. reflexivity. Qed.

Lemma month_rule_no_digit today lower entries :
  forallb month_needs_digit entries = true ->
  (forall x, In x (list_ascii_of_string lower) -> is_digit x = false) ->
  month_rule today lower entries = Ok None.
Proof.
  intros He Hl. induction entries as [|[name num] rest IH]; [reflexivity|].
  cbn [forallb] in He. apply andb_true_iff in He as [Hn He].
  unfold month_needs_digit in Hn. cbn [fst] in Hn.
  apply andb_true_iff in Hn as [N1 N2].
  cbn [month_rule]. cbv zeta. unfold Re.search.
  rewrite (@search_re_none _ _ _ _ N1 Hl), (@search_re_none _ _ _ _ N2 Hl).
  now apply IH.
Qed.

Lemma party_loop_no_digit lower pats :
  forallb party_needs_digit pats = true ->
  (forall x, In x (list_ascii_of_string lower) -> is_digit x = false) ->
  party_loop lower pats = Ok None.
Proof.
  intros Hp Hl. induction pats as [|p pats IH]; [reflexivity|].
  cbn [forallb] in Hp. apply andb_true_iff in Hp as [Hn Hp].
  cbn [party_loop]. unfold Re.search.
  rewrite (@search_re_none _ _ _ _ Hn Hl). now apply IH.
Qed.

(** X11.  A text without a digit gets the defaults: party size 2 and time
    "20:00"; and no date unless "tonight", "today", "tomorrow" or a
    weekday name stands in it (a month name alone gives none). *)
Theorem text_without_digits text :
  free_of is_digit text = true ->
  _parse_party_size text = Ok 2%Z
  /\ _parse_time text = ""
  /\ forall clock now,
       no_relative_keyword (PyStr.lower text) ->
       first_weekday (PyStr.lower text) = None ->
       parse_reservation_request clock text now
       = Ok (mkParsedRequest (_parse_restaurant_name text) None "20:00" 2
               text).
Proof.
  intros Hf.
  pose proof (free_of_lower _ _ is_digit_lower Hf) as Hl.
  pose proof (free_of_spec _ _ Hf) as Ht.
  assert (Ep : _parse_party_size text = Ok 2%Z).
  { unfold _parse_party_size. cbv zeta.
    rewrite (party_loop_no_digit _ _ parties_need_digit Hl).
    unfold lone_digit. cbv zeta. unfold Re.search.
    rewrite (@search_re_none _ _ _ _ lone_needs_digit); [reflexivity|].
    intros x Hin. unfold Re.sub_empty_i in Hin.
    apply sub_empty_re_incl in Hin. now apply Hl. }
  assert (Et : _parse_time text = "").
  { apply parse_time_none.
    - apply (@search_re_none _ _ _ _ colon_needs_digit).
      apply time_text_free; [exact is_digit_lower|exact Hf].
    - apply (@search_re_none _ _ _ _ bare_needs_digit).
      apply time_text_free; [exact is_digit_lower|exact Hf]. }
  split; [exact Ep|]. split; [exact Et|].
  intros clock now [H1 H2] Hw.
  unfold parse_reservation_request, _parse_date. cbv zeta.
  rewrite H1, H2, DateFacts.weekday_rule_find.
  unfold first_weekday in Hw. rewrite Hw.
  rewrite (month_rule_no_digit _ _ _ months_need_digit Hl).
  unfold iso_rule, slash_rule, Re.search.
  rewrite (@search_re_none _ _ _ _ iso_needs_digit Ht).
  rewrite (@search_re_none _ _ _ _ slash_needs_digit Ht).
  now rewrite Ep, Et.
Qed.

Lemma text_without_digits_witness :
  free_of is_digit "Dinner in March at Taizu Bar" = true
  /\ no_relative_keyword (PyStr.lower "Dinner in March at Taizu Bar")
  /\ first_weekday (PyStr.lower "Dinner in March at Taizu Bar") = None
  /\ parse_reservation_request NOW "Dinner in March at Taizu Bar" (Some NOW)
     = Ok (mkParsedRequest "Taizu Bar" None "20:00" 2
             "Dinner in March at Taizu Bar").
Proof.
  assert (Hk : no_relative_keyword (PyStr.lower "Dinner in March at Taizu Bar"))
    by (split; vm_compute; reflexivity).
  assert (Hf : first_weekday (PyStr.lower "Dinner in March at Taizu Bar")
               = None) by (vm_compute; reflexivity).
  split; [reflexivity|]. split; [exact Hk|]. split; [exact Hf|].
  rewrite (proj2 (proj2 (@text_without_digits "Dinner in March at Taizu Bar"
                           eq_refl)) NOW (Some NOW) Hk Hf).
  vm_compute. reflexivity.
Defined.

End NeedFacts.

(* ------------------------------------------------------------------ *)
(** * Further properties: the restaurant name *)
(* ------------------------------------------------------------------ *)

Module NameFacts.
Import PyStr Re Datetime NlpParser Props ReFacts ParserFacts PyStrMore
  MoreProps FormatFacts.

Lemma chars_of_list l : list_ascii_of_string (string_of_list_ascii l) = l.
Proof. apply list_ascii_of_string_of_list_ascii. Qed.

Lemma string_of_chars (s : string) :
  string_of_list_ascii (list_ascii_of_string s) = s.
Proof. apply string_of_list_ascii_of_string. Qed.

Lemma word_of_chars P cur :
  cur <> [] -> forallb P cur = true ->
  word_of P (string_of_list_ascii (rev cur)) = true.
Proof.
  intros Hn Hc. unfold word_of. rewrite chars_of_list, forallb_rev_eq, Hc.
  destruct cur as [|c cur]; [contradiction|].
  simpl rev. destruct (rev cur); reflexivity.
Qed.

(** [split] gives non-empty words made of the characters of the string
    that are not white space. *)
Lemma split_chars_words P : forall s cur,
  forallb P cur = true ->
  (forall x, In x s -> is_space x = false -> P x = true) ->
  forallb (word_of P) (split_chars cur s) = true.
Proof.
  induction s as [|c s IH]; intros cur Hc Hs.
  - cbn [split_chars]. destruct cur as [|c0 cur0]; [reflexivity|].
    cbn [forallb]. rewrite word_of_chars; [reflexivity|discriminate|exact Hc].
  - cbn [split_chars].
    assert (Hs' : forall x, In x s -> is_space x = false -> P x = true)
      by (intros x Hx; apply Hs; now right).
    destruct (is_space c) eqn:Sp.
    + destruct cur as [|c0 cur0]; [now apply IH|].
      cbn [forallb]. rewrite word_of_chars; [|discriminate|exact Hc].
      now apply IH.
    + apply IH; [|exact Hs']. cbn [forallb]. rewrite Hc.
      rewrite (Hs c (or_introl eq_refl) Sp). reflexivity.
Qed.

Lemma lstrip_chars_keeps P s :
  forallb P s = true -> forallb P (lstrip_chars s) = true.
Proof.
  induction s as [|c s IH]; [trivial|].
  intros H. cbn [lstrip_chars]. destruct (is_space c); [|exact H].
  cbn [forallb] in H. apply andb_true_iff in H as [_ H]. now apply IH.
Qed.

Lemma strip_chars_keeps P s :
  forallb P s = true -> forallb P (strip_chars s) = true.
Proof.
  intros H. unfold strip_chars. rewrite forallb_rev_eq.
  apply lstrip_chars_keeps. rewrite forallb_rev_eq.
  now apply lstrip_chars_keeps.
Qed.

Lemma name_char_letter x :
  is_name_char x = true -> is_space x = false -> is_name_letter x = true.
Proof. destruct x as [[] [] [] [] [] [] [] []]; cbv; congruence. Qed.

Lemma name_letter_no_space x : is_name_letter x = true -> is_space x = false.
Proof. destruct x as [[] [] [] [] [] [] [] []]; cbv; congruence. Qed.

Lemma name_letter_class x :
  cls_match false false
    [IRange "A" "Z"; IRange "a" "z"; IChar "'"; IChar "'"; IChar "-"] x
  = is_name_letter x.
Proof. destruct x as [[] [] [] [] [] [] [] []]; reflexivity. Qed.

(** The words of a stripped capture are words of a name. *)
Lemma capture_words l :
  forallb is_name_char l = true ->
  forallb name_word (split (strip (string_of_list_ascii l))) = true.
Proof.
  intros H. unfold split, strip. rewrite !chars_of_list.
  apply split_chars_words; [reflexivity|].
  intros x Hx Sp. apply name_char_letter; [|exact Sp].
  exact (proj1 (forallb_forall _ _) (@strip_chars_keeps _ _ H) x Hx).
Qed.

(** ** [split] after [join] *)

Lemma split_chars_run : forall w cur rest,
  forallb (fun x => negb (is_space x)) w = true ->
  split_chars cur (w ++ rest) = split_chars (rev w ++ cur) rest.
Proof.
  induction w as [|c w IH]; intros cur rest H; [reflexivity|].
  cbn [forallb] in H. apply andb_true_iff in H as [Hc H].
  apply negb_true_iff in Hc.
  cbn [app split_chars]. rewrite Hc, IH by exact H.
  cbn [rev]. now rewrite <- app_assoc.
Qed.

Lemma word_of_no_space w :
  name_word w = true ->
  w <> EmptyString
  /\ forallb (fun x => negb (is_space x)) (list_ascii_of_string w) = true.
Proof.
  unfold name_word, word_of. intros H. apply andb_true_iff in H as [Hn Hc].
  split.
  - intros ->. discriminate Hn.
  - apply forallb_forall. intros x Hx.
    rewrite (name_letter_no_space x); [reflexivity|].
    exact (proj1 (forallb_forall _ _) Hc x Hx).
Qed.

Local Open Scope string_scope.

Lemma split_one (w : string) : forall post,
  name_word w = true ->
  split_chars [] (list_ascii_of_string w ++ post)%list
  = split_chars (rev (list_ascii_of_string w)) post.
Proof.
  intros post H. apply word_of_no_space in H as [_ H].
  rewrite split_chars_run by exact H. now rewrite app_nil_r.
Qed.

Lemma rev_chars_nonempty (w : string) :
  w <> "" -> rev (list_ascii_of_string w) <> [].
Proof.
  intros Hw E. apply (f_equal (@rev ascii)) in E.
  rewrite rev_involutive in E. cbn [rev] in E.
  apply Hw. now rewrite <- (string_of_chars w), E.
Qed.

Lemma split_join ws :
  forallb name_word ws = true -> split (join " " ws) = ws.
Proof.
  unfold split. induction ws as [|w ws IH]; [reflexivity|].
  intros H. cbn [forallb] in H. apply andb_true_iff in H as [Hw H].
  pose proof (@word_of_no_space _ Hw) as [Hne _].
  pose proof (@rev_chars_nonempty _ Hne) as Hr.
  destruct ws as [|w' ws'].
  - cbn [join]. rewrite <- (app_nil_r (list_ascii_of_string w)).
    rewrite split_one by exact Hw. cbn [split_chars].
    destruct (rev (list_ascii_of_string w)) as [|c l] eqn:E;
      [contradiction|].
    rewrite <- E, rev_involutive, string_of_chars. reflexivity.
  - change (join " " (w :: w' :: ws'))
      with (w ++ " " ++ join " " (w' :: ws')).
    rewrite chars_app, split_one by exact Hw.
    rewrite chars_app. cbn [list_ascii_of_string app split_chars].
    change (is_space " ") with true. cbv iota.
    destruct (rev (list_ascii_of_string w)) as [|c l] eqn:E;
      [contradiction|].
    rewrite <- E, rev_involutive, string_of_chars.
    now rewrite (IH H).
Qed.

(** ** The three sources of a name *)

Lemma forallb_app_l (A : Type) (f : A -> bool) l1 l2 :
  forallb f (l1 ++ l2)%list = true -> forallb f l1 = true.
Proof. rewrite forallb_app. intros H. now apply andb_true_iff in H. Qed.

(** Cleaning a string whose words are words of a name. *)
Lemma clean_words name :
  forallb name_word (split name) = true ->
  exists kept,
    _clean_restaurant_name name = join " " kept
    /\ forallb name_word kept = true
    /\ (forall w, last_word kept = Some w -> is_noise_word w = false).
Proof.
  intros H.
  destruct (clean_restaurant_name_spec name) as (kept & dropped & E & _ & L & C).
  exists kept. split; [exact C|]. split; [|exact L].
  rewrite E in H. exact (@forallb_app_l _ _ _ _ H).
Qed.

(** What the "in" pattern captures: letters, spaces, apostrophes and
    hyphens. *)
Lemma in_capture_shape text mt :
  Re.search_i in_pattern text = Some mt ->
  exists l,
    group_str mt 1 = string_of_list_ascii l
    /\ forallb is_name_char l = true.
Proof.
  unfold Re.search_i, Re.search_re. cbv zeta.
  set (subj := list_ascii_of_string text). clearbody subj.
  set (R := Re.compile in_pattern). vm_compute in R.
  destruct (Re.scan true R [] subj) as [[[a c] g]|] eqn:E; [|discriminate].
  apply scan_sound in E as (bef & aft & Esub & -> & Em).
  simpl rev in Esub. simpl app in Esub. subst subj R.
  rewrite m_seq in Em. apply m_bow in Em.
  rewrite m_seq in Em. apply m_lit in Em as (a1 & r1 & E1 & _ & Em).
  rewrite m_seq in Em. apply m_lit in Em as (a2 & r2 & E2 & _ & Em).
  rewrite m_seq in Em. apply m_rep_cls in Em as (sp & r3 & E3 & _ & _ & Em).
  rewrite m_seq, m_group, m_seq in Em.
  apply m_cls in Em as (x & r4 & E4 & Hx & Em).
  apply m_rep_cls in Em as (xs & r5 & E5 & Hxs & Hlen & Em).
  apply m_keeps in Em as [c' Em]; [|reflexivity].
  unfold Re.accept in Em. injection Em as <- <-.
  cbn [Re.after Re.before] in *. subst aft r1 r2 r3 r4.
  intros [= <-]. exists (x :: xs). split.
  - unfold group_str, Re.group.
    cbn [Re.m_caps Re.span_of Nat.eqb Re.m_subject]. unfold Re.pos.
    cbn [Re.before].
    set (bef1 := (rev sp ++ a2 :: a1 :: bef)%list).
    replace (rev bef ++ a1 :: a2 :: sp ++ x :: xs ++ r5)%list
      with (rev bef1 ++ (x :: xs) ++ r5)%list.
    + replace (rev xs ++ x :: bef1)%list with (rev (x :: xs) ++ bef1)%list
        by (simpl; now rewrite <- app_assoc).
      apply slice_run.
    + subst bef1. rewrite rev_app_distr, rev_involutive. simpl.
      rewrite <- !app_assoc. reflexivity.
  - cbn [forallb]. rewrite name_start_class in Hx.
    unfold is_name_char at 1. rewrite Hx. cbn [orb andb].
    clear -Hxs. induction xs as [|y ys IH]; [reflexivity|].
    cbn [forallb] in *. rewrite name_char_class in Hxs.
    apply andb_true_iff in Hxs as [H1 H2]. rewrite H1. now apply IH.
Qed.

(** Every match of a repeated class is a non-empty run of the class. *)
Lemma matches_from_runs ic neg its lo hi greedy : forall fuel c ab,
  (1 <= lo)%nat ->
  In ab (matches_from fuel ic (Rep lo hi greedy (Cls neg its)) c) ->
  exists xs,
    slice (rev (before c) ++ after c)%list (fst ab) (snd ab)
    = string_of_list_ascii xs
    /\ xs <> [] /\ forallb (cls_match ic neg its) xs = true.
Proof.
  induction fuel as [|fuel IH]; intros c ab Hlo Hin; [contradiction|].
  cbn [matches_from] in Hin.
  destruct (scan ic _ (before c) (after c)) as [[[a c'] g]|] eqn:E;
    [|contradiction].
  apply scan_sound in E as (bef & aft & Esub & -> & Em).
  apply m_rep_cls in Em as (xs & rest & Ea & Hxs & Hlen & Em).
  unfold accept in Em. injection Em as <- _.
  cbn [after before] in Ea. subst aft.
  assert (Hx : xs <> []) by (destruct xs; [simpl in Hlen; lia|discriminate]).
  assert (Hp : (List.length bef <? pos (mkcursor (rev xs ++ bef)%list rest))%nat
               = true).
  { apply Nat.ltb_lt. unfold pos. cbn [before].
    rewrite length_app, length_rev. lia. }
  rewrite Hp in Hin. destruct Hin as [<-|Hin].
  - exists xs. cbn [fst snd]. rewrite <- Esub. unfold pos. cbn [before].
    split; [apply slice_run|]. now split.
  - apply IH in Hin; [|exact Hlo]. cbn [before after] in Hin.
    rewrite rev_app_distr, rev_involutive, <- app_assoc, Esub in Hin.
    exact Hin.
Qed.

Lemma findall_words text :
  forallb name_word (findall "[A-Za-z''\-]+" text) = true.
Proof.
  apply forallb_forall. intros w Hw.
  unfold findall, findall_re in Hw. cbv zeta in Hw.
  apply in_map_iff in Hw as (ab & <- & Hin).
  unfold spans in Hin.
  set (R := compile "[A-Za-z''\-]+") in Hin. vm_compute in R. subst R.
  apply matches_from_runs in Hin as (xs & E & Hx & Hc); [|lia].
  cbn [before after rev app] in E. rewrite E.
  unfold name_word, word_of. rewrite chars_of_list.
  apply andb_true_iff. split.
  - destruct xs; [contradiction|reflexivity].
  - clear -Hc. induction xs as [|y ys IH]; [reflexivity|].
    cbn [forallb] in *. rewrite name_letter_class in Hc.
    apply andb_true_iff in Hc as [H1 H2]. rewrite H1. now apply IH.
Qed.

Lemma filter_keeps (A : Type) (f p : A -> bool) l :
  forallb f l = true -> forallb f (filter p l) = true.
Proof.
  intros H. apply forallb_forall. intros x Hx.
  apply filter_In in Hx as [Hx _].
  exact (proj1 (forallb_forall _ _) H x Hx).
Qed.

Lemma last_word_in (ws : list string) w : last_word ws = Some w -> In w ws.
Proof.
  unfold last_word. intros H. apply in_rev.
  destruct (rev ws); [discriminate|]. injection H as <-. now left.
Qed.

Lemma at_name_words text name :
  at_name text = Some name -> forallb name_word (split name) = true.
Proof.
  unfold at_name. destruct (search_i at_pattern text) as [mt|] eqn:A;
    [|discriminate].
  cbv zeta. destruct (negb _); [|discriminate]. intros [= <-].
  destruct (@at_capture_shape text _ A) as (x & xs & Eg & Hx & _ & Hxs).
  rewrite Eg. apply capture_words.
  cbn [forallb]. unfold is_name_char at 1. now rewrite Hx, Hxs.
Qed.

Lemma in_words_words text words :
  in_words text = Some words -> forallb name_word words = true.
Proof.
  unfold in_words. destruct (search_i in_pattern text) as [mi|] eqn:I;
    [|discriminate].
  cbv zeta. destruct (@in_capture_shape text _ I) as (l & Eg & Hl).
  pose proof (@capture_words _ Hl) as Hw. rewrite <- Eg in Hw.
  pose proof (@filter_keeps _ name_word
                (fun w => negb (in_noise (lower w))) _ Hw) as Hf.
  destruct (filter _ _); [discriminate|]. now intros [= <-].
Qed.

Lemma capitalised_words_shape text :
  forallb name_word (capitalised_words text) = true
  /\ forall w, last_word (capitalised_words text) = Some w ->
               is_noise_word w = false.
Proof.
  split; [apply filter_keeps, findall_words|].
  intros w Hw. apply last_word_in in Hw.
  apply filter_In in Hw as [_ Hin].
  apply andb_true_iff in Hin as [_ Hin].
  now apply negb_true_iff in Hin.
Qed.

(** X12.  The extracted name is a list of words joined by single spaces, each
    word made of letters, apostrophes and hyphens; its last word is not
    a noise word.  Splitting the name gives the words back, and cleaning
    it once more changes nothing. *)
Theorem restaurant_name_shape text :
  exists ws,
    _parse_restaurant_name text = join " " ws
    /\ forallb name_word ws = true
    /\ (forall w, last_word ws = Some w -> is_noise_word w = false)
    /\ split (_parse_restaurant_name text) = ws
    /\ _clean_restaurant_name (_parse_restaurant_name text)
       = _parse_restaurant_name text.
Proof.
  assert (G : exists ws,
             _parse_restaurant_name text = join " " ws
             /\ forallb name_word ws = true
             /\ (forall w, last_word ws = Some w -> is_noise_word w = false)).
  { unfold _parse_restaurant_name.
    destruct (at_name text) as [name|] eqn:A.
    - apply clean_words. exact (at_name_words _ A).
    - destruct (in_words text) as [words|] eqn:I.
      + apply clean_words. rewrite split_join; exact (in_words_words _ I).
      + destruct (capitalised_words_shape text) as [H1 H2].
        exists (capitalised_words text).
        split; [now destruct (capitalised_words text)|]. now split. }
  destruct G as (ws & E & Hw & Hl).
  exists ws. split; [exact E|]. split; [exact Hw|]. split; [exact Hl|].
  assert (S : split (_parse_restaurant_name text) = ws)
    by (rewrite E; now apply split_join).
  split; [exact S|].
  unfold _clean_restaurant_name. cbv zeta. rewrite S.
  assert (P : pop_noise (rev ws) = rev ws).
  { unfold last_word in Hl. destruct (rev ws) as [|w l]; [reflexivity|].
    cbn [pop_noise]. specialize (Hl w eq_refl).
    unfold is_noise_word in Hl. now rewrite Hl. }
  now rewrite P, rev_involutive.
Qed.

End NameFacts.

(* ------------------------------------------------------------------ *)
(** * Further properties: the choice of a slot *)
(* ------------------------------------------------------------------ *)

Module SlotFacts.
Import PyStr Datetime NlpParser Props PyStrMore ParsedRequestMethods
  OntopoClient Bookaboo MoreProps FormatFacts.

Local Open Scope string_scope.

(** ** [min] *)

Lemma min_from_spec key : forall rest best bk r,
  key best = Returns bk ->
  min_from key best bk rest = Returns r ->
  (r = best
   /\ forall s, In s rest -> exists k', key s = Returns k' /\ (bk <= k')%Z)
  \/ exists pre post k,
       rest = (pre ++ r :: post)%list
       /\ key r = Returns k /\ (k < bk)%Z
       /\ (forall s, In s pre -> exists k', key s = Returns k' /\ (k < k')%Z)
       /\ (forall s, In s post ->
                     exists k', key s = Returns k' /\ (k <= k')%Z).
Proof.
  induction rest as [|s rest IH]; intros best bk r Hb H.
  - cbn [min_from] in H. injection H as <-. left. split; [reflexivity|].
    intros s [].
  - cbn [min_from] in H. destruct (key s) as [ks|e] eqn:Ks; [|discriminate].
    destruct (Z.ltb_spec ks bk) as [L|L].
    + apply IH in H; [|exact Ks]. right.
      destruct H as [[-> Hr] | (pre & post & k & -> & Kr & Lk & Hpre & Hpost)].
      * exists [], rest, ks. repeat split; try assumption.
        intros s0 [].
      * exists (s :: pre), post, k. repeat split; try assumption; try lia.
        intros s0 [<-|Hin]; [exists ks; split; [assumption|lia]|].
        now apply Hpre.
    + apply IH in H; [|exact Hb].
      destruct H as [[-> Hr] | (pre & post & k & -> & Kr & Lk & Hpre & Hpost)].
      * left. split; [reflexivity|].
        intros s0 [<-|Hin]; [exists ks; split; [assumption|lia]|].
        now apply Hr.
      * right. exists (s :: pre), post, k.
        repeat split; try assumption.
        intros s0 [<-|Hin]; [exists ks; split; [assumption|lia]|].
        now apply Hpre.
Qed.

Lemma min_from_raises key e : forall rest best bk,
  min_from key best bk rest = Raises e
  <-> exists s, In s rest /\ key s = Raises e.
Proof.
  induction rest as [|s rest IH]; intros best bk.
  - cbn [min_from]. split; [discriminate|]. intros (s & [] & _).
  - cbn [min_from]. destruct (key s) as [ks|e'] eqn:Ks.
    + destruct (ks <? bk)%Z; rewrite IH; split.
      all: try (intros (s0 & Hin & Hs0); exists s0; split;
                [now right|exact Hs0]).
      all: intros (s0 & [<-|Hin] & Hs0); [congruence|];
        exists s0; now split.
    + destruct e, e'. split; [|reflexivity].
      intros _. exists s. split; [now left|exact Ks].
Qed.

Lemma time_distance_raises preferred s e :
  time_distance preferred s = Raises e
  <-> forall t, dict_get s "time" (VStr "0000") <> VStr t.
Proof.
  unfold time_distance. destruct (dict_get s "time" (VStr "0000")) as [t0| | | |].
  - cbv zeta. split.
    + destruct (minutes_of (remove_char ":" t0));
        [destruct (minutes_of preferred)|]; discriminate.
    + intros H. now contradiction (H t0).
  - destruct e. split; [discriminate|reflexivity].
  - destruct e. split; [discriminate|reflexivity].
  - destruct e. split; [discriminate|reflexivity].
  - destruct e. split; [discriminate|reflexivity].
Qed.

(** X13.  For two slots or more, the slot chosen is the first one at the
    smallest distance from the preferred time: every slot before it is
    strictly farther, every slot after it is at least as far. *)
Theorem pick_best_slot_closest slots preferred best :
  (2 <= List.length slots)%nat ->
  pick_best_slot slots preferred = Returns (Some best) ->
  exists pre post k,
    slots = (pre ++ best :: post)%list
    /\ time_distance preferred best = Returns k
    /\ (forall s, In s pre ->
                  exists k', time_distance preferred s = Returns k'
                             /\ (k < k')%Z)
    /\ (forall s, In s post ->
                  exists k', time_distance preferred s = Returns k'
                             /\ (k <= k')%Z).
Proof.
  intros Hlen H. destruct slots as [|s [|s' rest]]; try (simpl in Hlen; lia).
  unfold pick_best_slot in H.
  destruct (time_distance preferred s) as [k0|] eqn:K0; [|discriminate].
  destruct (min_from _ s k0 (s' :: rest)) as [r|] eqn:M; [|discriminate].
  injection H as <-.
  apply min_from_spec in M; [|exact K0].
  destruct M as [[-> Hr] | (pre & post & k & E & Kr & Lk & Hpre & Hpost)].
  - exists [], (s' :: rest), k0. repeat split; try assumption.
    intros s0 [].
  - exists (s :: pre), post, k. rewrite E. repeat split; try assumption.
    intros s0 [<-|Hin]; [exists k0; split; [assumption|lia]|].
    now apply Hpre.
Qed.

Lemma pick_best_slot_closest_witness :
  exists pre post k,
    [ [("time", VStr "1900")]; [("time", VStr "20:30")];
      [("time", VStr "2130")]; [("time", VStr "")] ]
    = (pre ++ [("time", VStr "20:30")] :: post)%list
    /\ time_distance "2100" [("time", VStr "20:30")] = Returns k
    /\ (forall s, In s pre ->
                  exists k', time_distance "2100" s = Returns k'
                             /\ (k < k')%Z)
    /\ (forall s, In s post ->
                  exists k', time_distance "2100" s = Returns k'
                             /\ (k <= k')%Z).
Proof.
  apply (@pick_best_slot_closest
           [ [("time", VStr "1900")]; [("time", VStr "20:30")];
             [("time", VStr "2130")]; [("time", VStr "")] ]
           "2100" [("time", VStr "20:30")]).
  - simpl. lia.
  - vm_compute. reflexivity.
Defined.

(** X14.  The choice raises exactly when there are two slots or more and the
    time of one of them is not a string; a single slot is returned
    without a look at its time, and no slot gives [None]. *)
Theorem pick_best_slot_raises_iff slots preferred e :
  (pick_best_slot slots preferred = Raises e
   <-> (2 <= List.length slots)%nat
       /\ exists s, In s slots
                    /\ forall t, dict_get s "time" (VStr "0000") <> VStr t)
  /\ (pick_best_slot slots preferred = Returns None <-> slots = [])
  /\ (forall s, pick_best_slot [s] preferred = Returns (Some s)).
Proof.
  split; [|split].
  - destruct slots as [|s [|s' rest]].
    + cbn. split; [discriminate|]. intros [H _]. lia.
    + cbn. split; [discriminate|]. intros [H _]. lia.
    + unfold pick_best_slot.
      destruct (time_distance preferred s) as [k0|e0] eqn:K0.
      * destruct (min_from _ s k0 (s' :: rest)) as [r|e1] eqn:M.
        -- split; [discriminate|]. intros (_ & s0 & Hin & Hs0).
           apply (time_distance_raises preferred s0 e) in Hs0.
           destruct Hin as [<-|Hin]; [congruence|].
           assert (X : min_from (time_distance preferred) s k0 (s' :: rest)
                       = Raises e)
             by (apply min_from_raises; now exists s0).
           congruence.
        -- destruct e, e1. split; [|reflexivity]. intros _.
           split; [simpl; lia|].
           apply min_from_raises in M as (s0 & Hin & Hs0).
           exists s0. split; [now right|].
           now apply (time_distance_raises preferred s0 AttributeError).
      * destruct e, e0. split; [|reflexivity]. intros _.
        split; [simpl; lia|]. exists s. split; [now left|].
        now apply (time_distance_raises preferred s AttributeError).
  - destruct slots as [|s [|s' rest]].
    + now split.
    + cbn. split; discriminate.
    + unfold pick_best_slot. split; [|discriminate].
      destruct (time_distance preferred s); [|discriminate].
      destruct (min_from _ _ _ _); discriminate.
  - reflexivity.
Qed.

Lemma time_of_day_distance h m h' m' s t :
  (0 <= h <= 23)%Z -> (0 <= m <= 59)%Z ->
  (0 <= h' <= 23)%Z -> (0 <= m' <= 59)%Z ->
  dict_get s "time" (VStr "0000") = VStr t ->
  t = hhmm h' m' \/ t = hhmm_compact h' m' ->
  time_distance (hhmm_compact h m) s
  = Returns (Z.abs ((h' * 60 + m') - (h * 60 + m))).
Proof.
  intros Hh Hm Hh' Hm' Ht Et.
  pose proof (hhmm_facts Hh Hm) as F. unfold hhmm_ok in F.
  repeat (apply andb_true_iff in F as [F ?]).
  pose proof (hhmm_facts Hh' Hm') as F'. unfold hhmm_ok in F'.
  repeat (apply andb_true_iff in F' as [F' ?]).
  repeat match goal with
         | H : (_ =? _)%string = true |- _ => apply String.eqb_eq in H
         end.
  destruct (minutes_of (hhmm_compact h m)) as [v|] eqn:Mv; [|discriminate].
  destruct (minutes_of (hhmm_compact h' m')) as [v'|] eqn:Mv'; [|discriminate].
  assert (v = h * 60 + m)%Z by lia. assert (v' = h' * 60 + m')%Z by lia.
  subst v v'. unfold time_distance. rewrite Ht. cbv zeta.
  assert (E : remove_char ":" t = hhmm_compact h' m')
    by (destruct Et as [-> | ->]; assumption).
  now rewrite E, Mv', Mv.
Qed.

(** A slot with a distance other than 9999 has a time that reads as
    numbers. *)
Lemma time_distance_readable preferred s k :
  time_distance preferred s = Returns k -> k <> 9999%Z ->
  exists t, dict_get s "time" (VStr "0000") = VStr t
            /\ minutes_of (remove_char ":" t) <> None.
Proof.
  unfold time_distance.
  destruct (dict_get s "time" (VStr "0000")) as [t| | | |]; try discriminate.
  cbv zeta. intros H Hk. exists t. split; [reflexivity|].
  destruct (minutes_of (remove_char ":" t)); [discriminate|].
  injection H as <-. contradiction.
Qed.

(** The slot chosen among two or more is at most as far as any slot. *)
Lemma pick_best_slot_least slots preferred best :
  (2 <= List.length slots)%nat ->
  pick_best_slot slots preferred = Returns (Some best) ->
  exists k,
    time_distance preferred best = Returns k
    /\ forall s, In s slots ->
                 exists k', time_distance preferred s = Returns k'
                            /\ (k <= k')%Z.
Proof.
  intros Hlen H. destruct slots as [|s [|s' rest]]; try (simpl in Hlen; lia).
  unfold pick_best_slot in H.
  destruct (time_distance preferred s) as [k0|] eqn:K0; [|discriminate].
  destruct (min_from _ s k0 (s' :: rest)) as [r|] eqn:M; [|discriminate].
  injection H as <-.
  apply min_from_spec in M; [|exact K0].
  destruct M as [[-> Hr] | (pre & post & k & E & Kr & Lk & Hpre & Hpost)].
  - exists k0. split; [exact K0|].
    intros s0 [<-|Hin]; [exists k0; split; [exact K0|lia]|]. now apply Hr.
  - exists k. split; [exact Kr|]. rewrite E.
    intros s0 [<-|Hin]; [exists k0; split; [exact K0|lia]|].
    apply in_app_or in Hin as [Hin|[<-|Hin]].
    + destruct (Hpre _ Hin) as (k' & Hk & Hl). exists k'. split; [exact Hk|lia].
    + exists k. split; [exact Kr|lia].
    + now apply Hpost.
Qed.

(** X15.  The distance to a slot whose time is a time of day, written
    HHMM or HH:MM, is the difference in minutes between that time and the
    preferred time HHMM: at most 1439, less than the 9999 that a slot
    gets whose time cannot be read as numbers.  So when some slot has a
    time of day, the slot chosen among two or more has a time that reads
    as numbers.  A time that reads as numbers is not checked to be a time
    of day: "999999" is 15939 minutes, 14739 from 20:00, and a slot
    without a readable time is chosen before it. *)
Theorem time_distance_in_minutes :
  (forall h m h' m' s t,
      (0 <= h <= 23)%Z -> (0 <= m <= 59)%Z ->
      (0 <= h' <= 23)%Z -> (0 <= m' <= 59)%Z ->
      dict_get s "time" (VStr "0000") = VStr t ->
      t = hhmm h' m' \/ t = hhmm_compact h' m' ->
      time_distance (hhmm_compact h m) s
      = Returns (Z.abs ((h' * 60 + m') - (h * 60 + m)))
      /\ (Z.abs ((h' * 60 + m') - (h * 60 + m)) <= 1439 < 9999)%Z)
  /\ (forall preferred s t,
      dict_get s "time" (VStr "0000") = VStr t ->
      minutes_of (remove_char ":" t) = None ->
      time_distance preferred s = Returns 9999%Z)
  /\ (forall h m h' m' slots s t best,
      (0 <= h <= 23)%Z -> (0 <= m <= 59)%Z ->
      (0 <= h' <= 23)%Z -> (0 <= m' <= 59)%Z ->
      (2 <= List.length slots)%nat ->
      In s slots ->
      dict_get s "time" (VStr "0000") = VStr t ->
      t = hhmm h' m' \/ t = hhmm_compact h' m' ->
      pick_best_slot slots (hhmm_compact h m) = Returns (Some best) ->
      exists k tb,
        time_distance (hhmm_compact h m) best = Returns k
        /\ (k <= 1439)%Z
        /\ dict_get best "time" (VStr "0000") = VStr tb
        /\ minutes_of (remove_char ":" tb) <> None)
  /\ minutes_of "999999" = Some 15939%Z
  /\ time_distance "2000" [("time", VStr "999999")] = Returns 14739%Z
  /\ pick_best_slot [ [("time", VStr "999999")]; [("time", VStr "")] ] "2000"
     = Returns (Some [("time", VStr "")]).
Proof.
  split; [|split; [|split]].
  - intros h m h' m' s t Hh Hm Hh' Hm' Ht Et.
    split; [exact (@time_of_day_distance h m h' m' s t Hh Hm Hh' Hm' Ht Et)|
            lia].
  - intros preferred s t Ht Hn. unfold time_distance.
    rewrite Ht. cbv zeta. now rewrite Hn.
  - intros h m h' m' slots s t best Hh Hm Hh' Hm' Hlen Hin Ht Et Hp.
    destruct (@pick_best_slot_least _ _ _ Hlen Hp) as (k & Hk & Hall).
    destruct (Hall s Hin) as (k' & Hk' & Hl).
    rewrite (@time_of_day_distance h m h' m' s t Hh Hm Hh' Hm' Ht Et) in Hk'.
    injection Hk' as <-.
    assert (Hb : (k <= 1439)%Z) by lia.
    destruct (@time_distance_readable _ _ _ Hk ltac:(lia)) as (tb & Htb & Hr).
    now exists k, tb.
  - repeat split; vm_compute; reflexivity.
Qed.

Lemma time_distance_in_minutes_witness :
  (time_distance (hhmm_compact 20 0) [("id", VInt 7); ("time", VStr "19:15")]
   = Returns (Z.abs ((19 * 60 + 15) - (20 * 60 + 0)))
   /\ (Z.abs ((19 * 60 + 15) - (20 * 60 + 0)) <= 1439 < 9999)%Z)
  /\ time_distance (hhmm_compact 20 0) [("id", VInt 7); ("time", VStr "")]
     = Returns 9999%Z
  /\ exists k tb,
       time_distance (hhmm_compact 20 0) [("time", VStr "21:00")] = Returns k
       /\ (k <= 1439)%Z
       /\ dict_get [("time", VStr "21:00")] "time" (VStr "0000") = VStr tb
       /\ minutes_of (remove_char ":" tb) <> None.
Proof.
  split; [|split].
  - apply (proj1 time_distance_in_minutes 20 0 19 15
             [("id", VInt 7); ("time", VStr "19:15")] "19:15"
             ltac:(lia) ltac:(lia) ltac:(lia) ltac:(lia) eq_refl).
    left. reflexivity.
  - apply (proj1 (proj2 time_distance_in_minutes) (hhmm_compact 20 0)
             [("id", VInt 7); ("time", VStr "")] "" eq_refl).
    reflexivity.
  - apply (proj1 (proj2 (proj2 time_distance_in_minutes)) 20 0 23 30
             [ [("time", VStr "")]; [("time", VStr "21:00")];
               [("time", VStr "2330")] ]
             [("time", VStr "2330")] "2330" [("time", VStr "21:00")]
             ltac:(lia) ltac:(lia) ltac:(lia) ltac:(lia)).
    + simpl. lia.
    + right. right. now left.
    + reflexivity.
    + right. reflexivity.
    + vm_compute. reflexivity.
Defined.

End SlotFacts.

(* ------------------------------------------------------------------ *)
(** * Further properties: the display date and the first stage of [reserve] *)
(* ------------------------------------------------------------------ *)

Module ReserveFacts.
Import PyStr Datetime NlpParser Props DatetimeFacts DateFacts PartyFacts
  ParserFacts
  PyStrMore ParsedRequestMethods OntopoClient Bookaboo MoreProps FormatFacts
  MoreDateFacts NameFacts.

Local Open Scope string_scope.

Lemma weekday_names_checked : forallb abbreviates _WEEKDAY_MAP = true.
Proof. vm_compute. reflexivity. Qed.

Lemma full_day_name_in target :
  (0 <= target <= 6)%Z -> In (full_day_name target) day_names.
Proof.
  intros H. unfold full_day_name. apply nth_In.
  change (List.length day_names) with 7%nat. lia.
Qed.

(** X16.  When the weekday rule gives the date, the display date begins with
    the full name of the weekday the text named, of which the name in the
    text is the beginning ("fri" gives "Friday, ..."). *)
Theorem display_date_names_weekday clock text now req name target :
  no_relative_keyword (PyStr.lower text) ->
  first_weekday (PyStr.lower text) = Some (name, target) ->
  parse_reservation_request clock text now = Ok req ->
  exists d,
    NlpParser.date req = Some d
    /\ ParsedRequestMethods.display_date req
       = full_day_name target ++ ", "
         ++ nth (Z.to_nat (month d - 1)) month_names "" ++ " "
         ++ PyStr.dec (day d)
    /\ In (full_day_name target) day_names
    /\ String.prefix name (PyStr.lower (full_day_name target)) = true.
Proof.
  intros Hk Hf. unfold parse_reservation_request.
  rewrite (@parse_date_weekday clock text now _ Hk Hf). cbn [snd].
  pose proof (first_weekday_number _ Hf) as Ht. cbn [snd] in Ht.
  destruct (add_days (_today clock now) _) as [d|] eqn:E; [|discriminate].
  cbn [some_date]. cbv zeta.
  destruct (_parse_party_size text); [|discriminate]. intros [= <-].
  unfold ParsedRequestMethods.display_date. cbn [NlpParser.date].
  destruct (days_ahead_lands _ Ht E) as (_ & W & _).
  exists d. split; [reflexivity|].
  unfold strftime_A_B_d, full_day_name. rewrite W.
  split; [reflexivity|].
  split; [now apply full_day_name_in|].
  unfold first_weekday in Hf. apply find_some in Hf as [Hin _].
  exact (proj1 (forallb_forall _ _) weekday_names_checked _ Hin).
Qed.

Lemma display_date_names_weekday_witness :
  exists req,
    parse_reservation_request NOW "table for 3 next thurs at Taizu" (Some NOW)
    = Ok req
    /\ ParsedRequestMethods.display_date req = "Thursday, March 6".
Proof.
  assert (Hk : no_relative_keyword
                 (PyStr.lower "table for 3 next thurs at Taizu"))
    by (split; vm_compute; reflexivity).
  assert (Hf : first_weekday (PyStr.lower "table for 3 next thurs at Taizu")
               = Some ("thurs", 3%Z)) by (vm_compute; reflexivity).
  destruct (parse_reservation_request NOW "table for 3 next thurs at Taizu"
              (Some NOW)) as [req|] eqn:E; [|vm_compute in E; discriminate E].
  exists req. split; [reflexivity|].
  destruct (display_date_names_weekday NOW "table for 3 next thurs at Taizu"
              (Some NOW) Hk Hf E) as (d & Hd & -> & _).
  vm_compute in E. injection E as <-. injection Hd as <-.
  vm_compute. reflexivity.
Defined.

(** ** The first stage of [reserve] *)

(** X17.  What [reserve] does once the request is parsed.  It returns a failure
    at once, with success [false], exactly when no restaurant name was
    found (whatever the date) or, a name being there, no date was found.
    Otherwise the values it carries on are well formed: a non-empty
    name, a party of 1 to 20, a time of day as HH:MM and HHMM, and the two
    renderings of a date of the calendar, the compact one being eight
    digits from the year 1000 on. *)
Theorem reserve_first_stage clock text now out :
  valid_date (_today clock now) = true ->
  reserve_parse_step clock text now = Ok out ->
  match out with
  | inl r =>
      success r = false
      /\ ((_parse_restaurant_name text = ""
           /\ r = failure ""
                    "Could not determine restaurant name from request.")
          \/ (_parse_restaurant_name text <> ""
              /\ _parse_date clock text now = Ok None
              /\ r = failure (_parse_restaurant_name text)
                       "Could not determine date from request."))
  | inr l =>
      l_restaurant_name l = _parse_restaurant_name text
      /\ l_restaurant_name l <> ""
      /\ (1 <= l_party_size l <= 20)%Z
      /\ (exists h m,
             (0 <= h <= 23)%Z /\ (0 <= m <= 59)%Z
             /\ l_time_hhmm_colon l = hhmm h m
             /\ l_time_hhmm_no_colon l = hhmm_compact h m)
      /\ exists d,
           _parse_date clock text now = Ok (Some d)
           /\ valid_date d = true
           /\ l_date_yyyymmdd l = strftime_Ymd d
           /\ l_display_date l = strftime_A_B_d d
           /\ ((1000 <= year d)%Z ->
               String.length (l_date_yyyymmdd l) = 8%nat
               /\ all_digits (l_date_yyyymmdd l) = true)
  end.
Proof.
  intros V. unfold reserve_parse_step, parse_reservation_request.
  destruct (_parse_date clock text now) as [od|] eqn:E; [|discriminate].
  cbv zeta. destruct (_parse_party_size text) as [n|] eqn:Pn; [|discriminate].
  cbn [NlpParser.restaurant_name NlpParser.date].
  destruct (String.eqb_spec (_parse_restaurant_name text) "") as [N|N].
  { intros [= <-]. split; [reflexivity|]. left. now split. }
  destruct od as [d|].
  - intros [= <-].
    cbn [l_restaurant_name l_party_size l_time_hhmm_colon
         l_time_hhmm_no_colon l_date_yyyymmdd l_display_date
         NlpParser.party_size NlpParser.time_str].
    split; [reflexivity|]. split; [exact N|].
    split; [exact (@parse_party_size_range text n Pn)|].
    split.
    + unfold time_hhmm. cbn [NlpParser.time_str].
      destruct (time_of_day_shape text) as (h & m & Hh & Hm & ->).
      exists h, m. split; [exact Hh|]. split; [exact Hm|].
      split; [reflexivity|].
      pose proof (hhmm_facts Hh Hm) as F. unfold hhmm_ok in F.
      repeat (apply andb_true_iff in F as [F ?]).
      now apply String.eqb_eq in F.
    + exists d. split; [reflexivity|].
      pose proof (parse_date_valid clock text now V E) as Vd.
      split; [exact Vd|]. split; [reflexivity|]. split; [reflexivity|].
      intros Hy. unfold date_yyyymmdd. cbn [NlpParser.date].
      destruct (@strftime_Ymd_facts d Vd Hy) as (H1 & H2 & _).
      now split.
  - intros [= <-]. split; [reflexivity|]. right. now repeat split.
Qed.

Lemma reserve_first_stage_witness :
  valid_date (_today NOW (Some NOW)) = true
  /\ exists l,
       reserve_parse_step NOW "book 4 at Cafe Noir on friday 7:30pm"
         (Some NOW) = Ok (inr l)
       /\ l = mkparsed_locals "Cafe Noir" "20250307" "19:30" "1930" 4
                "Friday, March 7"
       /\ l_restaurant_name l <> "".
Proof.
  assert (V : valid_date (_today NOW (Some NOW)) = true) by reflexivity.
  split; [exact V|].
  destruct (reserve_parse_step NOW "book 4 at Cafe Noir on friday 7:30pm"
              (Some NOW)) as [[r|l]|] eqn:E;
    try (vm_compute in E; discriminate E).
  exists l. split; [reflexivity|].
  pose proof (@reserve_first_stage NOW "book 4 at Cafe Noir on friday 7:30pm"
                (Some NOW) (inr l) V E) as (_ & N & _).
  split; [|exact N].
  vm_compute in E. injection E as <-. reflexivity.
Defined.

End ReserveFacts.
